(** * RadioModTx: dataset ingestion and transmit streaming core

    A shallow embedding of the parts of the RadioModTx sources that the
    specification talks about, followed by the theorems that relate the
    specification's statements to the code.

    Conventions of the embedding.
    - Fixed-width integers are [Z] with the wrap-around written out
      ([wrap16], [wrap32], [wrap64], [to_int]).
    - [std::string] is [string]; [find (s, pos)] is [String.index pos s] and
      [substr (pos, len)] is [String.substring pos len], which agree with the
      C++ functions on every position the sources use.
    - [float] and [double] values are the rationals they denote; every
      arithmetic operation of the sources is followed by the IEEE-754
      round-to-nearest-even of its format ([Ieee.to_float], [Ieee.to_double]).
      Infinities and NaN are outside the model.
    - [std::map] is a [gmap] where only lookups matter and a key-ordered
      association list where the iteration order matters.
    - [std::vector::at] and [std::map::at] return [option]: [None] is the
      [std::out_of_range] exception. *)

From Stdlib Require Import ZArith QArith Qround Qabs Qpower Lia Lqa String Ascii
  ZifyNat.
From Stdlib Require DecimalString DecimalPos DecimalZ.
From stdpp Require Import gmap strings list sorting.

Open Scope Z_scope.

(** ** Fixed-width integers *)

Definition wrap16 (z : Z) : Z := z mod 2 ^ 16.
Definition wrap32 (z : Z) : Z := z mod 2 ^ 32.
Definition wrap64 (z : Z) : Z := z mod 2 ^ 64.

(** Conversion of an unsigned value to [int] (32-bit two's complement). *)
Definition to_int (z : Z) : Z := (z + 2 ^ 31) mod 2 ^ 32 - 2 ^ 31.

(** Conversion of an [int] to [int16_t] (two's complement). *)
Definition to_int16 (z : Z) : Z := (z + 2 ^ 15) mod 2 ^ 16 - 2 ^ 15.

Definition SIZE_MAX : Z := 2 ^ 64 - 1.
Definition INT_MAX : Z := 2 ^ 31 - 1.

(** ** Modulation.h, Modulation.cpp *)

Module Modulation.

Inductive ModulationName : Set :=
| NAME_UNKNOWN
| NAME_AM_SSB | NAME_AM_SSB_WC | NAME_AM_SSB_SC
| NAME_AM_DSB | NAME_AM_DSB_WC | NAME_AM_DSB_SC
| NAME_AM_USB | NAME_AM_LSB
| NAME_FM | NAME_WBFM
| NAME_PM
| NAME_16APSK | NAME_32APSK | NAME_64APSK | NAME_128APSK
| NAME_OOK | NAME_4ASK | NAME_8ASK
| NAME_2FSK | NAME_4FSK | NAME_8FSK | NAME_16FSK
| NAME_GFSK | NAME_CPFSK | NAME_GMSK
| NAME_BPSK | NAME_QPSK | NAME_8PSK | NAME_16PSK | NAME_32PSK | NAME_64PSK
| NAME_OQPSK
| NAME_4PAM | NAME_8PAM | NAME_16PAM
| NAME_4QAM | NAME_8QAM | NAME_16QAM | NAME_32QAM | NAME_64QAM
| NAME_128QAM | NAME_256QAM.

(** The value of the enumerator ([enum : uint16_t], counted from 0). *)
Definition enum_value (n : ModulationName) : Z :=
  match n with
  | NAME_UNKNOWN => 0
  | NAME_AM_SSB => 1 | NAME_AM_SSB_WC => 2 | NAME_AM_SSB_SC => 3
  | NAME_AM_DSB => 4 | NAME_AM_DSB_WC => 5 | NAME_AM_DSB_SC => 6
  | NAME_AM_USB => 7 | NAME_AM_LSB => 8
  | NAME_FM => 9 | NAME_WBFM => 10
  | NAME_PM => 11
  | NAME_16APSK => 12 | NAME_32APSK => 13 | NAME_64APSK => 14
  | NAME_128APSK => 15
  | NAME_OOK => 16 | NAME_4ASK => 17 | NAME_8ASK => 18
  | NAME_2FSK => 19 | NAME_4FSK => 20 | NAME_8FSK => 21 | NAME_16FSK => 22
  | NAME_GFSK => 23 | NAME_CPFSK => 24 | NAME_GMSK => 25
  | NAME_BPSK => 26 | NAME_QPSK => 27 | NAME_8PSK => 28 | NAME_16PSK => 29
  | NAME_32PSK => 30 | NAME_64PSK => 31
  | NAME_OQPSK => 32
  | NAME_4PAM => 33 | NAME_8PAM => 34 | NAME_16PAM => 35
  | NAME_4QAM => 36 | NAME_8QAM => 37 | NAME_16QAM => 38 | NAME_32QAM => 39
  | NAME_64QAM => 40 | NAME_128QAM => 41 | NAME_256QAM => 42
  end.

Definition of_enum_value (z : Z) : ModulationName :=
  match z with
  | 1 => NAME_AM_SSB | 2 => NAME_AM_SSB_WC | 3 => NAME_AM_SSB_SC
  | 4 => NAME_AM_DSB | 5 => NAME_AM_DSB_WC | 6 => NAME_AM_DSB_SC
  | 7 => NAME_AM_USB | 8 => NAME_AM_LSB
  | 9 => NAME_FM | 10 => NAME_WBFM
  | 11 => NAME_PM
  | 12 => NAME_16APSK | 13 => NAME_32APSK | 14 => NAME_64APSK
  | 15 => NAME_128APSK
  | 16 => NAME_OOK | 17 => NAME_4ASK | 18 => NAME_8ASK
  | 19 => NAME_2FSK | 20 => NAME_4FSK | 21 => NAME_8FSK | 22 => NAME_16FSK
  | 23 => NAME_GFSK | 24 => NAME_CPFSK | 25 => NAME_GMSK
  | 26 => NAME_BPSK | 27 => NAME_QPSK | 28 => NAME_8PSK | 29 => NAME_16PSK
  | 30 => NAME_32PSK | 31 => NAME_64PSK
  | 32 => NAME_OQPSK
  | 33 => NAME_4PAM | 34 => NAME_8PAM | 35 => NAME_16PAM
  | 36 => NAME_4QAM | 37 => NAME_8QAM | 38 => NAME_16QAM | 39 => NAME_32QAM
  | 40 => NAME_64QAM | 41 => NAME_128QAM | 42 => NAME_256QAM
  | _ => NAME_UNKNOWN
  end.

#[global] Instance ModulationName_eq_dec : EqDecision ModulationName.
Proof. solve_decision. Defined.

#[global] Instance ModulationName_countable : Countable ModulationName.
Proof.
  apply (inj_countable' enum_value of_enum_value).
  intros n. destruct n; reflexivity.
Defined.

Definition is_unknown (n : ModulationName) : bool :=
  match n with NAME_UNKNOWN => true | _ => false end.

(** [std::map<ModulationName, std::vector<std::string>>], listed in the
    order in which the map is iterated (ascending enumerator). *)
Definition AliasTable : Type := list (ModulationName * list string).

Definition MODULATION_NAME_ALIAS : AliasTable :=
  [ (NAME_UNKNOWN,    [""%string]);
    (NAME_AM_SSB,     ["AM-SSB"%string]);
    (NAME_AM_SSB_WC,  ["AM-SSB WC"%string]);
    (NAME_AM_SSB_SC,  ["AM-SSB SC"%string]);
    (NAME_AM_DSB,     ["AM-DSB"%string]);
    (NAME_AM_DSB_WC,  ["AM-DSB WC"%string]);
    (NAME_AM_DSB_SC,  ["AM-DSB SC"%string]);
    (NAME_AM_USB,     ["AM-USB"%string]);
    (NAME_AM_LSB,     ["AM-LSB"%string]);
    (NAME_FM,         ["FM"%string]);
    (NAME_WBFM,       ["WBFM"%string]);
    (NAME_PM,         ["PM"%string]);
    (NAME_16APSK,     ["16APSK"%string; "APSK16"%string]);
    (NAME_32APSK,     ["32APSK"%string; "APSK32"%string]);
    (NAME_64APSK,     ["64APSK"%string; "APSK64"%string]);
    (NAME_128APSK,    ["128APSK"%string; "APSK128"%string]);
    (NAME_OOK,        ["OOK"%string; "2ASK"%string; "ASK2"%string]);
    (NAME_4ASK,       ["4ASK"%string; "ASK4"%string]);
    (NAME_8ASK,       ["8ASK"%string; "ASK8"%string]);
    (NAME_2FSK,       ["2FSK"%string; "FSK2"%string]);
    (NAME_4FSK,       ["4FSK"%string; "FSK4"%string]);
    (NAME_8FSK,       ["8FSK"%string; "FSK8"%string]);
    (NAME_16FSK,      ["16FSK"%string; "FSK16"%string]);
    (NAME_GFSK,       ["GFSK"%string]);
    (NAME_CPFSK,      ["CPFSK"%string]);
    (NAME_GMSK,       ["GMSK"%string]);
    (NAME_BPSK,       ["BPSK"%string; "2PSK"%string; "PSK2"%string]);
    (NAME_QPSK,       ["QPSK"%string; "4PSK"%string; "PSK4"%string]);
    (NAME_8PSK,       ["8PSK"%string; "PSK8"%string]);
    (NAME_16PSK,      ["16PSK"%string; "PSK16"%string]);
    (NAME_32PSK,      ["32PSK"%string; "PSK32"%string]);
    (NAME_64PSK,      ["64PSK"%string; "PSK64"%string]);
    (NAME_OQPSK,      ["OQPSK"%string]);
    (NAME_4PAM,       ["4PAM"%string; "PAM4"%string]);
    (NAME_8PAM,       ["8PAM"%string; "PAM8"%string]);
    (NAME_16PAM,      ["16PAM"%string; "PAM16"%string]);
    (NAME_4QAM,       ["4QAM"%string; "QAM4"%string]);
    (NAME_8QAM,       ["8QAM"%string; "QAM8"%string]);
    (NAME_16QAM,      ["16QAM"%string; "QAM16"%string]);
    (NAME_32QAM,      ["32QAM"%string; "QAM32"%string]);
    (NAME_64QAM,      ["64QAM"%string; "QAM64"%string]);
    (NAME_128QAM,     ["128QAM"%string; "QAM128"%string]);
    (NAME_256QAM,     ["256QAM"%string; "QAM256"%string]) ].

(** The class invariant of [std::map]: keys strictly ascending. *)
Fixpoint map_ordered (tbl : AliasTable) : bool :=
  match tbl with
  | [] => true
  | (n, _) :: rest =>
      forallb (fun e => enum_value n <? enum_value (fst e)) rest
      && map_ordered rest
  end.

(** [std::map::at]: the mapped value, or [None] for [std::out_of_range]. *)
Fixpoint map_at (tbl : AliasTable) (aName : ModulationName)
  : option (list string) :=
  match tbl with
  | [] => None
  | (n, strVec) :: rest =>
      if decide (n = aName) then Some strVec else map_at rest aName
  end.

(** [Modulation::getModulationName], over the table it scans.  The inner
    loop stops at the first alias that compares equal to [aString]. *)
Fixpoint getModulationNameIn (tbl : AliasTable) (aString : string)
  : ModulationName :=
  match tbl with
  | [] => NAME_UNKNOWN
  | (n, strVec) :: rest =>
      if is_unknown n then getModulationNameIn rest aString
      else if existsb (fun s => String.eqb s aString) strVec then n
      else getModulationNameIn rest aString
  end.

Definition getModulationName (aString : string) : ModulationName :=
  getModulationNameIn MODULATION_NAME_ALIAS aString.

(** [Modulation::getModulationString]:
    [MODULATION_NAME_ALIAS.at( aName ).at( 0 )]. *)
Definition getModulationString (aName : ModulationName) : option string :=
  strVec ← map_at MODULATION_NAME_ALIAS aName; strVec !! 0%nat.

(** *** [Modulation::verifyAliasNames]

    The state threaded through the loops is [(status, aDuplicate)];
    [aDuplicate = None] says that the caller's string was not assigned. *)
Definition VerifyState : Type := bool * option string.

(** Innermost loop: [strOneIt] runs over [strOneVec] until the first
    element equal to [strTwo]; that element is stored and the loop is left. *)
Definition scanStrOne (strOneVec : list string) (strTwo : string)
    (st : VerifyState) : VerifyState :=
  match List.find (fun strOne => String.eqb strTwo strOne) strOneVec with
  | Some strOne => (false, Some strOne)
  | None => st
  end.

(** Loop over [strTwoIt]: it has no exit of its own. *)
Definition scanStrTwo (strOneVec strTwoVec : list string)
    (st : VerifyState) : VerifyState :=
  fold_left (fun st strTwo => scanStrOne strOneVec strTwo st) strTwoVec st.

(** Loop over [mapItTwo], from [std::next( mapItOne )] to the end; an empty
    vector clears the status and leaves this loop only. *)
Fixpoint scanMapTwo (strOneVec : list string) (rest : AliasTable)
    (st : VerifyState) : VerifyState :=
  match rest with
  | [] => st
  | (_, strTwoVec) :: rest' =>
      match strTwoVec with
      | [] => (false, snd st)
      | _ => scanMapTwo strOneVec rest' (scanStrTwo strOneVec strTwoVec st)
      end
  end.

(** Loop over [mapItOne]; [NAME_UNKNOWN] is skipped and an empty vector
    clears the status and leaves the loop. *)
Fixpoint scanMapOne (tbl : AliasTable) (st : VerifyState) : VerifyState :=
  match tbl with
  | [] => st
  | (n, strOneVec) :: rest =>
      if is_unknown n then scanMapOne rest st
      else match strOneVec with
           | [] => (false, snd st)
           | _ => scanMapOne rest (scanMapTwo strOneVec rest st)
           end
  end.

Definition verifyAliasNamesIn (tbl : AliasTable) : VerifyState :=
  scanMapOne tbl (true, None).


End Modulation.

(** ** Floating-point values

    A finite [float] or [double] is the rational number it denotes.  [fl]
    rounds a rational to the nearest number with [prec] significant bits
    whose least bit weighs at least [2 ^ emin], ties to even: the IEEE-754
    rounding of binary32 ([prec = 24], [emin = -149]) and of binary64
    ([prec = 53], [emin = -1074]), subnormal numbers included. *)

Module Ieee.

Definition pow2 (e : Z) : Q := (2 ^ e)%Q.

(** [ilog2 a] is the exponent [e] with [2 ^ e <= a < 2 ^ (e + 1)], [0 < a]. *)
Definition ilog2 (a : Q) : Z :=
  let e0 := Z.log2 (Qnum a) - Z.log2 (Zpos (Qden a)) in
  if Qle_bool (pow2 e0) a then e0 else e0 - 1.

Definition round_half_even (x : Q) : Z :=
  let f := Qfloor x in
  match (x - inject_Z f ?= 1 # 2)%Q with
  | Lt => f
  | Gt => f + 1
  | Eq => if Z.even f then f else f + 1
  end.

(** The exponent of the last place of the format at magnitude [a]. *)
Definition ulp_exp (prec emin : Z) (a : Q) : Z :=
  Z.max (ilog2 a - prec + 1) emin.

Definition fl (prec emin : Z) (x : Q) : Q :=
  if Qeq_bool x 0 then 0%Q
  else
    let a := Qabs x in
    let e := ulp_exp prec emin a in
    let n := round_half_even (a / pow2 e) in
    Qred ((if Qle_bool 0 x then inject_Z n else inject_Z (- n)) * pow2 e).

Definition to_float (x : Q) : Q := fl 24 (-149) x.
Definition to_double (x : Q) : Q := fl 53 (-1074) x.

(** [fabs]. *)
Definition fabs (x : Q) : Q := Qabs x.

(** [a > b] on floating-point values. *)
Definition gt (a b : Q) : bool := negb (Qle_bool a b).

(** Conversion of a [double] to an integer type: the fractional part is
    discarded (truncation toward zero). *)
Definition truncate (x : Q) : Z := Z.quot (Qnum x) (Zpos (Qden x)).

(** *** [atof]

    The decimal subject sequence of [strtod]: white space, an optional sign,
    digits with an optional point, an optional exponent.  The value of the
    digits is rounded once to [double].  A string with no digits converts
    to 0; the hexadecimal, infinity and NaN forms are outside the model. *)

Definition is_space (c : ascii) : bool :=
  let n := nat_of_ascii c in
  ((n =? 32) || ((9 <=? n) && (n <=? 13)))%nat.

Definition digit_of (c : ascii) : option Z :=
  let n := nat_of_ascii c in
  if ((48 <=? n) && (n <=? 57))%nat then Some (Z.of_nat n - 48) else None.

Fixpoint skip_spaces (s : string) : string :=
  match s with
  | String c s' => if is_space c then skip_spaces s' else s
  | EmptyString => s
  end.

(** Reads digits: the accumulated value, how many were read, and the rest. *)
Fixpoint read_digits (s : string) (acc : Z) (cnt : Z) : Z * Z * string :=
  match s with
  | String c s' =>
      match digit_of c with
      | Some d => read_digits s' (10 * acc + d) (cnt + 1)
      | None => (acc, cnt, s)
      end
  | EmptyString => (acc, cnt, s)
  end.

(** An optional sign: [true] for [-]. *)
Definition read_sign (s : string) : bool * string :=
  match s with
  | String "-"%char s' => (true, s')
  | String "+"%char s' => (false, s')
  | _ => (false, s)
  end.

(** The exponent part; it counts only when a digit follows the [e]. *)
Definition read_exponent (s : string) : Z :=
  match s with
  | String c s' =>
      if (Ascii.eqb c "e" || Ascii.eqb c "E")%bool then
        let '(neg, s1) := read_sign s' in
        let '(v, cnt, _) := read_digits s1 0 0 in
        if cnt =? 0 then 0 else if neg then - v else v
      else 0
  | EmptyString => 0
  end.

(** The exact value of the decimal subject sequence. *)
Definition decimal_value (s : string) : Q :=
  let '(neg, s1) := read_sign (skip_spaces s) in
  let '(ipart, icnt, s2) := read_digits s1 0 0 in
  let '(mant, fcnt, s3) :=
    match s2 with
    | String "."%char s2' => read_digits s2' ipart 0
    | _ => (ipart, 0, s2)
    end in
  if icnt + fcnt =? 0 then 0%Q
  else
    let e := read_exponent s3 - fcnt in
    let m := if neg then - mant else mant in
    (inject_Z m * 10 ^ e)%Q.

Definition atof (s : string) : Q := to_double (decimal_value s).

End Ieee.

(** ** Dataset.h, Dataset.cpp *)

Module Dataset.

Inductive DatasetSource : Set :=
| DATASET_SOURCE_RADIOML_2016_10A
| DATASET_SOURCE_RADIOML_2018_01
| DATASET_SOURCE_HISARMOD_2019_1.

(** The four constant maps have an entry for each of the three sources, so
    [at] never throws on them; they are functions of the source. *)
Definition FRAME_LENGTH (s : DatasetSource) : Z :=
  match s with
  | DATASET_SOURCE_RADIOML_2016_10A => 128
  | DATASET_SOURCE_RADIOML_2018_01 => 1024
  | DATASET_SOURCE_HISARMOD_2019_1 => 1024
  end.

Definition FRAMES_PER_MOD_SNR_NR (s : DatasetSource) : Z :=
  match s with
  | DATASET_SOURCE_RADIOML_2016_10A => 1000
  | DATASET_SOURCE_RADIOML_2018_01 => 4096
  | DATASET_SOURCE_HISARMOD_2019_1 => 500
  end.

Definition MODULATIONS_NR (s : DatasetSource) : Z :=
  match s with
  | DATASET_SOURCE_RADIOML_2016_10A => 11
  | DATASET_SOURCE_RADIOML_2018_01 => 24
  | DATASET_SOURCE_HISARMOD_2019_1 => 26
  end.

Definition SNRS_NR (s : DatasetSource) : Z :=
  match s with
  | DATASET_SOURCE_RADIOML_2016_10A => 20
  | DATASET_SOURCE_RADIOML_2018_01 => 26
  | DATASET_SOURCE_HISARMOD_2019_1 => 20
  end.

Record IQPoint : Type := { i : Q; q : Q }.

Definition FrameData : Type := list IQPoint.

Record SignalData : Type :=
  { frameDataVec : list FrameData;
    maxVal : Q }.

Definition ModulationSnrPair : Type := (Modulation.ModulationName * Z)%type.

Abbreviation ModulationSnrSignalDataMap :=
  (gmap (Modulation.ModulationName * Z) SignalData).

(** [std::map::insert]: an element whose key is present is not replaced. *)
Definition map_insert (k : ModulationSnrPair) (v : SignalData)
    (m : ModulationSnrSignalDataMap) : ModulationSnrSignalDataMap :=
  match m !! k with
  | Some _ => m
  | None => <[k := v]> m
  end.

(** The two statements that follow every [push_back] of a point:
    [if( fabs( p.i ) > maxVal ) maxVal = fabs( p.i )], then the same for
    [p.q]. *)
Definition updateMaxVal (m : Q) (p : IQPoint) : Q :=
  let m1 := if Ieee.gt (Ieee.fabs (i p)) m then Ieee.fabs (i p) else m in
  if Ieee.gt (Ieee.fabs (q p)) m1 then Ieee.fabs (q p) else m1.

End Dataset.

(** ** DatasetParser.h, DatasetParser.cpp *)

Module DatasetParser.

Import Modulation Dataset.

Record DatasetParser : Type :=
  { mFileName : string;
    mStatus : bool;
    mUniqueModVec : list ModulationName;
    mUniqueSnrVec : list Z;
    mSingleModulation : ModulationName;
    mMap : ModulationSnrSignalDataMap }.

(** The constructor. *)
Definition new : DatasetParser :=
  {| mFileName := ""; mStatus := true; mUniqueModVec := [];
     mUniqueSnrVec := []; mSingleModulation := NAME_UNKNOWN; mMap := ∅ |}.




Definition name_le (a b : ModulationName) : Prop :=
  enum_value a <= enum_value b.

#[global] Instance name_le_dec : RelDecision name_le.
Proof. intros a b. unfold name_le. apply _. Defined.

(** [removeDuplicates]: the elements pass through an [unordered_set] and are
    sorted; the result is the ascending list of the distinct elements. *)
Definition removeDuplicates_int (aVector : list Z) : list Z :=
  merge_sort Z.le (remove_dups aVector).

Definition removeDuplicates_mod (aVector : list ModulationName)
  : list ModulationName :=
  merge_sort name_le (remove_dups aVector).


Definition setSingleModulation (aModulation : ModulationName)
    (p : DatasetParser) : DatasetParser :=
  {| mFileName := mFileName p; mStatus := mStatus p;
     mUniqueModVec := mUniqueModVec p; mUniqueSnrVec := mUniqueSnrVec p;
     mSingleModulation := aModulation; mMap := mMap p |}.

(** What a text file offers to [std::ifstream] and [std::getline]: [None]
    when it cannot be opened, otherwise its lines. *)
Definition FileSystem : Type := string → option (list string).

End DatasetParser.

(** ** CsvParser.h, CsvParser.cpp *)

Module CsvParser.

Import Modulation Dataset DatasetParser.

(** [std::map<int, ModulationName>], in the order of the source. *)
Definition MODULATION_MAPPING : list (Z * ModulationName) :=
  [ (0, NAME_BPSK); (10, NAME_QPSK); (20, NAME_8PSK); (30, NAME_16PSK);
    (40, NAME_32PSK); (50, NAME_64PSK);
    (1, NAME_4QAM); (11, NAME_8QAM); (21, NAME_16QAM); (31, NAME_32QAM);
    (41, NAME_64QAM); (51, NAME_128QAM); (61, NAME_256QAM);
    (2, NAME_2FSK); (12, NAME_4FSK); (22, NAME_8FSK); (32, NAME_16FSK);
    (3, NAME_4PAM); (13, NAME_8PAM); (23, NAME_16PAM);
    (4, NAME_AM_DSB); (14, NAME_AM_DSB_SC); (24, NAME_AM_USB);
    (34, NAME_AM_LSB); (44, NAME_FM); (54, NAME_PM) ].

Definition MODULATION_MAPPING_at (k : Z) : option ModulationName :=
  snd <$> List.find (fun e => fst e =? k) MODULATION_MAPPING.

Definition MODULATION_SERIES : list Z :=
  [  4; 14; 44; 32;  2; 12; 22; 34; 23;  3;
    13; 54; 30;  0; 40; 10; 50; 20; 51; 21;
    61; 31;  1; 41; 11; 24 ].

(** [CsvParser::getPoint]. *)
Definition getPoint (aString : string) : IQPoint :=
  let sepSignIndex :=
    match String.index 1 "+" aString with
    | Some k => Some k
    | None => String.index 1 "-" aString
    end in
  match sepSignIndex with
  | Some k =>
      {| i := Ieee.to_float (Ieee.atof (String.substring 0 k aString));
         q := Ieee.to_float
                (Ieee.atof
                   (String.substring k (String.length aString - k - 1)
                      aString)) |}
  | None => {| i := 0; q := 0 |}
  end.

(** The loop [for( j = 0; j < DATA_STR_LEN; j++ )] over one line: the
    strings handed to [getPoint], in order.  Every round moves [j] forward,
    so [fuel] rounds are enough when [fuel] is the length of the line. *)
Fixpoint tokensFrom (fuel : nat) (currentLine : string) (j : nat)
  : list string :=
  match fuel with
  | O => []
  | S fuel' =>
      if (j <? String.length currentLine)%nat then
        match String.index (j + 1) "," currentLine with
        | Some commaIndex =>
            String.substring j (commaIndex - j) currentLine
              :: tokensFrom fuel' currentLine (commaIndex + 1)
        | None =>
            [String.substring j (String.length currentLine - j) currentLine]
        end
      else []
  end.

Definition lineTokens (currentLine : string) : list string :=
  tokensFrom (String.length currentLine) currentLine 0.

(** The frame decoded from one line. *)
Definition lineFrame (currentLine : string) : FrameData :=
  getPoint <$> lineTokens currentLine.

Definition NR_LINES_PER_SNR : Z :=
  FRAMES_PER_MOD_SNR_NR DATASET_SOURCE_HISARMOD_2019_1
  * MODULATIONS_NR DATASET_SOURCE_HISARMOD_2019_1.

(** [crtSnrDb = -20 + 2 * ( crtLineNr / NR_LINES_PER_SNR )]: the arithmetic
    is done in [size_t] and the result is converted to [int]. *)
Definition lineSnrDb (crtLineNr : Z) : Z :=
  to_int (wrap64 (wrap64 (-20) + wrap64 (2 * (crtLineNr / NR_LINES_PER_SNR)))).

(** [crtModInt], first as the index into [MODULATION_SERIES]. *)
Definition lineSeriesIndex (crtLineNr : Z) : Z :=
  (crtLineNr mod NR_LINES_PER_SNR)
  / FRAMES_PER_MOD_SNR_NR DATASET_SOURCE_HISARMOD_2019_1.

Definition lineModInt (crtLineNr : Z) : option Z :=
  MODULATION_SERIES !! Z.to_nat (lineSeriesIndex crtLineNr).

Definition lineModName (crtLineNr : Z) : option ModulationName :=
  crtModInt ← lineModInt crtLineNr; MODULATION_MAPPING_at crtModInt.

(** The variables of [parseDataset] that live across the rounds of the
    [getline] loop. *)
Record LoopState : Type :=
  { crtLineNr : Z;
    oldSnrDb : Z;
    oldModInt : Z;
    modSnrPair : ModulationSnrPair;
    signalData : SignalData;
    uniqueModVec : list ModulationName;
    uniqueSnrVec : list Z;
    map : ModulationSnrSignalDataMap }.

(** The state before the first line.  [signalData.maxVal] is not
    initialised by the source; it is first read after the first line has
    set it to 0. *)
Definition loopInit : LoopState :=
  {| crtLineNr := 0; oldSnrDb := -100; oldModInt := SIZE_MAX;
     modSnrPair := (NAME_UNKNOWN, 0);
     signalData := {| frameDataVec := []; maxVal := 0 |};
     uniqueModVec := []; uniqueSnrVec := []; map := ∅ |}.

(** How one round of the loop ends: it goes on to the next line, it sets
    [parseFailed] and breaks, or an [at] throws. *)
Inductive Round : Type :=
| Next (st : LoopState)
| Failed (st : LoopState)
| Thrown.

Definition lineRound (st : LoopState) (currentLine : string) : Round :=
  let crtSnrDb := lineSnrDb (crtLineNr st) in
  match lineModInt (crtLineNr st) with
  | None => Thrown
  | Some crtModInt =>
  match MODULATION_MAPPING_at crtModInt with
  | None => Thrown
  | Some modName =>
      let newCombination :=
        negb (crtSnrDb =? oldSnrDb st) || negb (crtModInt =? oldModInt st) in
      let mods :=
        if newCombination then uniqueModVec st ++ [modName]
        else uniqueModVec st in
      let snrs :=
        if newCombination then uniqueSnrVec st ++ [crtSnrDb]
        else uniqueSnrVec st in
      let pair :=
        if newCombination then (modName, crtSnrDb) else modSnrPair st in
      let sd0 :=
        if newCombination then {| frameDataVec := []; maxVal := 0 |}
        else signalData st in
      let frameData := lineFrame currentLine in
      let maxVal1 := fold_left updateMaxVal frameData (maxVal sd0) in
      if negb (FRAME_LENGTH DATASET_SOURCE_HISARMOD_2019_1
               =? Z.of_nat (length frameData)) then
        Failed {| crtLineNr := crtLineNr st; oldSnrDb := oldSnrDb st;
                  oldModInt := oldModInt st; modSnrPair := pair;
                  signalData :=
                    {| frameDataVec := frameDataVec sd0; maxVal := maxVal1 |};
                  uniqueModVec := mods; uniqueSnrVec := snrs;
                  map := map st |}
      else
        let sd1 :=
          {| frameDataVec := frameDataVec sd0 ++ [frameData];
             maxVal := maxVal1 |} in
        let full :=
          negb (crtLineNr st =? 0)
          && (wrap64 (crtLineNr st + 1)
                mod FRAMES_PER_MOD_SNR_NR DATASET_SOURCE_HISARMOD_2019_1
              =? 0) in
        if full
           && negb (FRAMES_PER_MOD_SNR_NR DATASET_SOURCE_HISARMOD_2019_1
                    =? Z.of_nat (length (frameDataVec sd1))) then
          Failed {| crtLineNr := crtLineNr st; oldSnrDb := oldSnrDb st;
                    oldModInt := oldModInt st; modSnrPair := pair;
                    signalData := sd1;
                    uniqueModVec := mods; uniqueSnrVec := snrs;
                    map := map st |}
        else
          Next {| crtLineNr := wrap64 (crtLineNr st + 1);
                  oldSnrDb := crtSnrDb; oldModInt := crtModInt;
                  modSnrPair := pair; signalData := sd1;
                  uniqueModVec := mods; uniqueSnrVec := snrs;
                  map := if full then map_insert pair sd1 (map st)
                         else map st |}
  end
  end.

(** The [while( std::getline( inputFile, currentLine ) )] loop: the final
    state with [parseFailed], or [None] when an [at] threw. *)
Fixpoint parseLines (lines : list string) (st : LoopState)
  : option (LoopState * bool) :=
  match lines with
  | [] => Some (st, false)
  | currentLine :: lines' =>
      match lineRound st currentLine with
      | Next st' => parseLines lines' st'
      | Failed st' => Some (st', true)
      | Thrown => None
      end
  end.

(** [CsvParser::parseDataset].  The three members are cleared, the file is
    read if it opens, the vectors are deduplicated and the cardinalities
    are compared; [mStatus] is stored last. *)
Definition parseDataset (fs : FileSystem) (p : DatasetParser)
  : option DatasetParser :=
  '(st, parseFailed) ←
     match fs (mFileName p) with
     | Some lines => parseLines lines loopInit
     | None => Some (loopInit, false)
     end;
  let mods := removeDuplicates_mod (uniqueModVec st) in
  let snrs := removeDuplicates_int (uniqueSnrVec st) in
  let parseFailed' :=
    parseFailed
    || negb (MODULATIONS_NR DATASET_SOURCE_HISARMOD_2019_1
             =? Z.of_nat (length mods))
    || negb (SNRS_NR DATASET_SOURCE_HISARMOD_2019_1
             =? Z.of_nat (length snrs)) in
  Some {| mFileName := mFileName p; mStatus := negb parseFailed';
          mUniqueModVec := mods; mUniqueSnrVec := snrs;
          mSingleModulation := mSingleModulation p; mMap := map st |}.

End CsvParser.

(** ** Hdf5Parser.h, Hdf5Parser.cpp *)

Module Hdf5Parser.

Import Modulation Dataset DatasetParser.

Inductive H5T_class_t : Set :=
| H5T_NO_CLASS | H5T_INTEGER | H5T_FLOAT | H5T_TIME | H5T_STRING
| H5T_BITFIELD | H5T_OPAQUE | H5T_COMPOUND | H5T_REFERENCE | H5T_ENUM
| H5T_VLEN | H5T_ARRAY.

#[global] Instance H5T_class_eq_dec : EqDecision H5T_class_t.
Proof. solve_decision. Defined.

Inductive ItemType : Set :=
| ITEM_TYPE_ROOT | ITEM_TYPE_GROUP | ITEM_TYPE_VARIABLE | ITEM_TYPE_ATTRIBUTE.

#[global] Instance ItemType_eq_dec : EqDecision ItemType.
Proof. solve_decision. Defined.

(** [mDataBuffer] is recorded as null ([false]) or not. *)
Record Hdf5Dataset : Type :=
  { mDataBuffer : bool;
    mFilePath : string;
    mDimensionsVec : list Z;
    mDatatypeSize : Z;
    mDatatypeClass : H5T_class_t }.

Record Hdf5ItemData : Type :=
  { mFileName : string;
    mItemName : string;
    mItemType : ItemType;
    mDataset : option Hdf5Dataset }.

(** A data space selection handed to [H5Dread]. *)
Inductive Selection : Set := H5S_ALL.

(** The calls of [loadTreeItem] that allocate, fill and release memory. *)
Inductive LibCall : Type :=
| Malloc (bytes : Z)
| H5Dread (path : string) (mem_space file_space : Selection)
| Free.

(** The allocator and the HDF5 library as the parser meets them: whether
    [malloc] of a number of bytes succeeds, whether [H5Dread] of a dataset
    succeeds, and the element of a dataset at a flat, row-major index. *)
Record Hdf5Env : Type :=
  { malloc_ok : Z → bool;
    read_ok : string → bool;
    element : string → Z → Q }.

Definition MODULATION_MAPPING : list ModulationName :=
  [ NAME_OOK; NAME_4ASK; NAME_8ASK;
    NAME_BPSK; NAME_QPSK; NAME_8PSK; NAME_16PSK; NAME_32PSK;
    NAME_16APSK; NAME_32APSK; NAME_64APSK; NAME_128APSK;
    NAME_16QAM; NAME_32QAM; NAME_64QAM; NAME_128QAM; NAME_256QAM;
    NAME_AM_SSB_WC; NAME_AM_SSB_SC; NAME_AM_DSB_WC; NAME_AM_DSB_SC;
    NAME_FM;
    NAME_GMSK;
    NAME_OQPSK ].

(** [nrOfElements]: the product of the dimensions, in [hsize_t]. *)
Definition nrOfElements (dims : list Z) : Z :=
  fold_left (fun acc d => wrap64 (acc * d)) dims 1.

Definition TOTAL_BYTES (ds : Hdf5Dataset) : Z :=
  wrap64 (mDatatypeSize ds * nrOfElements (mDimensionsVec ds)).

Definition NR_ELEMENTS_PER_MOD (ds : Hdf5Dataset) : Z :=
  nrOfElements (mDimensionsVec ds)
  / MODULATIONS_NR DATASET_SOURCE_RADIOML_2018_01.

Definition NR_ELEMENTS_PER_FRAME : Z :=
  2 * FRAME_LENGTH DATASET_SOURCE_RADIOML_2018_01.

Definition NR_ELEMENTS_PER_MOD_SNR (ds : Hdf5Dataset) : Z :=
  NR_ELEMENTS_PER_MOD ds / SNRS_NR DATASET_SOURCE_RADIOML_2018_01.

(** The loop that looks [mSingleModulation] up in [MODULATION_MAPPING];
    [modOffset] stays 0 when it is not there. *)
Fixpoint findModOffset (l : list ModulationName) (i : Z)
    (aModulation : ModulationName) : Z :=
  match l with
  | [] => 0
  | m :: l' =>
      if decide (m = aModulation) then i
      else findModOffset l' (i + 1) aModulation
  end.

Definition modOffset (aModulation : ModulationName) : Z :=
  findModOffset MODULATION_MAPPING 0 aModulation.

Definition START_ELEMENT (ds : Hdf5Dataset) (aModulation : ModulationName)
  : Z :=
  wrap64 (modOffset aModulation * NR_ELEMENTS_PER_MOD ds).

Definition STOP_ELEMENT (ds : Hdf5Dataset) (aModulation : ModulationName)
  : Z :=
  wrap64 (START_ELEMENT ds aModulation + NR_ELEMENTS_PER_MOD ds).

(** The variables of the slab loop of [loadTreeItem]. *)
Record SlabState : Type :=
  { oldSnrDb : Z;
    modSnrPair : ModulationSnrPair;
    signalData : SignalData;
    frameData : FrameData;
    uniqueSnrVec : list Z;
    map : ModulationSnrSignalDataMap }.

Definition slabSnrDb (ds : Hdf5Dataset) (i : Z) : Z :=
  to_int
    (wrap64
       (wrap64 (-20)
        + wrap64 (2 * ((i mod NR_ELEMENTS_PER_MOD ds)
                       / NR_ELEMENTS_PER_MOD_SNR ds)))).

(** The points read by the inner loop
    [for( j = i; j < i + NR_ELEMENTS_PER_FRAME; j += 2 )]. *)
Definition slabPoints (fltBuf : Z → Q) (i : Z) : list IQPoint :=
  (fun k : nat =>
     {| Dataset.i := fltBuf (i + 2 * Z.of_nat k);
        Dataset.q := fltBuf (i + 2 * Z.of_nat k + 1) |})
    <$> seq 0 (Z.to_nat (FRAME_LENGTH DATASET_SOURCE_RADIOML_2018_01)).

(** How one round of the slab loop ends.  [SlabUndefined] stands for a
    division by zero and for a read outside the [TOTAL_BYTES] of the buffer,
    which [fltBuf] views as an array of 4-byte [float]. *)
Inductive SlabRound : Type :=
| SlabNext (i : Z) (st : SlabState)
| SlabFailed (st : SlabState)
| SlabUndefined.

Definition slabRound (ds : Hdf5Dataset) (aModulation : ModulationName)
    (fltBuf : Z → Q) (i : Z) (st : SlabState) : SlabRound :=
  if (NR_ELEMENTS_PER_MOD ds =? 0) || (NR_ELEMENTS_PER_MOD_SNR ds =? 0)
     || (TOTAL_BYTES ds <? 4 * (i + NR_ELEMENTS_PER_FRAME))
  then SlabUndefined
  else
    let crtSnrDb := slabSnrDb ds i in
    let newSnr := negb (crtSnrDb =? oldSnrDb st) in
    let snrs :=
      if newSnr then uniqueSnrVec st ++ [crtSnrDb] else uniqueSnrVec st in
    let pair :=
      if newSnr then (aModulation, crtSnrDb) else modSnrPair st in
    let sd0 :=
      if newSnr then {| frameDataVec := []; maxVal := 0 |}
      else signalData st in
    let frame0 :=
      if i mod NR_ELEMENTS_PER_FRAME =? 0 then [] else frameData st in
    let points := slabPoints fltBuf i in
    let frame1 := frame0 ++ points in
    let maxVal1 := fold_left updateMaxVal points (maxVal sd0) in
    if negb (FRAME_LENGTH DATASET_SOURCE_RADIOML_2018_01
             =? Z.of_nat (length frame1)) then
      SlabFailed {| oldSnrDb := oldSnrDb st; modSnrPair := pair;
                    signalData :=
                      {| frameDataVec := frameDataVec sd0;
                         maxVal := maxVal1 |};
                    frameData := frame1; uniqueSnrVec := snrs;
                    map := map st |}
    else
      let sd1 :=
        {| frameDataVec := frameDataVec sd0 ++ [frame1];
           maxVal := maxVal1 |} in
      let i1 := i + NR_ELEMENTS_PER_FRAME - 2 in
      let full :=
        negb (i1 =? 0) && ((i1 + 2) mod NR_ELEMENTS_PER_MOD_SNR ds =? 0) in
      if full
         && negb (FRAMES_PER_MOD_SNR_NR DATASET_SOURCE_RADIOML_2018_01
                  =? Z.of_nat (length (frameDataVec sd1))) then
        SlabFailed {| oldSnrDb := oldSnrDb st; modSnrPair := pair;
                      signalData := sd1; frameData := frame1;
                      uniqueSnrVec := snrs; map := map st |}
      else
        SlabNext (i1 + 2)
          {| oldSnrDb := crtSnrDb; modSnrPair := pair; signalData := sd1;
             frameData := frame1; uniqueSnrVec := snrs;
             map := if full then map_insert pair sd1 (map st)
                    else map st |}.

(** The loop [for( i = START_ELEMENT; i < STOP_ELEMENT; i += 2 )]; every
    round moves [i] one frame forward.  The result is the final state with
    [status]; [None] is undefined behaviour, or [fuel] used up. *)
Fixpoint slabLoop (fuel : nat) (ds : Hdf5Dataset)
    (aModulation : ModulationName) (fltBuf : Z → Q) (i : Z)
    (st : SlabState) : option (SlabState * bool) :=
  if STOP_ELEMENT ds aModulation <=? i then Some (st, true)
  else
    match fuel with
    | O => None
    | S fuel' =>
        match slabRound ds aModulation fltBuf i st with
        | SlabNext i' st' => slabLoop fuel' ds aModulation fltBuf i' st'
        | SlabFailed st' => Some (st', false)
        | SlabUndefined => None
        end
    end.

Definition slabInit (p : DatasetParser) : SlabState :=
  {| oldSnrDb := -100; modSnrPair := (NAME_UNKNOWN, 0);
     signalData := {| frameDataVec := []; maxVal := 0 |};
     frameData := [];
     uniqueSnrVec := mUniqueSnrVec p; map := mMap p |}.

(** The result of [loadTreeItem]: the returned status, the parser, and the
    memory calls in the order in which they were made. *)
Record LoadResult : Type :=
  { status : bool;
    parser : DatasetParser;
    calls : list LibCall }.

(** [Hdf5Parser::loadTreeItem].  [None] is undefined behaviour. *)
Definition loadTreeItem (env : Hdf5Env) (p : DatasetParser)
    (itemData : Hdf5ItemData) : option LoadResult :=
  if negb (bool_decide (mItemType itemData = ITEM_TYPE_VARIABLE)) then
    Some {| status := false; parser := p; calls := [] |}
  else
    match mDataset itemData with
    | None => None
    | Some ds =>
        if mDataBuffer ds then
          Some {| status := false; parser := p; calls := [] |}
        else if negb (bool_decide (mDatatypeClass ds = H5T_FLOAT)) then
          Some {| status := false; parser := p; calls := [] |}
        else if negb (malloc_ok env (TOTAL_BYTES ds)) then
          Some {| status := false; parser := p;
                  calls := [Malloc (TOTAL_BYTES ds)] |}
        else if negb (read_ok env (mFilePath ds)) then
          Some {| status := false; parser := p;
                  calls := [Malloc (TOTAL_BYTES ds);
                            H5Dread (mFilePath ds) H5S_ALL H5S_ALL] |}
        else
          let fltBuf := element env (mFilePath ds) in
          let aModulation := mSingleModulation p in
          let p1 :=
            {| DatasetParser.mFileName := DatasetParser.mFileName p;
               mStatus := mStatus p;
               mUniqueModVec := mUniqueModVec p ++ [aModulation];
               mUniqueSnrVec := mUniqueSnrVec p;
               mSingleModulation := aModulation;
               mMap := mMap p |} in
          '(st, ok) ←
             slabLoop
               (Z.to_nat (NR_ELEMENTS_PER_MOD ds / NR_ELEMENTS_PER_FRAME + 1))
               ds aModulation fltBuf
               (START_ELEMENT ds aModulation) (slabInit p1);
          Some {| status := ok;
                  parser :=
                    {| DatasetParser.mFileName := DatasetParser.mFileName p;
                       mStatus := mStatus p;
                       mUniqueModVec := mUniqueModVec p1;
                       mUniqueSnrVec := uniqueSnrVec st;
                       mSingleModulation := aModulation;
                       mMap := map st |};
                  calls := [Malloc (TOTAL_BYTES ds);
                            H5Dread (mFilePath ds) H5S_ALL H5S_ALL;
                            Free] |}
    end.

(** What [H5Fopen], [H5Lvisit_by_name] and [iterateGroup] find in a file:
    [None] when the file does not open, otherwise whether the visit
    succeeds and the datasets of the root group, in name order. *)
Record H5File : Type :=
  { visit_ok : bool;
    root_datasets : list (string * Hdf5Dataset) }.

Definition H5FileSystem : Type := string → option H5File.

(** The children that [iterateGroup] appends to the root item. *)
Definition rootChildren (fileName : string) (f : H5File)
  : list Hdf5ItemData :=
  (fun e : string * Hdf5Dataset =>
     {| mFileName := fileName; mItemName := fst e;
        mItemType := ITEM_TYPE_VARIABLE; mDataset := Some (snd e) |})
    <$> root_datasets f.

Definition ROWS_EXPECTED_NR : Z :=
  FRAMES_PER_MOD_SNR_NR DATASET_SOURCE_RADIOML_2018_01
  * MODULATIONS_NR DATASET_SOURCE_RADIOML_2018_01
  * SNRS_NR DATASET_SOURCE_RADIOML_2018_01.

(** The test on the dimensions of [X]: [true] when they are refused. *)
Definition X_shape_bad (ds : Hdf5Dataset) : bool :=
  match mDimensionsVec ds with
  | [d0; d1; d2] =>
      negb (d0 =? ROWS_EXPECTED_NR)
      || negb (d1 =? FRAME_LENGTH DATASET_SOURCE_RADIOML_2018_01)
      || negb (d2 =? 2)
  | _ => true
  end.

Definition Y_shape_bad (ds : Hdf5Dataset) : bool :=
  match mDimensionsVec ds with
  | [d0; d1] =>
      negb (d0 =? ROWS_EXPECTED_NR)
      || negb (d1 =? MODULATIONS_NR DATASET_SOURCE_RADIOML_2018_01)
  | _ => true
  end.

Definition Z_shape_bad (ds : Hdf5Dataset) : bool :=
  match mDimensionsVec ds with
  | [d0; d1] => negb (d0 =? ROWS_EXPECTED_NR) || negb (d1 =? 1)
  | _ => true
  end.

(** The variables of the loop over the children of the root item. *)
Record ChildState : Type :=
  { parseFailed : bool;
    foundX : bool;
    foundY : bool;
    foundZ : bool;
    childParser : DatasetParser;
    childCalls : list LibCall }.

(** The loop over the children; [None] is undefined behaviour. *)
Fixpoint childrenLoop (env : Hdf5Env) (children : list Hdf5ItemData)
    (st : ChildState) : option ChildState :=
  match children with
  | [] => Some st
  | crtChild :: rest =>
      let isX := String.eqb "X" (mItemName crtChild) in
      let isY := String.eqb "Y" (mItemName crtChild) in
      let isZ := String.eqb "Z" (mItemName crtChild) in
      match mDataset crtChild with
      | None => if isX || isY || isZ then None else childrenLoop env rest st
      | Some ds =>
          if isX then
            if X_shape_bad ds || parseFailed st then
              Some {| parseFailed := true; foundX := foundX st;
                      foundY := foundY st; foundZ := foundZ st;
                      childParser := childParser st;
                      childCalls := childCalls st |}
            else
              r ← loadTreeItem env (childParser st) crtChild;
              childrenLoop env rest
                {| parseFailed := negb (status r); foundX := status r;
                   foundY := foundY st; foundZ := foundZ st;
                   childParser := parser r;
                   childCalls := childCalls st ++ calls r |}
          else if isY then
            if Y_shape_bad ds || parseFailed st then
              Some {| parseFailed := true; foundX := foundX st;
                      foundY := foundY st; foundZ := foundZ st;
                      childParser := childParser st;
                      childCalls := childCalls st |}
            else
              childrenLoop env rest
                {| parseFailed := false; foundX := foundX st;
                   foundY := true; foundZ := foundZ st;
                   childParser := childParser st;
                   childCalls := childCalls st |}
          else if isZ then
            if Z_shape_bad ds || parseFailed st then
              Some {| parseFailed := true; foundX := foundX st;
                      foundY := foundY st; foundZ := foundZ st;
                      childParser := childParser st;
                      childCalls := childCalls st |}
            else
              childrenLoop env rest
                {| parseFailed := false; foundX := foundX st;
                   foundY := foundY st; foundZ := true;
                   childParser := childParser st;
                   childCalls := childCalls st |}
          else childrenLoop env rest st
      end
  end.

(** [Hdf5Parser::parseDatasetSingleModulation]: the parser after the run
    and the memory calls made; [None] is undefined behaviour. *)
Definition parseDatasetSingleModulation (fs : H5FileSystem) (env : Hdf5Env)
    (p : DatasetParser) : option (DatasetParser * list LibCall) :=
  let p0 :=
    {| DatasetParser.mFileName := DatasetParser.mFileName p;
       mStatus := mStatus p; mUniqueModVec := []; mUniqueSnrVec := [];
       mSingleModulation := mSingleModulation p; mMap := ∅ |} in
  let finish (failed : bool) (q : DatasetParser) (cs : list LibCall) :=
    Some ({| DatasetParser.mFileName := DatasetParser.mFileName q;
             mStatus := negb failed;
             mUniqueModVec := mUniqueModVec q;
             mUniqueSnrVec := mUniqueSnrVec q;
             mSingleModulation := mSingleModulation q;
             mMap := mMap q |}, cs) in
  if is_unknown (mSingleModulation p) then finish true p0 []
  else
    match fs (DatasetParser.mFileName p) with
    | None => finish true p0 []
    | Some f =>
        if negb (visit_ok f) then finish true p0 []
        else
          st ← childrenLoop env (rootChildren (DatasetParser.mFileName p) f)
                 {| parseFailed := false; foundX := false; foundY := false;
                    foundZ := false; childParser := p0; childCalls := [] |};
          let failed :=
            parseFailed st || negb (foundX st) || negb (foundY st)
            || negb (foundZ st) in
          if failed then finish true (childParser st) (childCalls st)
          else
            let q := childParser st in
            let snrs := removeDuplicates_int (mUniqueSnrVec q) in
            finish
              (negb (SNRS_NR DATASET_SOURCE_RADIOML_2018_01
                     =? Z.of_nat (length snrs)))
              {| DatasetParser.mFileName := DatasetParser.mFileName q;
                 mStatus := mStatus q;
                 mUniqueModVec := mUniqueModVec q;
                 mUniqueSnrVec := snrs;
                 mSingleModulation := mSingleModulation q;
                 mMap := mMap q |}
              (childCalls st)
    end.

End Hdf5Parser.

(** ** AdiTrx.h, AdiTrx.cpp *)

Module AdiTrx.

Import Dataset.

(** [IntegerRange] is [Range Z], [DoubleRange] is [Range Q]. *)
Record Range (A : Type) : Type := { min : A; step : A; max : A }.
Arguments min {A} _.
Arguments step {A} _.
Arguments max {A} _.

Abbreviation IntegerRange := (Range Z).
Abbreviation DoubleRange := (Range Q).

(** The object; of the pointers only [mTxBuf] is kept, as null ([false])
    or not. *)
Record AdiTrx : Type :=
  { mTxBuf : bool;
    mTxBufIqPairsCount : Z;
    mTxBandwidthParams : IntegerRange;
    mTxBandwidth : Z;
    mTxSamplingFrequencyParams : IntegerRange;
    mTxSamplingFrequency : Z;
    mTxLoFrequencyParams : IntegerRange;
    mTxLoFrequency : Z;
    mTxHwGainDbParams : DoubleRange;
    mTxHwGainDb : Q;
    mTxNcoGainScale : Q;
    mInitialized : bool;
    mSignalData : SignalData;
    mFrameLength : Z;
    mFramesNr : Z }.

(** The constructor. *)
Definition new : AdiTrx :=
  {| mTxBuf := false; mTxBufIqPairsCount := 0;
     mTxBandwidthParams := {| min := 0; step := 0; max := 0 |};
     mTxBandwidth := 0;
     mTxSamplingFrequencyParams := {| min := 0; step := 0; max := 0 |};
     mTxSamplingFrequency := 0;
     mTxLoFrequencyParams := {| min := 0; step := 0; max := 0 |};
     mTxLoFrequency := 0;
     mTxHwGainDbParams := {| min := 0%Q; step := 0%Q; max := 0%Q |};
     mTxHwGainDb := 0; mTxNcoGainScale := 0; mInitialized := false;
     mSignalData := {| frameDataVec := []; maxVal := 0 |};
     mFrameLength := 0; mFramesNr := 0 |}.

Definition set_mTxBuf (v : bool) (t : AdiTrx) : AdiTrx :=
  {| mTxBuf := v; mTxBufIqPairsCount := mTxBufIqPairsCount t;
     mTxBandwidthParams := mTxBandwidthParams t;
     mTxBandwidth := mTxBandwidth t;
     mTxSamplingFrequencyParams := mTxSamplingFrequencyParams t;
     mTxSamplingFrequency := mTxSamplingFrequency t;
     mTxLoFrequencyParams := mTxLoFrequencyParams t;
     mTxLoFrequency := mTxLoFrequency t;
     mTxHwGainDbParams := mTxHwGainDbParams t;
     mTxHwGainDb := mTxHwGainDb t; mTxNcoGainScale := mTxNcoGainScale t;
     mInitialized := mInitialized t; mSignalData := mSignalData t;
     mFrameLength := mFrameLength t; mFramesNr := mFramesNr t |}.

Definition set_mTxBufIqPairsCount (v : Z) (t : AdiTrx) : AdiTrx :=
  {| mTxBuf := mTxBuf t; mTxBufIqPairsCount := v;
     mTxBandwidthParams := mTxBandwidthParams t;
     mTxBandwidth := mTxBandwidth t;
     mTxSamplingFrequencyParams := mTxSamplingFrequencyParams t;
     mTxSamplingFrequency := mTxSamplingFrequency t;
     mTxLoFrequencyParams := mTxLoFrequencyParams t;
     mTxLoFrequency := mTxLoFrequency t;
     mTxHwGainDbParams := mTxHwGainDbParams t;
     mTxHwGainDb := mTxHwGainDb t; mTxNcoGainScale := mTxNcoGainScale t;
     mInitialized := mInitialized t; mSignalData := mSignalData t;
     mFrameLength := mFrameLength t; mFramesNr := mFramesNr t |}.

Definition set_mTxBandwidthParams (v : IntegerRange) (t : AdiTrx) : AdiTrx :=
  {| mTxBuf := mTxBuf t; mTxBufIqPairsCount := mTxBufIqPairsCount t;
     mTxBandwidthParams := v;
     mTxBandwidth := mTxBandwidth t;
     mTxSamplingFrequencyParams := mTxSamplingFrequencyParams t;
     mTxSamplingFrequency := mTxSamplingFrequency t;
     mTxLoFrequencyParams := mTxLoFrequencyParams t;
     mTxLoFrequency := mTxLoFrequency t;
     mTxHwGainDbParams := mTxHwGainDbParams t;
     mTxHwGainDb := mTxHwGainDb t; mTxNcoGainScale := mTxNcoGainScale t;
     mInitialized := mInitialized t; mSignalData := mSignalData t;
     mFrameLength := mFrameLength t; mFramesNr := mFramesNr t |}.

Definition set_mTxSamplingFrequencyParams (v : IntegerRange) (t : AdiTrx)
  : AdiTrx :=
  {| mTxBuf := mTxBuf t; mTxBufIqPairsCount := mTxBufIqPairsCount t;
     mTxBandwidthParams := mTxBandwidthParams t;
     mTxBandwidth := mTxBandwidth t;
     mTxSamplingFrequencyParams := v;
     mTxSamplingFrequency := mTxSamplingFrequency t;
     mTxLoFrequencyParams := mTxLoFrequencyParams t;
     mTxLoFrequency := mTxLoFrequency t;
     mTxHwGainDbParams := mTxHwGainDbParams t;
     mTxHwGainDb := mTxHwGainDb t; mTxNcoGainScale := mTxNcoGainScale t;
     mInitialized := mInitialized t; mSignalData := mSignalData t;
     mFrameLength := mFrameLength t; mFramesNr := mFramesNr t |}.

Definition set_mTxLoFrequencyParams (v : IntegerRange) (t : AdiTrx)
  : AdiTrx :=
  {| mTxBuf := mTxBuf t; mTxBufIqPairsCount := mTxBufIqPairsCount t;
     mTxBandwidthParams := mTxBandwidthParams t;
     mTxBandwidth := mTxBandwidth t;
     mTxSamplingFrequencyParams := mTxSamplingFrequencyParams t;
     mTxSamplingFrequency := mTxSamplingFrequency t;
     mTxLoFrequencyParams := v;
     mTxLoFrequency := mTxLoFrequency t;
     mTxHwGainDbParams := mTxHwGainDbParams t;
     mTxHwGainDb := mTxHwGainDb t; mTxNcoGainScale := mTxNcoGainScale t;
     mInitialized := mInitialized t; mSignalData := mSignalData t;
     mFrameLength := mFrameLength t; mFramesNr := mFramesNr t |}.

Definition set_mTxHwGainDbParams (v : DoubleRange) (t : AdiTrx) : AdiTrx :=
  {| mTxBuf := mTxBuf t; mTxBufIqPairsCount := mTxBufIqPairsCount t;
     mTxBandwidthParams := mTxBandwidthParams t;
     mTxBandwidth := mTxBandwidth t;
     mTxSamplingFrequencyParams := mTxSamplingFrequencyParams t;
     mTxSamplingFrequency := mTxSamplingFrequency t;
     mTxLoFrequencyParams := mTxLoFrequencyParams t;
     mTxLoFrequency := mTxLoFrequency t;
     mTxHwGainDbParams := v;
     mTxHwGainDb := mTxHwGainDb t; mTxNcoGainScale := mTxNcoGainScale t;
     mInitialized := mInitialized t; mSignalData := mSignalData t;
     mFrameLength := mFrameLength t; mFramesNr := mFramesNr t |}.

Definition set_mTxBandwidth (v : Z) (t : AdiTrx) : AdiTrx :=
  {| mTxBuf := mTxBuf t; mTxBufIqPairsCount := mTxBufIqPairsCount t;
     mTxBandwidthParams := mTxBandwidthParams t;
     mTxBandwidth := v;
     mTxSamplingFrequencyParams := mTxSamplingFrequencyParams t;
     mTxSamplingFrequency := mTxSamplingFrequency t;
     mTxLoFrequencyParams := mTxLoFrequencyParams t;
     mTxLoFrequency := mTxLoFrequency t;
     mTxHwGainDbParams := mTxHwGainDbParams t;
     mTxHwGainDb := mTxHwGainDb t; mTxNcoGainScale := mTxNcoGainScale t;
     mInitialized := mInitialized t; mSignalData := mSignalData t;
     mFrameLength := mFrameLength t; mFramesNr := mFramesNr t |}.

Definition set_mTxSamplingFrequency (v : Z) (t : AdiTrx) : AdiTrx :=
  {| mTxBuf := mTxBuf t; mTxBufIqPairsCount := mTxBufIqPairsCount t;
     mTxBandwidthParams := mTxBandwidthParams t;
     mTxBandwidth := mTxBandwidth t;
     mTxSamplingFrequencyParams := mTxSamplingFrequencyParams t;
     mTxSamplingFrequency := v;
     mTxLoFrequencyParams := mTxLoFrequencyParams t;
     mTxLoFrequency := mTxLoFrequency t;
     mTxHwGainDbParams := mTxHwGainDbParams t;
     mTxHwGainDb := mTxHwGainDb t; mTxNcoGainScale := mTxNcoGainScale t;
     mInitialized := mInitialized t; mSignalData := mSignalData t;
     mFrameLength := mFrameLength t; mFramesNr := mFramesNr t |}.

Definition set_mTxLoFrequency (v : Z) (t : AdiTrx) : AdiTrx :=
  {| mTxBuf := mTxBuf t; mTxBufIqPairsCount := mTxBufIqPairsCount t;
     mTxBandwidthParams := mTxBandwidthParams t;
     mTxBandwidth := mTxBandwidth t;
     mTxSamplingFrequencyParams := mTxSamplingFrequencyParams t;
     mTxSamplingFrequency := mTxSamplingFrequency t;
     mTxLoFrequencyParams := mTxLoFrequencyParams t;
     mTxLoFrequency := v;
     mTxHwGainDbParams := mTxHwGainDbParams t;
     mTxHwGainDb := mTxHwGainDb t; mTxNcoGainScale := mTxNcoGainScale t;
     mInitialized := mInitialized t; mSignalData := mSignalData t;
     mFrameLength := mFrameLength t; mFramesNr := mFramesNr t |}.

Definition set_mTxHwGainDb (v : Q) (t : AdiTrx) : AdiTrx :=
  {| mTxBuf := mTxBuf t; mTxBufIqPairsCount := mTxBufIqPairsCount t;
     mTxBandwidthParams := mTxBandwidthParams t;
     mTxBandwidth := mTxBandwidth t;
     mTxSamplingFrequencyParams := mTxSamplingFrequencyParams t;
     mTxSamplingFrequency := mTxSamplingFrequency t;
     mTxLoFrequencyParams := mTxLoFrequencyParams t;
     mTxLoFrequency := mTxLoFrequency t;
     mTxHwGainDbParams := mTxHwGainDbParams t;
     mTxHwGainDb := v; mTxNcoGainScale := mTxNcoGainScale t;
     mInitialized := mInitialized t; mSignalData := mSignalData t;
     mFrameLength := mFrameLength t; mFramesNr := mFramesNr t |}.

Definition set_signal (sd : SignalData) (framesNr frameLength : Z)
    (t : AdiTrx) : AdiTrx :=
  {| mTxBuf := mTxBuf t; mTxBufIqPairsCount := mTxBufIqPairsCount t;
     mTxBandwidthParams := mTxBandwidthParams t;
     mTxBandwidth := mTxBandwidth t;
     mTxSamplingFrequencyParams := mTxSamplingFrequencyParams t;
     mTxSamplingFrequency := mTxSamplingFrequency t;
     mTxLoFrequencyParams := mTxLoFrequencyParams t;
     mTxLoFrequency := mTxLoFrequency t;
     mTxHwGainDbParams := mTxHwGainDbParams t;
     mTxHwGainDb := mTxHwGainDb t; mTxNcoGainScale := mTxNcoGainScale t;
     mInitialized := mInitialized t; mSignalData := sd;
     mFrameLength := frameLength; mFramesNr := framesNr |}.

(** *** The industrial-I/O library

    The calls through which the transceivers reach the hardware.  The
    library is a function that tells whether a call succeeds; the calls
    made are logged in order. *)

Inductive Channel : Set := TxPhyChan | TxLoChan | TxNcoChan.

Inductive IioCall : Type :=
| iio_channel_attr_write_longlong (chn : Channel) (attr : string) (val : Z)
| iio_channel_attr_write_double (chn : Channel) (attr : string) (val : Q)
| iio_buffer_destroy
| iio_device_create_buffer (samples_count : Z) (cyclic : bool)
| iio_buffer_push (samples : list (Z * Z)).

Definition Iio : Type := IioCall → bool.

Record World : Type := { trx : AdiTrx; log : list IioCall }.

(** How a member function ends: it returns, an [at] throws
    [std::out_of_range], or the behaviour is undefined. *)
Inductive Outcome (A : Type) : Type :=
| Returns (a : A)
| OutOfRange
| Undefined.
Arguments Returns {A} a.
Arguments OutOfRange {A}.
Arguments Undefined {A}.

(** Member functions: state passing over [World], with the outcome. *)
Definition M (A : Type) : Type := World → Outcome (A * World).

#[global] Instance M_ret : MRet M := fun A a w => Returns (a, w).

#[global] Instance M_bind : MBind M := fun A B f m w =>
  match m w with
  | Returns (a, w') => f a w'
  | OutOfRange => OutOfRange
  | Undefined => Undefined
  end.

Definition get : M AdiTrx := fun w => Returns (trx w, w).

Definition modify (f : AdiTrx → AdiTrx) : M unit :=
  fun w => Returns (tt, {| trx := f (trx w); log := log w |}).

Definition throw {A : Type} : M A := fun _ => OutOfRange.

Definition undefined {A : Type} : M A := fun _ => Undefined.

(** A library call: it is logged and its success is returned. *)
Definition call (iio : Iio) (c : IioCall) : M bool :=
  fun w => Returns (iio c, {| trx := trx w; log := log w ++ [c] |}).

(** [std::vector::at]. *)
Definition vector_at {A : Type} (v : list A) (n : Z) : M A :=
  match v !! Z.to_nat n with
  | Some x => mret x
  | None => throw
  end.

(** [AdiTrx::getSignalData].  [mFramesNr] and [mFrameLength] are
    [uint16_t]: the sizes are stored modulo [2 ^ 16]. *)
Definition getSignalData (aSignalData : SignalData) : M unit :=
  modify (fun t =>
            set_signal aSignalData
              (wrap16 (Z.of_nat (length (frameDataVec aSignalData))))
              (mFrameLength t) t);;
  frame0 ← vector_at (frameDataVec aSignalData) 0;
  modify (fun t =>
            set_signal (mSignalData t) (mFramesNr t)
              (wrap16 (Z.of_nat (length (frame0 : FrameData)))) t).

(** [AdiTrx::resetTxBuffer]. *)
Definition resetTxBuffer (iio : Iio) (aLength : Z) (aIsCyclic : bool)
  : M bool :=
  modify (set_mTxBufIqPairsCount aLength);;
  t ← get;
  (if mTxBuf t then
     call iio iio_buffer_destroy;; modify (set_mTxBuf false)
   else mret tt);;
  if aLength =? 0 then mret true
  else
    ok ← call iio (iio_device_create_buffer aLength aIsCyclic);
    modify (set_mTxBuf ok);;
    mret ok.

(** The conversion of a [double] to [int16_t]: the value is truncated; the
    behaviour is undefined when the truncated value is not an [int16_t]. *)
Definition cast_int16 (x : Q) : M Z :=
  let t := Ieee.truncate x in
  if (- 2 ^ 15 <=? t) && (t <=? 2 ^ 15 - 1) then mret t else undefined.

(** One component of a sample:
    [( static_cast<int16_t>( x * SCALE_RATIO ) ) << shift], stored in an
    [int16_t].  The product is a [double]; the shift is done on [int] and
    multiplies by [2 ^ shift], for a negative value too (as C++20 defines
    it and as the compilers of the earlier standards do it). *)
Definition convert (SCALE_RATIO : Q) (shift : Z) (x : Q) : M Z :=
  v ← cast_int16 (Ieee.to_double (x * SCALE_RATIO));
  mret (to_int16 (to_int (v * 2 ^ shift))).

(** The body of the loop over the slots of the buffer, for slot [i]. *)
Definition convertSlot (SCALE_RATIO : Q) (shift : Z) (i : Z) : M (Z * Z) :=
  t ← get;
  let crtFrame := wrap16 (i / mFrameLength t) in
  let crtPoint :=
    wrap16 (if crtFrame =? 0 then i else i mod mFrameLength t) in
  frame ← vector_at (frameDataVec (mSignalData t)) crtFrame;
  pt ← vector_at (frame : FrameData) crtPoint;
  out_i ← convert SCALE_RATIO shift (Dataset.i pt);
  out_q ← convert SCALE_RATIO shift (Dataset.q pt);
  mret (out_i, out_q).

Fixpoint convertSlots (SCALE_RATIO : Q) (shift : Z) (slots : list Z)
  : M (list (Z * Z)) :=
  match slots with
  | [] => mret []
  | i :: rest =>
      s ← convertSlot SCALE_RATIO shift i;
      ss ← convertSlots SCALE_RATIO shift rest;
      mret (s :: ss)
  end.

(** The body shared by the three [startTxStreaming]: they differ in the
    numerator of [SCALE_RATIO] and in the shift.  The product
    [mFrameLength * mFramesNr] is an [int]; a null buffer and a zero
    [maxVal] leave the model as undefined. *)
Definition startTxStreamingWith (iio : Iio) (numerator : Q) (shift : Z)
  : M unit :=
  t ← get;
  let n := mFrameLength t * mFramesNr t in
  if INT_MAX <? n then (undefined : M unit)
  else
    status ← resetTxBuffer iio n true;
    if (status : bool) then
      t1 ← get;
      if negb (mTxBuf t1) || Qeq_bool (maxVal (mSignalData t1)) 0
      then (undefined : M unit)
      else
        let SCALE_RATIO :=
          Ieee.to_double (numerator / maxVal (mSignalData t1)) in
        samples ← convertSlots SCALE_RATIO shift
                    (Z.of_nat <$> seq 0 (Z.to_nat (mTxBufIqPairsCount t1)));
        call iio (iio_buffer_push samples);;
        mret tt
    else mret tt.

(** The range test of the setters. *)
Definition in_range (r : IntegerRange) (v : Z) : bool :=
  (min r <=? v) && (v <=? max r).

Definition in_range_double (r : DoubleRange) (v : Q) : bool :=
  Qle_bool (min r) v && Qle_bool v (max r).

End AdiTrx.

(** ** AdiTrxAd9361.cpp *)

Module AdiTrxAd9361.

Import AdiTrx.

Definition setTxBandwidth (iio : Iio) (aBandwidth : Z) : M bool :=
  t ← get;
  if in_range (mTxBandwidthParams t) aBandwidth then
    ok ← call iio
           (iio_channel_attr_write_longlong TxPhyChan "rf_bandwidth"
              aBandwidth);
    if (ok : bool) then modify (set_mTxBandwidth aBandwidth);; mret true
    else mret false
  else mret false.

Definition setTxHwGain (iio : Iio) (aHwGainDb : Q) : M bool :=
  t ← get;
  if in_range_double (mTxHwGainDbParams t) aHwGainDb then
    ok ← call iio
           (iio_channel_attr_write_double TxPhyChan "hardwaregain"
              aHwGainDb);
    if (ok : bool) then modify (set_mTxHwGainDb aHwGainDb);; mret true
    else mret false
  else mret false.

Definition setTxLoFrequency (iio : Iio) (aFrequency : Z) : M bool :=
  t ← get;
  if in_range (mTxLoFrequencyParams t) aFrequency then
    ok ← call iio
           (iio_channel_attr_write_longlong TxLoChan "frequency" aFrequency);
    if (ok : bool) then modify (set_mTxLoFrequency aFrequency);; mret true
    else mret false
  else mret false.

Definition setTxNcoGainScale (iio : Iio) (aGainScale : Q) : M bool :=
  mret false.

Definition setTxSamplingFrequency (iio : Iio) (aFrequency : Z) : M bool :=
  t ← get;
  if in_range (mTxSamplingFrequencyParams t) aFrequency then
    ok ← call iio
           (iio_channel_attr_write_longlong TxPhyChan "sampling_frequency"
              aFrequency);
    if (ok : bool) then modify (set_mTxSamplingFrequency aFrequency);; mret true
    else mret false
  else mret false.

(** AD9361: 12-bit DAC. *)
Definition startTxStreaming (iio : Iio) : M unit :=
  startTxStreamingWith iio 2047 4.

End AdiTrxAd9361.

(** ** AdiTrxAdrv9009.cpp *)

Module AdiTrxAdrv9009.

Import AdiTrx.

Definition setTxBandwidth (iio : Iio) (aBandwidth : Z) : M bool :=
  mret false.

Definition setTxHwGain (iio : Iio) (aHwGainDb : Q) : M bool :=
  t ← get;
  if in_range_double (mTxHwGainDbParams t) aHwGainDb then
    ok ← call iio
           (iio_channel_attr_write_double TxPhyChan "hardwaregain"
              aHwGainDb);
    if (ok : bool) then modify (set_mTxHwGainDb aHwGainDb);; mret true
    else mret false
  else mret false.

Definition setTxLoFrequency (iio : Iio) (aFrequency : Z) : M bool :=
  t ← get;
  if in_range (mTxLoFrequencyParams t) aFrequency then
    ok ← call iio
           (iio_channel_attr_write_longlong TxLoChan "frequency" aFrequency);
    if (ok : bool) then modify (set_mTxLoFrequency aFrequency);; mret true
    else mret false
  else mret false.

Definition setTxNcoGainScale (iio : Iio) (aGainScale : Q) : M bool :=
  mret false.

Definition setTxSamplingFrequency (iio : Iio) (aFrequency : Z) : M bool :=
  mret false.

(** The four ranges are fixed in the source. *)
Definition getTxBandwidthParams : M bool :=
  modify (set_mTxBandwidthParams
            {| min := 100000000; step := 0; max := 100000000 |});;
  mret true.

Definition getTxHwGainParams : M bool :=
  modify (set_mTxHwGainDbParams
            {| min := (-30)%Q; step := Ieee.to_double (5 # 100); max := 0%Q |});;
  mret true.

Definition getTxLoFrequencyParams : M bool :=
  modify (set_mTxLoFrequencyParams
            {| min := 70000000; step := 1; max := 6000000000 |});;
  mret true.

Definition getTxSamplingFrequencyParams : M bool :=
  modify (set_mTxSamplingFrequencyParams
            {| min := 122880000; step := 0; max := 122880000 |});;
  mret true.

(** ADRV9009: 14-bit DAC. *)
Definition startTxStreaming (iio : Iio) : M unit :=
  startTxStreamingWith iio 8191 2.

End AdiTrxAdrv9009.

(** ** AdiTrxAd9081.cpp *)

Module AdiTrxAd9081.

Import AdiTrx.

Definition setTxBandwidth (iio : Iio) (aBandwidth : Z) : M bool :=
  mret false.

Definition setTxHwGain (iio : Iio) (aHwGainDb : Q) : M bool :=
  mret false.

Definition setTxLoFrequency (iio : Iio) (aFrequency : Z) : M bool :=
  t ← get;
  if in_range (mTxLoFrequencyParams t) aFrequency then
    ok ← call iio
           (iio_channel_attr_write_longlong TxNcoChan "main_nco_frequency"
              aFrequency);
    if (ok : bool) then modify (set_mTxLoFrequency aFrequency);; mret true
    else mret false
  else mret false.

(** The gain scale is written to the hardware; [mTxNcoGainScale] is not
    assigned here. *)
Definition setTxNcoGainScale (iio : Iio) (aGainScale : Q) : M bool :=
  if Qle_bool 0 aGainScale && Qle_bool aGainScale 1 then
    call iio
      (iio_channel_attr_write_double TxNcoChan "channel_nco_gain_scale"
         aGainScale)
  else mret false.

Definition setTxSamplingFrequency (iio : Iio) (aFrequency : Z) : M bool :=
  mret false.

(** AD9081: 16-bit DAC, no shift. *)
Definition startTxStreaming (iio : Iio) : M unit :=
  startTxStreamingWith iio 32767 0.

End AdiTrxAd9081.

(** ** RadioModTx.h, RadioModTx.cpp

    The window keeps the Dataset Store ([mMap] with the two vectors), the
    three parsers and the selection.  Of the widgets only the item data of
    the two combo boxes and the text of the status bar are kept; the calls
    into the transmit HAL do not touch any of these members. *)

Module RadioModTx.

Import Modulation Dataset DatasetParser.








End RadioModTx.

(** ** TxHal.h, TxHal.cpp

    The HAL forwards every operation to the transceiver object of the
    selected device; with no device selected nothing is done and the
    setters fail.  [World] is the selected object with the library log. *)

Module TxHal.

Import AdiTrx.

Inductive TxDevice : Set :=
| TX_DEVICE_UNKNOWN
| TX_DEVICE_AD9361
| TX_DEVICE_AD9081
| TX_DEVICE_ADRV9009.

Definition getData (mTxDevice : TxDevice)
    (aSignalData : Dataset.SignalData) : M unit :=
  match mTxDevice with
  | TX_DEVICE_UNKNOWN => mret tt
  | _ => getSignalData aSignalData
  end.

Definition setTxLoFrequency (mTxDevice : TxDevice) (iio : Iio)
    (aFrequency : Z) : M bool :=
  match mTxDevice with
  | TX_DEVICE_AD9361 => AdiTrxAd9361.setTxLoFrequency iio aFrequency
  | TX_DEVICE_AD9081 => AdiTrxAd9081.setTxLoFrequency iio aFrequency
  | TX_DEVICE_ADRV9009 => AdiTrxAdrv9009.setTxLoFrequency iio aFrequency
  | TX_DEVICE_UNKNOWN => mret false
  end.

Definition startStreaming (mTxDevice : TxDevice) (iio : Iio) : M unit :=
  match mTxDevice with
  | TX_DEVICE_AD9361 => AdiTrxAd9361.startTxStreaming iio
  | TX_DEVICE_AD9081 => AdiTrxAd9081.startTxStreaming iio
  | TX_DEVICE_ADRV9009 => AdiTrxAdrv9009.startTxStreaming iio
  | TX_DEVICE_UNKNOWN => mret tt
  end.

End TxHal.

(** ** The alias table, as the specification describes its verification *)

Module AliasSpec.

Import Modulation.

(** What the scan of a table checks, entry by entry. *)
Fixpoint scanned (tbl : AliasTable) : Prop :=
  match tbl with
  | [] => True
  | (n, l1) :: rest =>
      (n ≠ NAME_UNKNOWN →
       l1 ≠ []
       ∧ ∀ n2 l2, (n2, l2) ∈ rest → l2 ≠ [] ∧ ∀ s, s ∈ l2 → s ∉ l1)
      ∧ scanned rest
  end.

(** The aliases of every name other than [NAME_UNKNOWN] are there. *)
Definition aliases_present (tbl : AliasTable) : Prop :=
  ∀ n l, (n, l) ∈ tbl → n ≠ NAME_UNKNOWN → l ≠ [].

(** No string is an alias of two names other than [NAME_UNKNOWN]. *)
Definition aliases_injective (tbl : AliasTable) : Prop :=
  ∀ n1 l1 n2 l2 a,
    (n1, l1) ∈ tbl → (n2, l2) ∈ tbl → n1 ≠ n2 →
    n1 ≠ NAME_UNKNOWN → n2 ≠ NAME_UNKNOWN → a ∈ l1 → a ∉ l2.



End AliasSpec.

(** ** Complex tokens, as the specification describes their parsing *)

Module TokenSpec.

Import Dataset CsvParser.

(** [c] does not occur in [s] at an index from [n] on. *)
Fixpoint absent_from (n : nat) (c : ascii) (s : string) : bool :=
  match s with
  | EmptyString => true
  | String a s' =>
      match n with
      | O => negb (Ascii.eqb a c) && absent_from 0 c s'
      | S n' => absent_from n' c s'
      end
  end.




End TokenSpec.

(** ** The text-tabular loop in closed form *)

Module CsvClosedForm.
Import Modulation Dataset DatasetParser CsvParser.

(** The first line number whose SNR does not fit in [int]. *)
Definition MAX_LINES : Z := 13000 * 1073741834.

(** The modulations of [MODULATION_SERIES]. *)
Definition seriesNames : list ModulationName :=
  (fun c => default NAME_UNKNOWN (MODULATION_MAPPING_at c))
    <$> MODULATION_SERIES.

(** Block [b] holds the lines [500 * b .. 500 * b + 499]. *)
Definition codeOf (b : nat) : Z :=
  default 0 (MODULATION_SERIES !! (b mod 26)%nat).

Definition modOf (b : nat) : ModulationName :=
  default NAME_UNKNOWN (seriesNames !! (b mod 26)%nat).

Definition snrOf (b : nat) : Z := -20 + 2 * (Z.of_nat b / 26).

Definition keyOf (b : nat) : ModulationSnrPair := (modOf b, snrOf b).

Definition blockLines (lines : list string) (b : nat) : list string :=
  take 500 (drop (500 * b) lines).

Definition blockMax (ls : list string) : Q :=
  fold_left (fun m l => fold_left updateMaxVal (lineFrame l) m) ls 0%Q.

Definition blockSignal (ls : list string) : SignalData :=
  {| frameDataVec := lineFrame <$> ls; maxVal := blockMax ls |}.

Definition storeUpTo (lines : list string) (c : nat)
  : ModulationSnrSignalDataMap :=
  fold_left
    (fun m b => map_insert (keyOf b) (blockSignal (blockLines lines b)) m)
    (seq 0 c) ∅.

(** The state of the loop after [n] lines of [lines]. *)
Definition stateAfter (lines : list string) (n : nat) : LoopState :=
  match n with
  | O => loopInit
  | S m =>
      let b := (m / 500)%nat in
      {| crtLineNr := Z.of_nat n;
         oldSnrDb := snrOf b;
         oldModInt := codeOf b;
         modSnrPair := keyOf b;
         signalData := blockSignal (take (n - 500 * b) (drop (500 * b) lines));
         uniqueModVec := modOf <$> seq 0 (S b);
         uniqueSnrVec := snrOf <$> seq 0 (S b);
         map := storeUpTo lines (n / 500) |}
  end.

(** Every line decodes to a frame of [FRAME_LENGTH] points. *)
Definition well_formed (lines : list string) : Prop :=
  Forall (fun l => length (lineFrame l) = 1024%nat) lines.

(** Every sample of every line is zero. *)
Definition all_zero (lines : list string) : Prop :=
  Forall (fun l => Forall (fun p => (i p == 0)%Q ∧ (q p == 0)%Q)
                     (lineFrame l)) lines.

(** A line of 1024 tokens [0+0i], and the file of 260 000 such lines. *)
Definition zero_line : string :=
  "0+0i" +:+ String.concat "" (replicate 1023 ",0+0i"%string).

Definition zero_file : list string :=
  replicate (Z.to_nat 260000) zero_line.

(** A file system whose files all are the file of zeros. *)
Definition zero_fs : FileSystem := fun _ => Some zero_file.

End CsvClosedForm.

(** ** A window with a loaded store *)

Module StoreExamples.
Import Modulation Dataset DatasetParser RadioModTx.




End StoreExamples.

(** ** The slab of one modulation in the cube *)

Module Hdf5Slab.
Import Modulation Dataset DatasetParser Hdf5Parser.

(** The specification's slab arithmetic: [MOD_SLAB] rows for one modulation,
    each row holding 1024 points of two 4-byte floats. *)
Definition TOTAL_ROWS : Z := 2555904.
Definition MOD_SLAB : Z := TOTAL_ROWS / 24.
Definition SLAB_BYTES : Z := MOD_SLAB * 1024 * 2 * 4.

(** The dataset [X] of the RadioML 2018.01 container. *)
Definition cube : Hdf5Dataset :=
  {| mDataBuffer := false; mFilePath := "/X";
     mDimensionsVec := [2555904; 1024; 2];
     mDatatypeSize := 4; mDatatypeClass := H5T_FLOAT |}.

Definition cube_item : Hdf5ItemData :=
  {| mFileName := "GOLD_XYZ_OSC.0001_1024.hdf5"; mItemName := "X";
     mItemType := ITEM_TYPE_VARIABLE; mDataset := Some cube |}.

Definition qpsk_parser : DatasetParser :=
  setSingleModulation NAME_QPSK (DatasetParser.new).

(** A machine on which one slab can be allocated and nothing larger. *)
Definition slab_only_env : Hdf5Env :=
  {| malloc_ok := fun bytes => bytes <=? SLAB_BYTES;
     read_ok := fun _ => true;
     element := fun _ _ => 0%Q |}.

(** A machine with enough memory on which reading fails. *)
Definition unreadable_env : Hdf5Env :=
  {| malloc_ok := fun _ => true;
     read_ok := fun _ => false;
     element := fun _ _ => 0%Q |}.

Definition zero_env : Hdf5Env :=
  {| malloc_ok := fun _ => true;
     read_ok := fun _ => true;
     element := fun _ _ => 0%Q |}.

(** What the slab loop knows at the top of the round of frame [k] of the
    slab. *)
Definition slab_inv (k : Z) (st : SlabState) : Prop :=
  if k mod 4096 =? 0 then oldSnrDb st ≠ -20 + 2 * (k / 4096)
  else oldSnrDb st = -20 + 2 * (k / 4096)
       ∧ Z.of_nat (length (frameDataVec (signalData st))) = k mod 4096.

End Hdf5Slab.

(** ** The sample conversion, as the specification states it *)

Module StreamingSpec.
Import TxHal.

(** The width of the DAC of a variant, from the comments of the three
    [startTxStreaming]. *)
Definition dac_width (d : TxDevice) : Z :=
  match d with
  | TX_DEVICE_AD9361 => 12
  | TX_DEVICE_ADRV9009 => 14
  | _ => 16
  end.

(** [cast_i16 (x * SCALE) << S] with [SCALE = (2 ^ (W - 1) - 1) / maxAbs]
    and [S = 16 - W], in [double] arithmetic and without any wrap-around. *)
Definition converted (W : Z) (maxAbs x : Q) : Z :=
  Ieee.truncate
    (Ieee.to_double
       (x * Ieee.to_double (inject_Z (2 ^ (W - 1) - 1) / maxAbs)))
  * 2 ^ (16 - W).

Definition convertedPoint (W : Z) (maxAbs : Q) (p : Dataset.IQPoint)
  : Z * Z :=
  (converted W maxAbs (Dataset.i p), converted W maxAbs (Dataset.q p)).

Definition is_int16 (z : Z) : Prop := - 2 ^ 15 <= z <= 2 ^ 15 - 1.

(** A [SignalData] as the parsers build it: at least one frame, all frames
    of the length of the first, which is not 0; the sizes fit the
    [uint16_t] members and their product fits [int]; [maxVal] is a
    positive [float] and bounds every component. *)
Record loadable (sd : Dataset.SignalData) : Prop :=
  { frames_nonempty : Dataset.frameDataVec sd ≠ [];
    frames_uniform :
      ∀ frame0 rest,
        Dataset.frameDataVec sd = frame0 :: rest →
        frame0 ≠ [] ∧ Z.of_nat (length frame0) < 65536
        ∧ Forall (fun f => length f = length frame0)
            (Dataset.frameDataVec sd)
        ∧ Z.of_nat (length frame0)
          * Z.of_nat (length (Dataset.frameDataVec sd)) <= INT_MAX;
    frames_count : Z.of_nat (length (Dataset.frameDataVec sd)) < 65536;
    maxVal_positive : (0 < Dataset.maxVal sd)%Q;
    maxVal_float : (Dataset.maxVal sd <= inject_Z (2 ^ 128))%Q;
    maxVal_bounds :
      Forall
        (Forall (fun p =>
                   (Qabs (Dataset.i p) <= Dataset.maxVal sd)%Q
                   ∧ (Qabs (Dataset.q p) <= Dataset.maxVal sd)%Q))
        (Dataset.frameDataVec sd) }.

(** The signal of the specification's fourth scenario: one frame with the
    sample [(0.5, -1.0)], [maxAbs = 1]. *)
Definition half_scale_signal : Dataset.SignalData :=
  {| Dataset.frameDataVec :=
       [[{| Dataset.i := 1 # 2; Dataset.q := - (1) |}]];
     Dataset.maxVal := 1 |}.

End StreamingSpec.

(** ** What a validated setter does *)

Module SetterSpec.

Import AdiTrx.

(** A setter of an integer parameter that is validated against its cached
    range: what it returns and what it leaves behind. *)
Definition range_checked (setter : Iio → Z → M bool)
    (range : AdiTrx → IntegerRange) (cache : AdiTrx → Z)
    (write : Z → IioCall) : Prop :=
  ∀ (iio : Iio) (v : Z) (w : World),
    ∃ (b : bool) (w' : World),
      setter iio v w = Returns (b, w')
      ∧ (b = true ↔ in_range (range (trx w)) v = true ∧ iio (write v) = true)
      ∧ (in_range (range (trx w)) v = false → w' = w)
      ∧ (in_range (range (trx w)) v = true → log w' = log w ++ [write v])
      ∧ (b = false → cache (trx w') = cache (trx w))
      ∧ (b = true → cache (trx w') = v).

Definition range_checked_double (setter : Iio → Q → M bool)
    (range : AdiTrx → DoubleRange) (cache : AdiTrx → Q)
    (write : Q → IioCall) : Prop :=
  ∀ (iio : Iio) (v : Q) (w : World),
    ∃ (b : bool) (w' : World),
      setter iio v w = Returns (b, w')
      ∧ (b = true
         ↔ in_range_double (range (trx w)) v = true ∧ iio (write v) = true)
      ∧ (in_range_double (range (trx w)) v = false → w' = w)
      ∧ (in_range_double (range (trx w)) v = true →
         log w' = log w ++ [write v])
      ∧ (b = false → cache (trx w') = cache (trx w))
      ∧ (b = true → cache (trx w') = v).

(** A setter of a parameter that the variant does not support. *)
Definition unsupported {A : Type} (setter : Iio → A → M bool) : Prop :=
  ∀ (iio : Iio) (v : A) (w : World), setter iio v w = Returns (false, w).

(** The state of a transceiver whose LO range is the one of the ADRV9009,
    before any call was made. *)
Definition lo_world (cached : Z) : World :=
  {| trx := set_mTxLoFrequency cached
              (set_mTxLoFrequencyParams
                 {| min := 70000000; step := 1; max := 6000000000 |} new);
     log := [] |}.

End SetterSpec.

(** ** Modulation.cpp: families and types *)

Module ModulationKinds.

Import Modulation.

Inductive ModulationType : Set := TYPE_UNKNOWN | TYPE_ANALOG | TYPE_DIGITAL.

Inductive ModulationFamily : Set :=
| FAMILY_UNKNOWN
| FAMILY_AM | FAMILY_FM | FAMILY_PM
| FAMILY_APSK | FAMILY_ASK | FAMILY_FSK | FAMILY_PSK
| FAMILY_PAM | FAMILY_QAM.

#[global] Instance ModulationType_eq_dec : EqDecision ModulationType.
Proof. solve_decision. Defined.

#[global] Instance ModulationFamily_eq_dec : EqDecision ModulationFamily.
Proof. solve_decision. Defined.

(** [Modulation::getFamily]: the [switch] over the names. *)
Definition getFamily (aName : ModulationName) : ModulationFamily :=
  match aName with
  | NAME_AM_SSB | NAME_AM_SSB_WC | NAME_AM_SSB_SC
  | NAME_AM_DSB | NAME_AM_DSB_WC | NAME_AM_DSB_SC
  | NAME_AM_USB | NAME_AM_LSB => FAMILY_AM
  | NAME_FM | NAME_WBFM => FAMILY_FM
  | NAME_PM => FAMILY_PM
  | NAME_16APSK | NAME_32APSK | NAME_64APSK | NAME_128APSK => FAMILY_APSK
  | NAME_OOK | NAME_4ASK | NAME_8ASK => FAMILY_ASK
  | NAME_2FSK | NAME_4FSK | NAME_8FSK | NAME_16FSK
  | NAME_GFSK | NAME_CPFSK | NAME_GMSK => FAMILY_FSK
  | NAME_BPSK | NAME_QPSK | NAME_8PSK | NAME_16PSK | NAME_32PSK
  | NAME_64PSK | NAME_OQPSK => FAMILY_PSK
  | NAME_4PAM | NAME_8PAM | NAME_16PAM => FAMILY_PAM
  | NAME_4QAM | NAME_8QAM | NAME_16QAM | NAME_32QAM | NAME_64QAM
  | NAME_128QAM | NAME_256QAM => FAMILY_QAM
  | _ => FAMILY_UNKNOWN
  end.

(** [Modulation::getFamilyString]. *)
Definition getFamilyString (aName : ModulationName) : string :=
  match getFamily aName with
  | FAMILY_AM => "Amplitude Modulation"
  | FAMILY_FM => "Frequency Modulation"
  | FAMILY_PM => "Phase Modulation"
  | FAMILY_APSK => "Amplitude and Phase-Shift Keying"
  | FAMILY_ASK => "Amplitude-Shift Keying"
  | FAMILY_FSK => "Frequency-Shift Keying"
  | FAMILY_PSK => "Phase-Shift Keying"
  | FAMILY_PAM => "Pulse-Amplitude Modulation"
  | FAMILY_QAM => "Quadrature Amplitude Modulation"
  | _ => "Unknown"
  end.

(** [Modulation::getType]: two tests on the range of the enumerator. *)
Definition getType (aName : ModulationName) : ModulationType :=
  if (enum_value NAME_AM_SSB <=? enum_value aName)
     && (enum_value aName <=? enum_value NAME_PM)
  then TYPE_ANALOG
  else if (enum_value NAME_16APSK <=? enum_value aName)
          && (enum_value aName <=? enum_value NAME_256QAM)
  then TYPE_DIGITAL
  else TYPE_UNKNOWN.

(** [Modulation::getTypeString]. *)
Definition getTypeString (aName : ModulationName) : string :=
  match getType aName with
  | TYPE_ANALOG => "Analog"
  | TYPE_DIGITAL => "Digital"
  | _ => "Unknown"
  end.

End ModulationKinds.

(** ** The tokens of a line *)

Module TokenizerSpec.
Import TokenSpec.

(** A token that the line loop can give back: not empty and without a
    comma. *)
Definition plain_token (t : string) : Prop :=
  t ≠ EmptyString ∧ absent_from 0 "," t = true.

End TokenizerSpec.

(** ** The vectors of the HisarMod 2019.1 file *)

Module HisarModSpec.
Import Modulation.

(** The modulations of the HisarMod 2019.1 file, by ascending enumerator,
    and its SNRs. *)
Definition hisar_modulations : list ModulationName :=
  [ NAME_AM_DSB; NAME_AM_DSB_SC; NAME_AM_USB; NAME_AM_LSB; NAME_FM;
    NAME_PM; NAME_2FSK; NAME_4FSK; NAME_8FSK; NAME_16FSK; NAME_BPSK;
    NAME_QPSK; NAME_8PSK; NAME_16PSK; NAME_32PSK; NAME_64PSK; NAME_4PAM;
    NAME_8PAM; NAME_16PAM; NAME_4QAM; NAME_8QAM; NAME_16QAM; NAME_32QAM;
    NAME_64QAM; NAME_128QAM; NAME_256QAM ].

Definition snrs_upto (c : nat) : list Z :=
  (fun k : nat => -20 + 2 * Z.of_nat k) <$> seq 0 c.

Definition hisar_snrs : list Z := snrs_upto 20.

(** [m] is the largest magnitude of the components of the frames, or 0
    when there is none. *)
Definition is_max_magnitude (m : Q) (frames : list Dataset.FrameData)
  : Prop :=
  (∀ frame p, frame ∈ frames → p ∈ frame →
     (Qabs (Dataset.i p) <= m)%Q ∧ (Qabs (Dataset.q p) <= m)%Q)
  ∧ (m = 0%Q
     ∨ ∃ frame p, frame ∈ frames ∧ p ∈ frame
                  ∧ (m = Qabs (Dataset.i p) ∨ m = Qabs (Dataset.q p))).

End HisarModSpec.

(** ** A file with one series *)

Module StreamExamples.
Import Dataset DatasetParser CsvParser CsvClosedForm.




End StreamExamples.

(** ** AdiTrx variants and TxHal: stopping the streaming *)

Module TxStop.
Import AdiTrx TxHal.

(** [stopTxStreaming], the same text in [AdiTrxAd9361], [AdiTrxAdrv9009]
    and [AdiTrxAd9081]: a cyclic buffer of 1024 samples is asked for and,
    when it is there, filled with zeros and pushed.  A null buffer behind a
    true status leaves the model as undefined. *)
Definition stopTxStreaming (iio : Iio) : M unit :=
  status ← resetTxBuffer iio 1024 true;
  if (status : bool) then
    t ← get;
    if negb (mTxBuf t) then (undefined : M unit)
    else
      call iio
        (iio_buffer_push
           (replicate (Z.to_nat (mTxBufIqPairsCount t)) (0, 0)));;
      mret tt
  else mret tt.

(** [TxHal::stopStreaming]. *)
Definition stopStreaming (mTxDevice : TxDevice) (iio : Iio) : M unit :=
  match mTxDevice with
  | TX_DEVICE_UNKNOWN => mret tt
  | _ => stopTxStreaming iio
  end.

End TxStop.

(** ** The buffer of the library and the pointer of the object *)

Module BufferSpec.
Import AdiTrx.

(** The buffers that the calls of a log have created and not destroyed,
    under the library [iio] that answered them. *)
Definition buffer_delta (iio : Iio) (c : IioCall) : Z :=
  match c with
  | iio_device_create_buffer _ _ => if iio c then 1 else 0
  | iio_buffer_destroy => -1
  | _ => 0
  end.

Definition live_buffers (iio : Iio) (l : list IioCall) : Z :=
  foldr (fun c acc => buffer_delta iio c + acc) 0 l.

(** The object holds a buffer exactly when one is alive. *)
Definition buffer_consistent (iio : Iio) (w : World) : Prop :=
  live_buffers iio (log w) = if mTxBuf (trx w) then 1 else 0.

(** The transceiver after [getSignalData] of the half-scale signal, and
    after the AD9361 has streamed it. *)
Definition loaded_world : World :=
  {| trx := set_signal StreamingSpec.half_scale_signal 1 1 new; log := [] |}.

Definition streamed_world : World :=
  {| trx := set_mTxBuf true (set_mTxBufIqPairsCount 1 (trx loaded_world));
     log := [iio_device_create_buffer 1 true;
             iio_buffer_push [(16368, -32752)]] |}.

End BufferSpec.

(** ** The slab loop in closed form *)

Module Hdf5ClosedForm.
Import Modulation Dataset DatasetParser Hdf5Parser.

(** The frames of one modulation in the cube: 26 SNRs of 4096 frames. *)
Definition SLAB_FRAMES : Z := 26 * 4096.

(** Frame [k] of the slab that starts at element [start]. *)
Definition slabFrame (fltBuf : Z → Q) (start : Z) (k : Z) : FrameData :=
  slabPoints fltBuf (start + 2048 * k).

Definition framesMax (frames : list FrameData) : Q :=
  fold_left (fun mx frame => fold_left updateMaxVal frame mx) frames 0%Q.

(** The first [count] frames of the [j]-th SNR of the slab, and the signal
    made of them. *)
Definition snrFrames (fltBuf : Z → Q) (start : Z) (j count : Z)
  : list FrameData :=
  (fun t : Z => slabFrame fltBuf start (4096 * j + t)) <$> seqZ 0 count.

Definition snrSignal (fltBuf : Z → Q) (start : Z) (j count : Z)
  : SignalData :=
  {| frameDataVec := snrFrames fltBuf start j count;
     maxVal := framesMax (snrFrames fltBuf start j count) |}.

Definition slabSnr (j : Z) : Z := -20 + 2 * j.

(** The map after the first [c] SNRs of the slab. *)
Definition slabStore (m : ModulationName) (fltBuf : Z → Q) (start : Z)
    (base : ModulationSnrSignalDataMap) (c : Z)
  : ModulationSnrSignalDataMap :=
  fold_left
    (fun mp j => map_insert (m, slabSnr j) (snrSignal fltBuf start j 4096) mp)
    (seqZ 0 c) base.

(** The state of the slab loop after [k] frames. *)
Definition slabAfter (p1 : DatasetParser) (m : ModulationName)
    (fltBuf : Z → Q) (start : Z) (k : Z) : SlabState :=
  if k <=? 0 then slabInit p1
  else
    let j := (k - 1) / 4096 in
    {| oldSnrDb := slabSnr j;
       modSnrPair := (m, slabSnr j);
       signalData := snrSignal fltBuf start j ((k - 1) mod 4096 + 1);
       frameData := slabFrame fltBuf start (k - 1);
       uniqueSnrVec := mUniqueSnrVec p1 ++ (slabSnr <$> seqZ 0 (j + 1));
       map := slabStore m fltBuf start (mMap p1) (k / 4096) |}.

(** A file whose root group holds the three datasets of RadioML 2018.01. *)
Definition labels (rows cols : Z) (path : string) : Hdf5Dataset :=
  {| mDataBuffer := false; mFilePath := path;
     mDimensionsVec := [rows; cols];
     mDatatypeSize := 8; mDatatypeClass := H5T_INTEGER |}.

Definition radioml_file : H5File :=
  {| visit_ok := true;
     root_datasets := [ ("X"%string, Hdf5Slab.cube);
                        ("Y"%string, labels 2555904 24 "/Y");
                        ("Z"%string, labels 2555904 1 "/Z") ] |}.

Definition radioml_fs : H5FileSystem := fun _ => Some radioml_file.

End Hdf5ClosedForm.

(** ** AdiTrx.cpp: the readers of the attribute strings *)

Module AdiTrxExtract.
Import AdiTrx.

Definition LLONG_MAX : Z := 2 ^ 63 - 1.
Definition LLONG_MIN : Z := - 2 ^ 63.

(** How a reader ends: it returns its status and the value it leaves in the
    out-parameter, [std::stoll] throws, or the behaviour is undefined.
    [Unmodelled] stands for a string of [2 ^ 31] characters or more, whose
    positions do not fit the [int] variables [start] and [end]. *)
Inductive Extraction (A : Type) : Type :=
| Extracted (status : bool) (value : A)
| InvalidArgument
| OutOfRangeError
| UndefinedBehaviour
| Unmodelled.
Arguments Extracted {A} status value.
Arguments InvalidArgument {A}.
Arguments OutOfRangeError {A}.
Arguments UndefinedBehaviour {A}.
Arguments Unmodelled {A}.

(** [std::string::find_first_not_of( c, pos )]; [None] is [npos]. *)
Fixpoint find_first_not_of (c : ascii) (s : string) (pos : nat)
  : option nat :=
  match s with
  | EmptyString => None
  | String a s' =>
      match pos with
      | O => if Ascii.eqb a c then S <$> find_first_not_of c s' 0
             else Some 0%nat
      | S pos' => S <$> find_first_not_of c s' pos'
      end
  end.

(** The loop
    [while( ( start = aString.find_first_not_of( ' ', end ) ) != npos )]
    that the four readers share.  When [find] gives [npos], [end] is -1:
    [substr] takes the rest of the string and the next search, from [npos],
    ends the loop. *)
Fixpoint splitFrom (fuel : nat) (aString : string) (end_ : nat)
  : list string :=
  match fuel with
  | O => []
  | S fuel' =>
      match find_first_not_of " " aString end_ with
      | None => []
      | Some start =>
          match String.index start " " aString with
          | Some e =>
              String.substring start (e - start) aString
                :: splitFrom fuel' aString e
          | None =>
              [String.substring start (String.length aString - start)
                 aString]
          end
      end
  end.

(** The vector [vec] of the readers. *)
Definition split (aString : string) : option (list string) :=
  if INT_MAX <? Z.of_nat (String.length aString) then None
  else Some (splitFrom (S (String.length aString)) aString 0).

(** The test on the brackets and the [substr] that removes them. *)
Definition strip (aString : string) : string :=
  match String.get 0 aString,
        String.get (String.length aString - 1) aString with
  | Some "["%char, Some "]"%char =>
      String.substring 1 (String.length aString - 2) aString
  | _, _ => aString
  end.

(** [std::stoll] in base 10: white space, an optional sign, digits. *)
Inductive Stoll : Type :=
| StollValue (v : Z)
| StollInvalidArgument
| StollOutOfRange.

Definition stoll (s : string) : Stoll :=
  let '(neg, s1) := Ieee.read_sign (Ieee.skip_spaces s) in
  let '(v, cnt, _) := Ieee.read_digits s1 0 0 in
  if cnt =? 0 then StollInvalidArgument
  else
    let z := if neg then - v else v in
    if (z <? LLONG_MIN) || (LLONG_MAX <? z) then StollOutOfRange
    else StollValue z.

(** [AdiTrx::extractDouble]. *)
Definition extractDouble (aString : string) (aIndex : nat)
  : Extraction Q :=
  if (0 <? String.length aString)%nat then
    match split aString with
    | None => Unmodelled
    | Some vec =>
        match vec !! aIndex with
        | Some t => Extracted true (Ieee.atof t)
        | None => Extracted false 0%Q
        end
    end
  else Extracted false 0%Q.

(** [AdiTrx::extractDoubleLimit]. *)
Definition extractDoubleLimit (aString : string) : Extraction Q :=
  if (2 <? String.length aString)%nat then
    match split (strip aString) with
    | None => Unmodelled
    | Some [t] => Extracted true (Ieee.atof t)
    | Some _ => Extracted false 0%Q
    end
  else Extracted false 0%Q.

(** [AdiTrx::extractInteger]: the [double] of [atof] is converted to
    [int64_t], which is undefined when the truncated value does not fit. *)
Definition extractInteger (aString : string) (aIndex : nat)
  : Extraction Z :=
  if (0 <? String.length aString)%nat then
    match split aString with
    | None => Unmodelled
    | Some vec =>
        match vec !! aIndex with
        | Some t =>
            let v := Ieee.truncate (Ieee.atof t) in
            if (v <? LLONG_MIN) || (LLONG_MAX <? v) then UndefinedBehaviour
            else Extracted true v
        | None => Extracted false 0
        end
    end
  else Extracted false 0.

Definition stoll_then {A : Type} (s : string) (k : Z → Extraction A)
  : Extraction A :=
  match stoll s with
  | StollValue v => k v
  | StollInvalidArgument => InvalidArgument
  | StollOutOfRange => OutOfRangeError
  end.

(** [AdiTrx::extractIntegerRange].  [aRange.max - aRange.min] is computed
    only when [min < max]; it is undefined when it does not fit
    [int64_t]. *)
Definition extractIntegerRange (aString : string)
  : Extraction IntegerRange :=
  let zero := {| min := 0; step := 0; max := 0 |} in
  if (2 <? String.length aString)%nat then
    match split (strip aString) with
    | None => Unmodelled
    | Some [t0; t1; t2] =>
        stoll_then t0 (fun a =>
        stoll_then t1 (fun b =>
        stoll_then t2 (fun c =>
          let r := {| min := a; step := b; max := c |} in
          if a <? c then
            if LLONG_MAX <? c - a then UndefinedBehaviour
            else Extracted (b <? c - a) r
          else Extracted false r)))
    | Some _ => Extracted false zero
    end
  else Extracted false zero.

(** [iio_channel_attr_read] into the 256 bytes of a getter: the value it
    returns and the text of the [std::string] made from the buffer. *)
Definition IioRead : Type := Channel → string → Z * string.

(** The text that the getters of the ranges share: the attribute is read
    and, when more than two bytes came, taken apart into the range that
    [store] keeps. *)
Definition getRangeParams (read : IioRead) (chn : Channel) (attr : string)
    (store : IntegerRange → AdiTrx → AdiTrx) (t : AdiTrx)
  : Extraction AdiTrx :=
  let '(ret, rawStr) := read chn attr in
  if 2 <? ret then
    match extractIntegerRange rawStr with
    | Extracted status r => Extracted status (store r t)
    | InvalidArgument => InvalidArgument
    | OutOfRangeError => OutOfRangeError
    | UndefinedBehaviour => UndefinedBehaviour
    | Unmodelled => Unmodelled
    end
  else Extracted false t.

End AdiTrxExtract.

Module AdiTrxAd9361Getters.
Import AdiTrx AdiTrxExtract.

Definition getTxBandwidthParams (read : IioRead) : AdiTrx → Extraction AdiTrx :=
  getRangeParams read TxPhyChan "rf_bandwidth_available"
    set_mTxBandwidthParams.

Definition getTxLoFrequencyParams (read : IioRead)
  : AdiTrx → Extraction AdiTrx :=
  getRangeParams read TxLoChan "frequency_available"
    set_mTxLoFrequencyParams.

Definition getTxSamplingFrequencyParams (read : IioRead)
  : AdiTrx → Extraction AdiTrx :=
  getRangeParams read TxPhyChan "sampling_frequency_available"
    set_mTxSamplingFrequencyParams.

End AdiTrxAd9361Getters.

Module AdiTrxAd9081Getters.
Import AdiTrx AdiTrxExtract.

Definition getTxLoFrequencyParams (read : IioRead)
  : AdiTrx → Extraction AdiTrx :=
  getRangeParams read TxNcoChan "main_nco_frequency_available"
    set_mTxLoFrequencyParams.

End AdiTrxAd9081Getters.

(** ** The strings that the readers take apart *)

Module ExtractSpec.
Import TokenSpec.

Fixpoint spaces (n : nat) : string :=
  match n with
  | O => EmptyString
  | S n' => String " " (spaces n')
  end.

(** A word: not empty and without a space. *)
Definition word (t : string) : Prop :=
  t ≠ EmptyString ∧ absent_from 0 " " t = true.

(** Words, each after at least one space, and the spaces at the end. *)
Fixpoint spaced (l : list (nat * string)) (trail : nat) : string :=
  match l with
  | [] => spaces trail
  | (n, t) :: l' => String " " (spaces n) +:+ (t +:+ spaced l' trail)
  end.

(** The decimal numeral of an integer. *)
Definition numeral (z : Z) : string :=
  DecimalString.NilZero.string_of_int (Z.to_int z).

End ExtractSpec.

(** ** RadioModTx.cpp: the slots of the selection and of the streaming *)

Module RadioModTxSlots.
Import Modulation Dataset DatasetParser RadioModTx AdiTrx TxHal TxStop.

(** [itemData( aIndex )] of a combo box; there is no data when no item has
    the index, and [value<int>()] is then 0. *)
Definition itemData {A : Type} (items : list A) (aIndex : Z) : option A :=
  if aIndex <? 0 then None else items !! Z.to_nat aIndex.






(** [RadioModTx::handleStopTxStreaming]. *)
Definition handleStopTxStreaming (mIsInitialized : bool) (d : TxDevice)
    (iio : Iio) : M unit :=
  if mIsInitialized then stopStreaming d iio else mret tt.

End RadioModTxSlots.

(** * Theorems *)

(** ** Modulation: the alias table and its verification *)

Section ModulationFacts.
Import Modulation AliasSpec.

(** C8: every modulation name has an entry in the alias table; for every
    name other than [NAME_UNKNOWN] the entry is not empty and its first
    string is what [getModulationString] returns; and looking any alias of
    a name up with [getModulationName] gives back exactly that name. *)
Theorem C8_alias_table_round_trip (n : ModulationName) :
  ∃ strVec : list string,
    map_at MODULATION_NAME_ALIAS n = Some strVec
    ∧ (n ≠ NAME_UNKNOWN →
       ∃ canonical rest,
         strVec = canonical :: rest
         ∧ getModulationString n = Some canonical)
    ∧ (∀ a : string, a ∈ strVec → getModulationName a = n).
Proof.
  destruct n;
    (eexists; split; [reflexivity |]; split;
     [ intros _; do 2 eexists; split; reflexivity
     | intros a Ha;
       repeat (apply elem_of_cons in Ha as [-> | Ha]; [reflexivity |]);
       by apply elem_of_nil in Ha ]).
Qed.

Lemma scanStrOne_status l1 s st :
  fst (scanStrOne l1 s st) = true ↔ fst st = true ∧ s ∉ l1.
Proof.
  unfold scanStrOne.
  destruct (List.find _ l1) as [x|] eqn:E.
  - apply List.find_some in E as [Hin Heq].
    apply String.eqb_eq in Heq. subst x. simpl.
    split; [done | intros [_ H]; exfalso; apply H; by apply list_elem_of_In].
  - split; [| tauto]. intros H; split; [done |].
    intros Hin. apply list_elem_of_In in Hin.
    pose proof (List.find_none _ _ E _ Hin) as Hn. simpl in Hn.
    by rewrite String.eqb_refl in Hn.
Qed.


Lemma scanStrTwo_status l1 l2 st :
  fst (scanStrTwo l1 l2 st) = true ↔ fst st = true ∧ ∀ s, s ∈ l2 → s ∉ l1.
Proof.
  unfold scanStrTwo. revert st.
  induction l2 as [| s l2 IH]; intros st; simpl.
  - split; [intros H; split; [done | intros s Hs; by apply elem_of_nil in Hs] | tauto].
  - rewrite IH, scanStrOne_status. split.
    + intros [[H1 H2] H3]. split; [done |].
      intros s' Hs'. apply elem_of_cons in Hs' as [-> | Hs']; auto.
    + intros [H1 H2]. split; [split; [done |] |].
      * apply (H2 s). apply elem_of_cons. by left.
      * intros s' Hs'. apply (H2 s'). apply elem_of_cons. by right.
Qed.


Lemma scanMapTwo_status l1 rest st :
  fst (scanMapTwo l1 rest st) = true ↔
  fst st = true
  ∧ ∀ n2 l2, (n2, l2) ∈ rest → l2 ≠ [] ∧ ∀ s, s ∈ l2 → s ∉ l1.
Proof.
  revert st. induction rest as [| [n2 l2] rest IH]; intros st; simpl.
  - split; [intros H; split; [done | intros ? ? Hs; by apply elem_of_nil in Hs] | tauto].
  - destruct l2 as [| s l2].
    + simpl. split; [done |]. intros [_ H].
      destruct (H n2 []) as [Hne _]; [apply elem_of_cons; by left | done].
    + rewrite IH, scanStrTwo_status. split.
      * intros [[H1 H2] H3]. split; [done |].
        intros n' l' Hin. apply elem_of_cons in Hin as [[= -> ->] | Hin].
        -- split; [done | exact H2].
        -- by apply (H3 n').
      * intros [H1 H2]. split; [split; [done |] |].
        -- apply (H2 n2 (s :: l2)). apply elem_of_cons. by left.
        -- intros n' l' Hin. apply (H2 n' l'). apply elem_of_cons. by right.
Qed.


Lemma is_unknown_spec n : is_unknown n = true ↔ n = NAME_UNKNOWN.
Proof. destruct n; simpl; split; congruence. Qed.

Lemma scanMapOne_status tbl st :
  fst (scanMapOne tbl st) = true ↔ fst st = true ∧ scanned tbl.
Proof.
  revert st. induction tbl as [| [n l1] rest IH]; intros st; simpl.
  - tauto.
  - destruct (is_unknown n) eqn:E.
    + apply is_unknown_spec in E. rewrite IH. tauto.
    + assert (n ≠ NAME_UNKNOWN) as Hn
        by (intros H; apply is_unknown_spec in H; congruence).
      destruct l1 as [| s l1].
      * simpl. split; [done |]. intros [_ [H _]]. by destruct (H Hn).
      * rewrite IH, scanMapTwo_status. split.
        -- intros [[H1 H2] H3]. split; [done |]. split; [| done].
           intros _. split; [done | exact H2].
        -- intros [H1 [H2 H3]]. destruct (H2 Hn) as [_ H4]. tauto.
Qed.


Lemma map_ordered_cons n l rest :
  map_ordered ((n, l) :: rest) = true →
  (∀ n2 l2, (n2, l2) ∈ rest → enum_value n < enum_value n2)
  ∧ map_ordered rest = true.
Proof.
  simpl. intros H. apply andb_true_iff in H as [H1 H2]. split; [| done].
  intros n2 l2 Hin. rewrite forallb_forall in H1.
  apply list_elem_of_In in Hin. apply H1 in Hin. simpl in Hin. lia.
Qed.


Lemma enum_value_nonneg n : 0 <= enum_value n.
Proof. destruct n; simpl; lia. Qed.

Lemma enum_value_unknown n : 0 < enum_value n → n ≠ NAME_UNKNOWN.
Proof. intros H ->. simpl in H. lia. Qed.

Lemma scanned_spec tbl :
  map_ordered tbl = true →
  scanned tbl ↔ aliases_present tbl ∧ aliases_injective tbl.
Proof.
  unfold aliases_present, aliases_injective.
  induction tbl as [| [n l] rest IH]; intros Hord.
  - simpl. split; [| done]. intros _.
    split; intros; exfalso; eapply elem_of_nil; eauto.
  - apply map_ordered_cons in Hord as [Hlt Hord]. specialize (IH Hord).
    simpl. rewrite IH. clear IH. split.
    + intros [Hhead [Hp Hi]]. split.
      * intros n' l' Hin Hn'.
        apply elem_of_cons in Hin as [[= -> ->] | Hin]; [| by eapply Hp].
        by destruct (Hhead Hn').
      * intros n1 l1 n2 l2 a H1 H2 Hne Hn1 Hn2 Ha1 Ha2.
        apply elem_of_cons in H1 as [[= -> ->] | H1];
          apply elem_of_cons in H2 as [[= -> ->] | H2].
        -- done.
        -- destruct (Hhead Hn1) as [_ H]. destruct (H _ _ H2) as [_ H'].
           by apply (H' a).
        -- destruct (Hhead Hn2) as [_ H]. destruct (H _ _ H1) as [_ H'].
           by apply (H' a).
        -- by apply (Hi n1 l1 n2 l2 a).
    + intros [Hp Hi]. split; [| split].
      * intros Hn. split; [apply (Hp n); [apply elem_of_cons; by left | done] |].
        intros n2 l2 Hin.
        assert (n2 ≠ NAME_UNKNOWN) as Hn2.
        { apply enum_value_unknown. pose proof (Hlt _ _ Hin).
          pose proof (enum_value_nonneg n). lia. }
        split; [apply (Hp n2); [apply elem_of_cons; by right | done] |].
        intros s Hs Hs'.
        apply (Hi n l n2 l2 s); try done.
        -- apply elem_of_cons; by left.
        -- apply elem_of_cons; by right.
        -- intros ->. pose proof (Hlt _ _ Hin). lia.
      * intros n' l' Hin. apply Hp. apply elem_of_cons; by right.
      * intros n1 l1 n2 l2 a H1 H2. apply Hi; apply elem_of_cons; by right.
Qed.



End ModulationFacts.

(** ** CsvParser: the token parser *)

Section TokenFacts.
Import Dataset CsvParser TokenSpec.

Lemma absent_from_head (a c : ascii) (s : string) :
  absent_from 0 c (String a s) = true → c ≠ a ∧ absent_from 0 c s = true.
Proof.
  simpl. intros H. apply andb_true_iff in H as [H1 H2].
  apply negb_true_iff, Ascii.eqb_neq in H1. split; [congruence | exact H2].
Qed.

Lemma index_char_append (c : ascii) (R : string) :
  ∀ (I : string) (n : nat),
    absent_from n c I = true → (n ≤ String.length I)%nat →
    String.index n (String c EmptyString) (I +:+ String c R)
    = Some (String.length I).
Proof.
  induction I as [| a I IH]; intros n Habs Hn.
  - simpl in Hn. assert (n = 0%nat) as -> by lia. simpl.
    destruct (ascii_dec c c); [by destruct R | done].
  - change (String a I +:+ String c R) with (String a (I +:+ String c R)).
    destruct n as [| n].
    + apply absent_from_head in Habs as [Hac Habs].
      cbn [String.index String.prefix].
      destruct (ascii_dec c a) as [-> | _]; [done |].
      rewrite (IH 0%nat); [reflexivity | exact Habs | lia].
    + cbn [String.index].
      rewrite (IH n); [reflexivity | exact Habs | simpl in Hn; lia].
Qed.

Lemma index_char_absent (c : ascii) :
  ∀ (s : string) (n : nat),
    absent_from n c s = true → String.index n (String c EmptyString) s = None.
Proof.
  induction s as [| a s IH]; intros n Habs.
  - destruct n; reflexivity.
  - destruct n as [| n].
    + apply absent_from_head in Habs as [Hac Habs].
      cbn [String.index String.prefix].
      destruct (ascii_dec c a) as [-> | _]; [done |].
      by rewrite (IH 0%nat).
    + cbn [String.index]. by rewrite (IH n).
Qed.

Lemma substring_prefix (I R : string) :
  String.substring 0 (String.length I) (I +:+ R) = I.
Proof.
  induction I as [| a I IH]; simpl.
  - destruct R; reflexivity.
  - by rewrite IH.
Qed.

Lemma substring_skip (I R : string) (m : nat) :
  String.substring (String.length I) m (I +:+ R) = String.substring 0 m R.
Proof. induction I as [| a I IH]; simpl; [reflexivity | exact IH]. Qed.

Lemma length_append (s1 s2 : string) :
  String.length (s1 +:+ s2) = (String.length s1 + String.length s2)%nat.
Proof. induction s1 as [| a s1 IH]; simpl; [reflexivity | by rewrite IH]. Qed.




End TokenFacts.

(** ** CsvParser: the line loop *)

Section CsvFacts.
Import Modulation Dataset DatasetParser CsvParser CsvClosedForm.

Lemma lineSnrDb_closed (n : nat) :
  Z.of_nat n < MAX_LINES → lineSnrDb (Z.of_nat n) = snrOf (n / 500).
Proof.
  unfold MAX_LINES, lineSnrDb, snrOf, to_int, wrap64, NR_LINES_PER_SNR.
  simpl FRAMES_PER_MOD_SNR_NR. simpl MODULATIONS_NR.
  change (2 ^ 64) with 18446744073709551616.
  change (2 ^ 32) with 4294967296. change (2 ^ 31) with 2147483648.
  intros H. lia.
Qed.

Lemma series_index_closed (n : nat) :
  Z.to_nat (lineSeriesIndex (Z.of_nat n)) = ((n / 500) mod 26)%nat.
Proof.
  unfold lineSeriesIndex, NR_LINES_PER_SNR.
  simpl FRAMES_PER_MOD_SNR_NR. simpl MODULATIONS_NR. lia.
Qed.

Lemma series_lookup (b : nat) :
  MODULATION_SERIES !! (b mod 26)%nat = Some (codeOf b).
Proof.
  unfold codeOf.
  destruct (lookup_lt_is_Some_2 MODULATION_SERIES (b mod 26)%nat) as [c ->];
    [simpl; lia | reflexivity].
Qed.

Lemma lineModInt_closed (n : nat) :
  lineModInt (Z.of_nat n) = Some (codeOf (n / 500)).
Proof. unfold lineModInt. rewrite series_index_closed. apply series_lookup. Qed.

Lemma series_mapped :
  Forall (fun c => is_Some (MODULATION_MAPPING_at c)) MODULATION_SERIES.
Proof. by apply (bool_decide_unpack _); vm_compute. Qed.

Lemma mapping_closed (b : nat) :
  MODULATION_MAPPING_at (codeOf b) = Some (modOf b).
Proof.
  pose proof (series_lookup b) as Hc.
  unfold modOf, seriesNames. rewrite list_lookup_fmap, Hc. simpl.
  pose proof series_mapped as H. rewrite Forall_forall in H.
  destruct (H (codeOf b)) as [m ->]; [| reflexivity].
  by eapply list_elem_of_lookup_2.
Qed.

Lemma series_NoDup : NoDup MODULATION_SERIES.
Proof. by apply (bool_decide_unpack _); vm_compute. Qed.

Lemma seriesNames_NoDup : NoDup seriesNames.
Proof. by apply (bool_decide_unpack _); vm_compute. Qed.

Lemma code_inj (b1 b2 : nat) :
  snrOf b1 = snrOf b2 → codeOf b1 = codeOf b2 → b1 = b2.
Proof.
  intros Hs Hc.
  assert ((b1 mod 26)%nat = (b2 mod 26)%nat) as Hm.
  { eapply NoDup_lookup; [apply series_NoDup | apply series_lookup |].
    rewrite Hc. apply series_lookup. }
  unfold snrOf in Hs. lia.
Qed.

Lemma key_inj (b1 b2 : nat) : keyOf b1 = keyOf b2 → b1 = b2.
Proof.
  unfold keyOf. intros [= Hm Hs].
  assert ((b1 mod 26)%nat = (b2 mod 26)%nat) as Hr.
  { assert (∀ b, seriesNames !! (b mod 26)%nat = Some (modOf b)) as Hl.
    { intros b. unfold modOf.
      destruct (lookup_lt_is_Some_2 seriesNames (b mod 26)%nat) as [c ->];
        [simpl; lia | reflexivity]. }
    eapply NoDup_lookup; [apply seriesNames_NoDup | apply Hl |].
    rewrite Hm. apply Hl. }
  unfold snrOf in Hs. lia.
Qed.

Lemma blockMax_snoc ls l :
  blockMax (ls ++ [l]) = fold_left updateMaxVal (lineFrame l) (blockMax ls).
Proof. unfold blockMax. by rewrite fold_left_app. Qed.

Lemma blockSignal_snoc ls l :
  blockSignal (ls ++ [l])
  = {| frameDataVec := frameDataVec (blockSignal ls) ++ [lineFrame l];
       maxVal := fold_left updateMaxVal (lineFrame l)
                   (maxVal (blockSignal ls)) |}.
Proof. unfold blockSignal. simpl. by rewrite fmap_app, blockMax_snoc. Qed.

Lemma storeUpTo_S lines c :
  storeUpTo lines (S c)
  = map_insert (keyOf c) (blockSignal (blockLines lines c))
      (storeUpTo lines c).
Proof. unfold storeUpTo. by rewrite seq_S, fold_left_app. Qed.

Lemma take_drop_snoc {A} (l : list A) (d k : nat) (x : A) :
  l !! (d + k)%nat = Some x →
  take (S k) (drop d l) = take k (drop d l) ++ [x].
Proof.
  intros H. apply take_S_r. by rewrite lookup_drop.
Qed.

(** One round of the loop on a well-formed line. *)
Lemma lineRound_closed (lines : list string) (n : nat) (l : string) :
  lines !! n = Some l →
  length (lineFrame l) = 1024%nat →
  Z.of_nat n < MAX_LINES →
  lineRound (stateAfter lines n) l = Next (stateAfter lines (S n)).
Proof.
  intros Hl Hwf Hmax.
  assert (n < length lines)%nat as Hlen by (by eapply lookup_lt_Some).
  unfold lineRound.
  assert (crtLineNr (stateAfter lines n) = Z.of_nat n) as ->
    by (destruct n; reflexivity).
  rewrite lineSnrDb_closed, lineModInt_closed, mapping_closed by done.
  rewrite Hwf. simpl FRAME_LENGTH. simpl FRAMES_PER_MOD_SNR_NR.
  change (1024 =? Z.of_nat 1024) with true. cbn [negb].
  assert (wrap64 (Z.of_nat n + 1) = Z.of_nat (S n)) as ->.
  { unfold wrap64. rewrite Z.mod_small; [lia |].
    unfold MAX_LINES in Hmax. change (2 ^ 64) with 18446744073709551616.
    lia. }
  set (b2 := (n / 500)%nat).
  destruct n as [| m].
  - (* the first line *)
    simpl stateAfter. unfold loopInit. cbn [oldSnrDb oldModInt uniqueModVec
      uniqueSnrVec modSnrPair signalData map crtLineNr].
    assert (b2 = 0%nat) as Hb by (subst b2; reflexivity).
    rewrite Hb.
    change (snrOf 0 =? -100) with false. cbn [negb orb andb].
    change (Z.of_nat 0 =? 0) with true. cbn [negb andb].
    unfold stateAfter.
    change (0 / 500)%nat with 0%nat. change (1 / 500)%nat with 0%nat.
    change (1 - 500 * 0)%nat with 1%nat. change (500 * 0)%nat with 0%nat.
    rewrite drop_0.
    destruct lines as [| l0 lines']; [done |].
    simpl in Hl. injection Hl as ->.
    reflexivity.
  - (* a later line *)
    set (b := (m / 500)%nat).
    assert (stateAfter lines (S m)
            = {| crtLineNr := Z.of_nat (S m); oldSnrDb := snrOf b;
                 oldModInt := codeOf b; modSnrPair := keyOf b;
                 signalData :=
                   blockSignal (take (S m - 500 * b) (drop (500 * b) lines));
                 uniqueModVec := modOf <$> seq 0 (S b);
                 uniqueSnrVec := snrOf <$> seq 0 (S b);
                 map := storeUpTo lines (S m / 500) |}) as -> by reflexivity.
    cbn [oldSnrDb oldModInt uniqueModVec uniqueSnrVec modSnrPair
         signalData map crtLineNr].
    assert ((Z.of_nat (S m) =? 0) = false) as -> by (apply Z.eqb_neq; lia).
    cbn [negb andb].
    assert (stateAfter lines (S (S m))
            = {| crtLineNr := Z.of_nat (S (S m)); oldSnrDb := snrOf b2;
                 oldModInt := codeOf b2; modSnrPair := keyOf b2;
                 signalData :=
                   blockSignal
                     (take (S (S m) - 500 * b2) (drop (500 * b2) lines));
                 uniqueModVec := modOf <$> seq 0 (S b2);
                 uniqueSnrVec := snrOf <$> seq 0 (S b2);
                 map := storeUpTo lines (S (S m) / 500) |}) as ->
      by reflexivity.
    destruct (decide (b2 = b)) as [Hsame | Hnew].
    + (* the line continues block [b] *)
      rewrite Hsame.
      rewrite !Z.eqb_refl. cbn [negb orb].
      assert (take (S (S m) - 500 * b) (drop (500 * b) lines)
              = take (S m - 500 * b) (drop (500 * b) lines) ++ [l]) as Htake.
      { replace (S (S m) - 500 * b)%nat with (S (S m - 500 * b))
          by (subst b b2; lia).
        apply take_drop_snoc.
        replace (500 * b + (S m - 500 * b))%nat with (S m)
          by (subst b b2; lia).
        done. }
      rewrite Htake, blockSignal_snoc.
      set (sd := blockSignal (take (S m - 500 * b) (drop (500 * b) lines))).
      cbn [frameDataVec maxVal].
      destruct (Z.of_nat (S (S m)) mod 500 =? 0) eqn:Hfull;
        [apply Z.eqb_eq in Hfull | apply Z.eqb_neq in Hfull].
      * assert (length (frameDataVec sd ++ [lineFrame l]) = 500%nat) as Hfr.
        { rewrite length_app. subst sd. unfold blockSignal.
          cbn [frameDataVec]. rewrite length_fmap, length_take, length_drop.
          simpl length. subst b b2. lia. }
        rewrite Hfr. change (500 =? Z.of_nat 500) with true.
        cbn [negb andb].
        assert (S (S m) / 500 = S (S m / 500))%nat as -> by (subst b b2; lia).
        rewrite storeUpTo_S.
        assert (S m / 500 = b)%nat as Hb by (subst b b2; lia).
        rewrite Hb.
        assert (blockLines lines b
                = take (S m - 500 * b) (drop (500 * b) lines) ++ [l]) as Hbl.
        { unfold blockLines. rewrite <- Htake. f_equal. subst b b2. lia. }
        rewrite Hbl, blockSignal_snoc. reflexivity.
      * cbn [andb].
        assert (S (S m) / 500 = S m / 500)%nat as -> by (subst b b2; lia).
        reflexivity.
    + (* the line opens block [b2 = b + 1] *)
      assert (b2 = S b) as Hb2 by (subst b b2; lia).
      assert ((negb (snrOf b2 =? snrOf b) || negb (codeOf b2 =? codeOf b))
              = true) as ->.
      { destruct (snrOf b2 =? snrOf b) eqn:E1; [| reflexivity].
        destruct (codeOf b2 =? codeOf b) eqn:E2; [| reflexivity].
        exfalso. apply Hnew. apply Z.eqb_eq in E1, E2. by apply code_inj. }
      cbn [frameDataVec maxVal app].
      assert ((Z.of_nat (S (S m)) mod 500 =? 0) = false) as ->
        by (apply Z.eqb_neq; subst b b2; lia).
      cbn [andb].
      assert (S (S m) / 500 = S m / 500)%nat as -> by (subst b b2; lia).
      assert (take (S (S m) - 500 * b2) (drop (500 * b2) lines) = [l])
        as ->.
      { replace (S (S m) - 500 * b2)%nat with 1%nat by (subst b b2; lia).
        replace (500 * b2)%nat with (S m) by (subst b b2; lia).
        erewrite drop_S by done. reflexivity. }
      rewrite <- Hb2. rewrite (seq_S b2), !fmap_app. reflexivity.
Qed.

Lemma parseLines_closed (lines : list string) :
  well_formed lines →
  Z.of_nat (length lines) <= MAX_LINES →
  parseLines lines loopInit
  = Some (stateAfter lines (length lines), false).
Proof.
  intros Hwf Hmax.
  assert (∀ (k n : nat),
            (n + k = length lines)%nat →
            parseLines (drop n lines) (stateAfter lines n)
            = Some (stateAfter lines (length lines), false)) as H.
  { induction k as [| k IH]; intros n Hn.
    - rewrite drop_ge by lia. simpl. do 3 f_equal. lia.
    - destruct (lookup_lt_is_Some_2 lines n) as [l Hl]; [lia |].
      erewrite drop_S by done. simpl.
      rewrite (lineRound_closed lines n l Hl).
      + apply IH. lia.
      + unfold well_formed in Hwf. rewrite Forall_forall in Hwf.
        apply Hwf. by eapply list_elem_of_lookup_2.
      + lia. }
  apply (H (length lines) 0%nat). lia.
Qed.

Lemma storeUpTo_lookup_None lines (c : nat) :
  ∀ k : ModulationSnrPair,
    (∀ b : nat, (b < c)%nat → keyOf b ≠ k) → storeUpTo lines c !! k = None.
Proof.
  induction c as [| c IH]; intros k H; [reflexivity |].
  rewrite storeUpTo_S. unfold map_insert.
  rewrite (IH (keyOf c)).
  - rewrite lookup_insert_ne; [| apply H; lia].
    apply IH. intros b Hb. apply H. lia.
  - intros b Hb E. apply key_inj in E. lia.
Qed.

Lemma storeUpTo_fresh lines (c : nat) : storeUpTo lines c !! keyOf c = None.
Proof.
  apply storeUpTo_lookup_None. intros b Hb E. apply key_inj in E. lia.
Qed.

Lemma storeUpTo_lookup lines (c b : nat) :
  (b < c)%nat →
  storeUpTo lines c !! keyOf b = Some (blockSignal (blockLines lines b)).
Proof.
  induction c as [| c IH]; intros Hb; [lia |].
  rewrite storeUpTo_S. unfold map_insert. rewrite storeUpTo_fresh.
  destruct (decide (b = c)) as [-> | Hne].
  - apply lookup_insert_eq.
  - rewrite lookup_insert_ne; [apply IH; lia |].
    intros E. apply key_inj in E. lia.
Qed.

Lemma storeUpTo_size lines (c : nat) : size (storeUpTo lines c) = c.
Proof.
  induction c as [| c IH]; [reflexivity |].
  rewrite storeUpTo_S. unfold map_insert. rewrite storeUpTo_fresh.
  rewrite map_size_insert_None by apply storeUpTo_fresh. by rewrite IH.
Qed.


Lemma stateAfter_map lines (n : nat) :
  map (stateAfter lines n) = storeUpTo lines (n / 500).
Proof. destruct n; reflexivity. Qed.

Lemma lineModName_closed (n : nat) :
  lineModName (Z.of_nat n) = Some (modOf (n / 500)).
Proof.
  unfold lineModName. rewrite lineModInt_closed. simpl.
  apply mapping_closed.
Qed.

(** C5: for every 0-based line number below [MAX_LINES] the loop computes
    the SNR [-20 + 2 * (line_nr / 13000)] and the modulation
    [MODULATION_MAPPING[MODULATION_SERIES[(line_nr mod 13000) / 500]]],
    both lookups being defined.  On a file of well-formed lines the loop
    ends without a failure, the map holds one signal for every completed
    block of 500 lines, and the signal of block [b] is stored under the
    modulation and the SNR of the block's first line and consists of
    exactly the 500 frames of the block's lines. *)
Theorem C5_line_number_decides_combination :
  (∀ line_nr : Z,
     0 <= line_nr < MAX_LINES →
     lineSnrDb line_nr = -20 + 2 * (line_nr / 13000)
     ∧ ∃ code : Z,
         MODULATION_SERIES !! Z.to_nat ((line_nr mod 13000) / 500)
         = Some code
         ∧ lineModInt line_nr = Some code
         ∧ lineModName line_nr = MODULATION_MAPPING_at code
         ∧ is_Some (MODULATION_MAPPING_at code))
  ∧ (∀ lines : list string,
       well_formed lines →
       Z.of_nat (length lines) <= MAX_LINES →
       ∃ st : LoopState,
         parseLines lines loopInit = Some (st, false)
         ∧ size (map st) = (length lines / 500)%nat
         ∧ ∀ b : nat,
             (500 * (b + 1) ≤ length lines)%nat →
             ∃ (modName : ModulationName) (sd : SignalData),
               lineModName (Z.of_nat (500 * b)) = Some modName
               ∧ map st !! (modName, lineSnrDb (Z.of_nat (500 * b)))
                 = Some sd
               ∧ frameDataVec sd
                 = lineFrame <$> take 500 (drop (500 * b) lines)
               ∧ length (frameDataVec sd) = 500%nat).
Proof.
  split.
  - intros line_nr [H0 Hmax].
    rewrite <- (Z2Nat.id line_nr) in Hmax |- * by done.
    set (n := Z.to_nat line_nr) in *.
    split.
    + rewrite lineSnrDb_closed by done. unfold snrOf. lia.
    + exists (codeOf (n / 500)).
      pose proof (lineModInt_closed n) as Hc.
      split; [exact Hc |]. split; [exact Hc |].
      split.
      * unfold lineModName. by rewrite Hc.
      * rewrite mapping_closed. by eexists.
  - intros lines Hwf Hmax.
    exists (stateAfter lines (length lines)).
    split; [by apply parseLines_closed |].
    rewrite stateAfter_map.
    split; [apply storeUpTo_size |].
    intros b Hb.
    exists (modOf b), (blockSignal (blockLines lines b)).
    assert (500 * b / 500 = b)%nat as Hdiv by lia.
    split; [by rewrite lineModName_closed, Hdiv |].
    split.
    + rewrite lineSnrDb_closed by lia. rewrite Hdiv.
      apply (storeUpTo_lookup lines (length lines / 500) b). lia.
    + split; [reflexivity |].
      unfold blockSignal, blockLines. cbn [frameDataVec].
      rewrite length_fmap, length_take, length_drop. lia.
Qed.







Lemma zero_line_frame :
  lineFrame zero_line = replicate 1024 {| i := 0; q := 0 |}.
Proof. vm_compute. reflexivity. Qed.

Lemma zero_file_well_formed : well_formed zero_file ∧ all_zero zero_file.
Proof.
  unfold well_formed, all_zero, zero_file.
  split; apply Forall_replicate; rewrite zero_line_frame.
  - reflexivity.
  - apply Forall_replicate. split; reflexivity.
Qed.

Lemma zero_file_length : Z.of_nat (length zero_file) = 260000.
Proof. unfold zero_file. rewrite length_replicate. lia. Qed.



Lemma C5_line_number_decides_combination_witness :
  lineSnrDb 13499 = -20 + 2 * (13499 / 13000)
  ∧ ∃ code : Z,
      MODULATION_SERIES !! Z.to_nat ((13499 mod 13000) / 500) = Some code
      ∧ lineModInt 13499 = Some code
      ∧ lineModName 13499 = MODULATION_MAPPING_at code
      ∧ is_Some (MODULATION_MAPPING_at code).
Proof.
  refine (proj1 C5_line_number_decides_combination 13499 _).
  unfold MAX_LINES. lia.
Defined.
End CsvFacts.

(** ** RadioModTx: the Dataset Store and the completion notification *)

Section StoreFacts.
Import Modulation Dataset DatasetParser CsvParser CsvClosedForm RadioModTx.
Import StoreExamples.







End StoreFacts.

(** ** Hdf5Parser: the load of dataset X *)

Section Hdf5Facts.
Import Modulation Dataset DatasetParser Hdf5Parser Hdf5Slab.

Lemma X_shape_dims (ds : Hdf5Dataset) :
  X_shape_bad ds = false → mDimensionsVec ds = [2555904; 1024; 2].
Proof.
  unfold X_shape_bad.
  destruct (mDimensionsVec ds) as [| d0 [| d1 [| d2 [| ? ?]]]]; try done.
  intros H. apply orb_false_iff in H as [H H2].
  apply orb_false_iff in H as [H0 H1].
  apply negb_false_iff, Z.eqb_eq in H0, H1, H2.
  by rewrite H0, H1, H2.
Qed.

Lemma modOffset_range (m : ModulationName) : 0 <= modOffset m <= 23.
Proof. destruct m; vm_compute; split; discriminate. Qed.

Lemma slabPoints_length (f : Z → Q) (i : Z) :
  Z.of_nat (length (slabPoints f i)) = 1024.
Proof.
  unfold slabPoints. rewrite length_fmap, length_seq.
  change (FRAME_LENGTH DATASET_SOURCE_RADIOML_2018_01) with 1024. lia.
Qed.

Lemma slabPoints_ext (f g : Z → Q) (i : Z) :
  (∀ j, i <= j < i + NR_ELEMENTS_PER_FRAME → f j = g j) →
  slabPoints f i = slabPoints g i.
Proof.
  intros H. unfold slabPoints. apply list_fmap_ext.
  intros n k Hk. apply lookup_seq in Hk as [-> Hlt].
  change (FRAME_LENGTH DATASET_SOURCE_RADIOML_2018_01) with 1024 in Hlt.
  change NR_ELEMENTS_PER_FRAME with 2048 in H.
  rewrite !H by lia. reflexivity.
Qed.

Lemma slabRound_ext (ds : Hdf5Dataset) (m : ModulationName) (f g : Z → Q)
    (i : Z) (st : SlabState) :
  slabPoints f i = slabPoints g i →
  slabRound ds m f i st = slabRound ds m g i st.
Proof. intros H. unfold slabRound. rewrite H. reflexivity. Qed.

Lemma slabRound_next (ds : Hdf5Dataset) (m : ModulationName) (f : Z → Q)
    (i i' : Z) (st st' : SlabState) :
  slabRound ds m f i st = SlabNext i' st' → i' = i + NR_ELEMENTS_PER_FRAME.
Proof.
  unfold slabRound.
  destruct (_ || _ || _); [discriminate |]. cbv zeta.
  destruct (negb (_ =? _)); [discriminate |].
  destruct (_ && negb _); [discriminate |].
  intros H.
  apply (f_equal (fun r => match r with SlabNext j _ => j | _ => 0 end)) in H.
  cbv beta iota in H. lia.
Qed.

(** The loop reads [fltBuf] between [i] and [STOP_ELEMENT] only, when the
    distance is a whole number of frames. *)
Lemma slabLoop_ext (ds : Hdf5Dataset) (m : ModulationName) (f g : Z → Q)
    (fuel : nat) :
  ∀ (i : Z) (st : SlabState),
    (STOP_ELEMENT ds m - i) mod NR_ELEMENTS_PER_FRAME = 0 →
    (∀ j, i <= j < STOP_ELEMENT ds m → f j = g j) →
    slabLoop fuel ds m f i st = slabLoop fuel ds m g i st.
Proof.
  induction fuel as [| fuel IH]; intros i st Hal Hfg; simpl.
  - reflexivity.
  - destruct (STOP_ELEMENT ds m <=? i) eqn:Hstop; [reflexivity |].
    apply Z.leb_gt in Hstop.
    change NR_ELEMENTS_PER_FRAME with 2048 in *.
    assert (slabPoints f i = slabPoints g i) as Hp.
    { apply slabPoints_ext. intros j Hj. apply Hfg.
      change NR_ELEMENTS_PER_FRAME with 2048 in *. lia. }
    rewrite (slabRound_ext ds m f g i st Hp).
    destruct (slabRound ds m g i st) as [i' st' | |] eqn:Hr; try reflexivity.
    apply slabRound_next in Hr as ->.
    change NR_ELEMENTS_PER_FRAME with 2048.
    apply IH.
    + replace (STOP_ELEMENT ds m - (i + 2048))
        with (STOP_ELEMENT ds m - i - 1 * 2048) by lia.
      lia.
    + intros j Hj. apply Hfg. lia.
Qed.

Section Cube.
Variable ds : Hdf5Dataset.
Variable m : ModulationName.
Hypothesis Hshape : X_shape_bad ds = false.

Lemma cube_elements : nrOfElements (mDimensionsVec ds) = 5234491392.
Proof. rewrite (X_shape_dims ds Hshape). reflexivity. Qed.

Lemma cube_per_mod : NR_ELEMENTS_PER_MOD ds = 218103808.
Proof. unfold NR_ELEMENTS_PER_MOD. rewrite cube_elements. reflexivity. Qed.

Lemma cube_per_mod_snr : NR_ELEMENTS_PER_MOD_SNR ds = 8388608.
Proof. unfold NR_ELEMENTS_PER_MOD_SNR. rewrite cube_per_mod. reflexivity. Qed.

Lemma cube_start : START_ELEMENT ds m = modOffset m * 218103808.
Proof.
  unfold START_ELEMENT, wrap64. rewrite cube_per_mod.
  pose proof (modOffset_range m). apply Z.mod_small.
  change (2 ^ 64) with 18446744073709551616. lia.
Qed.

Lemma cube_stop : STOP_ELEMENT ds m = (modOffset m + 1) * 218103808.
Proof.
  unfold STOP_ELEMENT, wrap64. rewrite cube_start, cube_per_mod.
  pose proof (modOffset_range m).
  rewrite Z.mod_small; [lia |].
  change (2 ^ 64) with 18446744073709551616. lia.
Qed.

Lemma cube_snr (k : Z) :
  0 <= k < 106496 →
  slabSnrDb ds (START_ELEMENT ds m + 2048 * k) = -20 + 2 * (k / 4096).
Proof.
  intros Hk. unfold slabSnrDb. rewrite cube_start, cube_per_mod, cube_per_mod_snr.
  pose proof (modOffset_range m).
  assert ((modOffset m * 218103808 + 2048 * k) mod 218103808 = 2048 * k) as ->.
  { rewrite Z.add_comm, Z.mod_add by lia. apply Z.mod_small. lia. }
  assert (2048 * k / 8388608 = k / 4096) as -> by lia.
  unfold wrap64, to_int.
  change (2 ^ 64) with 18446744073709551616.
  change (2 ^ 32) with 4294967296. change (2 ^ 31) with 2147483648.
  assert (0 <= k / 4096 < 26) by lia.
  lia.
Qed.

Hypothesis Hsize : mDatatypeSize ds = 4.

Lemma cube_bytes : TOTAL_BYTES ds = 20937965568.
Proof. unfold TOTAL_BYTES. rewrite cube_elements, Hsize. reflexivity. Qed.

Lemma cube_round (f : Z → Q) (k : Z) (st : SlabState) :
  0 <= k < 106496 → slab_inv k st →
  ∃ st', slabRound ds m f (START_ELEMENT ds m + 2048 * k) st
         = SlabNext (START_ELEMENT ds m + 2048 * (k + 1)) st'
         ∧ slab_inv (k + 1) st'.
Proof.
  intros Hk Hinv. unfold slabRound.
  rewrite (cube_snr k Hk), cube_per_mod, cube_per_mod_snr, cube_bytes.
  rewrite cube_start.
  pose proof (modOffset_range m) as Hoff.
  set (i := modOffset m * 218103808 + 2048 * k).
  change NR_ELEMENTS_PER_FRAME with 2048.
  change (FRAME_LENGTH DATASET_SOURCE_RADIOML_2018_01) with 1024.
  change (FRAMES_PER_MOD_SNR_NR DATASET_SOURCE_RADIOML_2018_01) with 4096.
  assert ((20937965568 <? 4 * (i + 2048)) = false) as ->
    by (apply Z.ltb_ge; lia).
  change (218103808 =? 0) with false. change (8388608 =? 0) with false.
  cbn [orb].
  assert ((i mod 2048 =? 0) = true) as -> by (apply Z.eqb_eq; lia).
  rewrite app_nil_l.
  assert ((1024 =? Z.of_nat (length (slabPoints f i))) = true) as ->
    by (rewrite slabPoints_length; reflexivity).
  cbn [negb].
  assert ((i + 2048 - 2 =? 0) = false) as -> by (apply Z.eqb_neq; lia).
  cbn [negb andb]. replace (i + 2048 - 2 + 2) with (i + 2048) by lia.
  assert ((i + 2048) mod 8388608 = 2048 * ((k + 1) mod 4096)) as Hfull by lia.
  unfold slab_inv in Hinv.
  cbn [frameDataVec maxVal].
  destruct (k mod 4096 =? 0) eqn:Hk0.
  - apply Z.eqb_eq in Hk0.
    assert ((-20 + 2 * (k / 4096) =? oldSnrDb st) = false) as ->
      by (apply Z.eqb_neq; lia).
    cbn [negb frameDataVec maxVal app length].
    assert (((i + 2048) mod 8388608 =? 0) = false) as ->
      by (apply Z.eqb_neq; lia).
    cbn [andb]. eexists. split.
    + f_equal. unfold i. lia.
    + unfold slab_inv. cbn [oldSnrDb signalData frameDataVec length].
      assert (((k + 1) mod 4096 =? 0) = false) as ->
        by (apply Z.eqb_neq; lia).
      split; lia.
  - apply Z.eqb_neq in Hk0. destruct Hinv as [Hold Hlen].
    assert ((-20 + 2 * (k / 4096) =? oldSnrDb st) = true) as ->
      by (apply Z.eqb_eq; lia).
    cbn [negb].
    destruct ((i + 2048) mod 8388608 =? 0) eqn:Hf.
    + apply Z.eqb_eq in Hf. cbn [andb].
      assert ((4096 =? Z.of_nat
                 (length (frameDataVec (signalData st)
                          ++ [slabPoints f i]))) = true) as ->.
      { apply Z.eqb_eq. rewrite length_app. simpl length. lia. }
      cbn [negb]. eexists. split.
      * f_equal. unfold i. lia.
      * unfold slab_inv. cbn [oldSnrDb].
        assert (((k + 1) mod 4096 =? 0) = true) as ->
          by (apply Z.eqb_eq; lia).
        lia.
    + apply Z.eqb_neq in Hf. cbn [andb]. eexists. split.
      * f_equal. unfold i. lia.
      * unfold slab_inv. cbn [oldSnrDb signalData frameDataVec].
        assert (((k + 1) mod 4096 =? 0) = false) as ->
          by (apply Z.eqb_neq; lia).
        rewrite length_app. simpl length. split; lia.
Qed.

Lemma cube_loop (f : Z → Q) (n : nat) :
  ∀ (fuel : nat) (k : Z) (st : SlabState),
    (n <= fuel)%nat → 0 <= k → k + Z.of_nat n = 106496 → slab_inv k st →
    ∃ st', slabLoop fuel ds m f (START_ELEMENT ds m + 2048 * k) st
           = Some (st', true).
Proof.
  induction n as [| n IH]; intros fuel k st Hfuel Hk Hn Hinv.
  - exists st. destruct fuel; simpl; rewrite cube_stop, cube_start;
      (assert (((modOffset m + 1) * 218103808
                <=? modOffset m * 218103808 + 2048 * k) = true) as ->
         by (apply Z.leb_le; lia)); reflexivity.
  - destruct fuel as [| fuel]; [lia |]. simpl.
    assert ((STOP_ELEMENT ds m <=? START_ELEMENT ds m + 2048 * k) = false)
      as -> by (rewrite cube_stop, cube_start; apply Z.leb_gt; lia).
    destruct (cube_round f k st ltac:(lia) Hinv) as (st1 & -> & Hinv1).
    apply IH; [lia | lia | lia | exact Hinv1].
Qed.

End Cube.

(** The run of [loadTreeItem] on a dataset of the shape of [X]. *)
Lemma loadTreeItem_cube (env : Hdf5Env) (p : DatasetParser)
    (item : Hdf5ItemData) (ds : Hdf5Dataset) :
  mItemType item = ITEM_TYPE_VARIABLE →
  mDataset item = Some ds →
  mDataBuffer ds = false →
  mDatatypeClass ds = H5T_FLOAT →
  X_shape_bad ds = false →
  mDatatypeSize ds = 4 →
  malloc_ok env (TOTAL_BYTES ds) = true →
  read_ok env (mFilePath ds) = true →
  ∃ r : LoadResult,
    loadTreeItem env p item = Some r
    ∧ status r = true
    ∧ calls r = [Malloc 20937965568;
                 H5Dread (mFilePath ds) H5S_ALL H5S_ALL; Free]
    ∧ ∀ env' : Hdf5Env,
        malloc_ok env' (TOTAL_BYTES ds) = true →
        read_ok env' (mFilePath ds) = true →
        (∀ j, START_ELEMENT ds (mSingleModulation p) <= j
              < STOP_ELEMENT ds (mSingleModulation p) →
              element env' (mFilePath ds) j = element env (mFilePath ds) j) →
        loadTreeItem env' p item = Some r.
Proof.
  intros Hty Hds Hbuf Hcls Hshape Hsize Hmalloc Hread.
  set (p1 := {| DatasetParser.mFileName := DatasetParser.mFileName p;
                mStatus := mStatus p;
                mUniqueModVec := mUniqueModVec p ++ [mSingleModulation p];
                mUniqueSnrVec := mUniqueSnrVec p;
                mSingleModulation := mSingleModulation p;
                mMap := mMap p |}).
  set (fuel := Z.to_nat (NR_ELEMENTS_PER_MOD ds / NR_ELEMENTS_PER_FRAME + 1)).
  assert (∃ st, slabLoop fuel ds (mSingleModulation p)
                  (element env (mFilePath ds))
                  (START_ELEMENT ds (mSingleModulation p)) (slabInit p1)
                = Some (st, true)) as [st Hloop].
  { replace (START_ELEMENT ds (mSingleModulation p))
      with (START_ELEMENT ds (mSingleModulation p) + 2048 * 0) by lia.
    apply (cube_loop ds (mSingleModulation p) Hshape Hsize _
             (Z.to_nat 106496)).
    - unfold fuel. rewrite (cube_per_mod ds Hshape).
      change NR_ELEMENTS_PER_FRAME with 2048. lia.
    - lia.
    - lia.
    - unfold slab_inv. change (0 mod 4096 =? 0) with true.
      cbv iota. simpl. discriminate. }
  assert (∀ env' : Hdf5Env,
            malloc_ok env' (TOTAL_BYTES ds) = true →
            read_ok env' (mFilePath ds) = true →
            slabLoop fuel ds (mSingleModulation p)
              (element env' (mFilePath ds))
              (START_ELEMENT ds (mSingleModulation p)) (slabInit p1)
            = Some (st, true) →
            loadTreeItem env' p item
            = Some {| status := true;
                      parser :=
                        {| DatasetParser.mFileName :=
                             DatasetParser.mFileName p;
                           mStatus := mStatus p;
                           mUniqueModVec := mUniqueModVec p1;
                           mUniqueSnrVec := uniqueSnrVec st;
                           mSingleModulation := mSingleModulation p;
                           mMap := map st |};
                      calls := [Malloc 20937965568;
                                H5Dread (mFilePath ds) H5S_ALL H5S_ALL;
                                Free] |}) as Hrun.
  { intros env' Hm Hr Hl. unfold loadTreeItem.
    rewrite Hty, Hds, Hbuf, Hcls, Hm, Hr.
    rewrite bool_decide_eq_true_2 by done.
    rewrite bool_decide_eq_true_2 by done. cbn [negb].
    fold p1. fold fuel. rewrite Hl. cbn.
    by rewrite (cube_bytes ds Hshape Hsize). }
  eexists. split; [exact (Hrun env Hmalloc Hread Hloop) |].
  split; [reflexivity |]. split; [reflexivity |].
  intros env' Hm Hr Hel. apply Hrun; [done | done |].
  rewrite <- Hloop. apply slabLoop_ext.
  - rewrite (cube_stop ds _ Hshape), (cube_start ds _ Hshape).
    change NR_ELEMENTS_PER_FRAME with 2048.
    pose proof (modOffset_range (mSingleModulation p)). lia.
  - exact Hel.
Qed.

End Hdf5Facts.

Section Hdf5Claims.
Import Modulation Dataset DatasetParser Hdf5Parser Hdf5Slab.

(** C4 (amended): [loadTreeItem] on dataset [X] allocates the whole cube
    (24 slabs, 20937965568 bytes), reads the whole dataset into it (both
    selections are [H5S_ALL]), releases it at the end, and decodes only the
    elements of the slab of the chosen modulation: the result is the same
    for every content of [X] outside of
    [mod_offset * MOD_SLAB * 1024 * 2, (mod_offset + 1) * MOD_SLAB * 1024 * 2). *)
Theorem C4_cube_loaded_slab_decoded (env : Hdf5Env) (p : DatasetParser)
    (item : Hdf5ItemData) (ds : Hdf5Dataset) :
  mItemType item = ITEM_TYPE_VARIABLE →
  mDataset item = Some ds →
  mDataBuffer ds = false →
  mDatatypeClass ds = H5T_FLOAT →
  X_shape_bad ds = false →
  mDatatypeSize ds = 4 →
  malloc_ok env (TOTAL_BYTES ds) = true →
  read_ok env (mFilePath ds) = true →
  TOTAL_BYTES ds = 24 * SLAB_BYTES
  ∧ START_ELEMENT ds (mSingleModulation p)
    = modOffset (mSingleModulation p) * (MOD_SLAB * 1024 * 2)
  ∧ STOP_ELEMENT ds (mSingleModulation p)
    = (modOffset (mSingleModulation p) + 1) * (MOD_SLAB * 1024 * 2)
  ∧ ∃ r : LoadResult,
      loadTreeItem env p item = Some r
      ∧ status r = true
      ∧ calls r = [Malloc (24 * SLAB_BYTES);
                   H5Dread (mFilePath ds) H5S_ALL H5S_ALL; Free]
      ∧ ∀ env' : Hdf5Env,
          malloc_ok env' (TOTAL_BYTES ds) = true →
          read_ok env' (mFilePath ds) = true →
          (∀ j, START_ELEMENT ds (mSingleModulation p) <= j
                < STOP_ELEMENT ds (mSingleModulation p) →
                element env' (mFilePath ds) j
                = element env (mFilePath ds) j) →
          loadTreeItem env' p item = Some r.
Proof.
  intros Hty Hds Hbuf Hcls Hshape Hsize Hmalloc Hread.
  split; [exact (cube_bytes ds Hshape Hsize) |].
  split; [exact (cube_start ds _ Hshape) |].
  split; [exact (cube_stop ds _ Hshape) |].
  exact (loadTreeItem_cube env p item ds Hty Hds Hbuf Hcls Hshape Hsize
           Hmalloc Hread).
Qed.

Lemma C4_cube_loaded_slab_decoded_witness :
  TOTAL_BYTES cube = 24 * SLAB_BYTES
  ∧ START_ELEMENT cube (mSingleModulation qpsk_parser)
    = modOffset (mSingleModulation qpsk_parser) * (MOD_SLAB * 1024 * 2)
  ∧ STOP_ELEMENT cube (mSingleModulation qpsk_parser)
    = (modOffset (mSingleModulation qpsk_parser) + 1) * (MOD_SLAB * 1024 * 2)
  ∧ ∃ r : LoadResult,
      loadTreeItem zero_env qpsk_parser cube_item = Some r
      ∧ status r = true
      ∧ calls r = [Malloc (24 * SLAB_BYTES);
                   H5Dread (mFilePath cube) H5S_ALL H5S_ALL; Free]
      ∧ ∀ env' : Hdf5Env,
          malloc_ok env' (TOTAL_BYTES cube) = true →
          read_ok env' (mFilePath cube) = true →
          (∀ j, START_ELEMENT cube (mSingleModulation qpsk_parser) <= j
                < STOP_ELEMENT cube (mSingleModulation qpsk_parser) →
                element env' (mFilePath cube) j
                = element zero_env (mFilePath cube) j) →
          loadTreeItem env' qpsk_parser cube_item = Some r.
Proof.
  exact (C4_cube_loaded_slab_decoded zero_env qpsk_parser cube_item cube
           eq_refl eq_refl eq_refl eq_refl eq_refl eq_refl eq_refl eq_refl).
Defined.

(** C4, as the specification has it, fails: on a machine that can allocate
    one slab and nothing larger the parser asks for the 24 slabs of the cube
    and gives up; and the read it issues selects the whole dataset. *)
Lemma C4_counterexample :
  SLAB_BYTES = 872415232
  ∧ malloc_ok slab_only_env SLAB_BYTES = true
  ∧ loadTreeItem slab_only_env qpsk_parser cube_item
    = Some {| status := false; parser := qpsk_parser;
              calls := [Malloc 20937965568] |}
  ∧ loadTreeItem unreadable_env qpsk_parser cube_item
    = Some {| status := false; parser := qpsk_parser;
              calls := [Malloc 20937965568;
                        H5Dread "/X" H5S_ALL H5S_ALL] |}.
Proof. repeat split; vm_compute; reflexivity. Qed.

End Hdf5Claims.

(** ** Rounding to [double]: error bounds *)

Section RoundingFacts.
Import Ieee.
Local Open Scope Q_scope.

Lemma pow2_pos (e : Z) : 0 < pow2 e.
Proof. unfold pow2. apply Qpower_0_lt. reflexivity. Qed.

Lemma pow2_add (a b : Z) : pow2 (a + b) == pow2 a * pow2 b.
Proof. unfold pow2. apply Qpower_plus. discriminate. Qed.

Lemma pow2_le (a b : Z) : (a <= b)%Z → pow2 a <= pow2 b.
Proof. intros H. unfold pow2. apply Qpower_le_compat_l; [done | discriminate]. Qed.

Lemma pow2_inject (n : Z) : (0 <= n)%Z → pow2 n == inject_Z (2 ^ n).
Proof. intros H. unfold pow2. by rewrite Zpower_Qpower. Qed.

Lemma pow2_sub (a b : Z) : pow2 (a - b) == pow2 a / pow2 b.
Proof. unfold pow2. apply Qpower_minus. discriminate. Qed.

Lemma ilog2_lower (a : Q) : 0 < a → pow2 (ilog2 a) <= a.
Proof.
  intros Ha. unfold ilog2.
  destruct (Qle_bool _ a) eqn:E; [by apply Qle_bool_iff |].
  destruct a as [n d]. cbn [Qnum Qden] in *.
  assert (0 < n)%Z as Hn by (unfold Qlt in Ha; simpl in Ha; lia).
  set (ln := Z.log2 n). set (ld := Z.log2 (Z.pos d)).
  assert (2 ^ ln <= n)%Z as H1 by (apply Z.log2_spec; lia).
  assert (Z.pos d < 2 ^ (ld + 1))%Z as H2.
  { replace (ld + 1)%Z with (Z.succ ld) by lia. apply Z.log2_spec. lia. }
  assert (0 <= ln)%Z by apply Z.log2_nonneg.
  assert (0 <= ld)%Z by apply Z.log2_nonneg.
  replace (ln - ld - 1)%Z with (ln - (ld + 1))%Z by lia.
  rewrite pow2_sub, !pow2_inject by lia.
  apply Qle_shift_div_r.
  - change 0 with (inject_Z 0). rewrite <- Zlt_Qlt. lia.
  - unfold Qle, Qmult, inject_Z. simpl.
    assert (0 < 2 ^ (ld + 1))%Z by lia.
    nia.
Qed.

Lemma round_half_even_err (x : Q) :
  Qabs (inject_Z (round_half_even x) - x) <= 1 # 2.
Proof.
  unfold round_half_even.
  pose proof (Qfloor_le x) as Hlo. pose proof (Qlt_floor x) as Hhi.
  rewrite inject_Z_plus in Hhi. change (inject_Z 1) with 1 in Hhi.
  set (f := Qfloor x) in *.
  destruct (x - inject_Z f ?= 1 # 2) eqn:E.
  - apply Qeq_alt in E.
    destruct (Z.even f);
      [| rewrite inject_Z_plus; change (inject_Z 1) with 1];
      apply Qabs_case; intros; lra.
  - apply Qlt_alt in E. apply Qabs_case; intros; lra.
  - apply Qgt_alt in E. rewrite inject_Z_plus. change (inject_Z 1) with 1.
    apply Qabs_case; intros; lra.
Qed.

(** The error of a rounding is at most half the unit in the last place. *)
Lemma fl_err (prec emin : Z) (x : Q) :
  Qabs (fl prec emin x - x) <= (1 # 2) * pow2 (ulp_exp prec emin (Qabs x)).
Proof.
  unfold fl. set (e := ulp_exp prec emin (Qabs x)).
  pose proof (pow2_pos e) as He.
  destruct (Qeq_bool x 0) eqn:E0.
  - apply Qeq_bool_iff in E0. apply Qabs_case; intros; lra.
  - rewrite Qred_correct.
    pose proof (round_half_even_err (Qabs x / pow2 e)) as Hr.
    set (n := round_half_even (Qabs x / pow2 e)) in *.
    assert (Qabs (inject_Z n * pow2 e - Qabs x) <= (1 # 2) * pow2 e) as Hn.
    { assert (inject_Z n * pow2 e - Qabs x
              == (inject_Z n - Qabs x / pow2 e) * pow2 e) as ->
        by (field; lra).
      rewrite Qabs_Qmult, (Qabs_pos (pow2 e)) by lra.
      apply Qmult_le_compat_r; lra. }
    destruct (Qle_bool 0 x) eqn:Es.
    + apply Qle_bool_iff in Es. rewrite (Qabs_pos x) in Hn by done. exact Hn.
    + assert (x < 0) as Hneg.
      { apply Qnot_le_lt. intros H. apply Qle_bool_iff in H. congruence. }
      rewrite (Qabs_neg x) in Hn by lra.
      rewrite inject_Z_opp.
      assert (- inject_Z n * pow2 e - x
              == - (inject_Z n * pow2 e - - x)) as -> by ring.
      by rewrite Qabs_opp.
Qed.

Lemma ulp_bound (prec emin : Z) (a : Q) :
  0 < a →
  pow2 (ulp_exp prec emin a) <= a * pow2 (1 - prec) + pow2 emin.
Proof.
  intros Ha. unfold ulp_exp.
  pose proof (pow2_pos emin). pose proof (pow2_pos (1 - prec)).
  pose proof (ilog2_lower a Ha) as Hl.
  assert (pow2 (ilog2 a - prec + 1) <= a * pow2 (1 - prec)) as H1.
  { replace (ilog2 a - prec + 1)%Z with (ilog2 a + (1 - prec))%Z by lia.
    rewrite pow2_add. apply Qmult_le_compat_r; lra. }
  assert (0 <= a * pow2 (1 - prec)) by (apply Qmult_le_0_compat; lra).
  destruct (Z.max_spec (ilog2 a - prec + 1) emin) as [[_ ->] | [_ ->]]; lra.
Qed.

(** The standard model of a rounded operation, with gradual underflow. *)
Lemma to_double_err (x : Q) :
  Qabs (to_double x - x) <= Qabs x * (1 # 2 ^ 53) + (1 # 2 ^ 1075).
Proof.
  unfold to_double.
  pose proof (fl_err 53 (-1074) x) as H.
  destruct (Qeq_dec x 0) as [E | E].
  - unfold fl in *.
    assert (Qeq_bool x 0 = true) as Hb by (by apply Qeq_bool_iff).
    rewrite Hb in *.
    assert (0 <= Qabs x * (1 # 2 ^ 53)).
    { apply Qmult_le_0_compat; [apply Qabs_nonneg | by compute]. }
    assert (0 <= (1 # 2 ^ 1075)) by (by compute).
    apply Qabs_case; intros; lra.
  - assert (0 < Qabs x) as Ha.
    { revert E. apply Qabs_case; intros; lra. }
    pose proof (ulp_bound 53 (-1074) (Qabs x) Ha) as Hu.
    assert (pow2 (1 - 53) == 2 * (1 # 2 ^ 53)) as E1 by reflexivity.
    assert (pow2 (-1074) == 2 * (1 # 2 ^ 1075)) as E2 by reflexivity.
    rewrite E1, E2 in Hu. lra.
Qed.

(** The scaled sample stays below the next integer after the numerator. *)
Lemma scaled_bound (K m x : Q) :
  0 <= K → K <= 32767 → 0 < m → m <= inject_Z (2 ^ 128) →
  Qabs x <= m →
  Qabs (to_double (x * to_double (K / m))) < K + 1.
Proof.
  intros HK0 HK Hm0 Hm Hx.
  set (u := 1 # 2 ^ 53). set (eta := 1 # 2 ^ 1075).
  set (r := K / m).
  assert (r * m == K) as Hrm by (unfold r; field; lra).
  assert (0 <= r) as Hr0.
  { unfold r. apply Qle_shift_div_l; lra. }
  pose proof (to_double_err r) as Hs. fold u eta in Hs.
  set (s := to_double r) in *.
  rewrite (Qabs_pos r) in Hs by done.
  apply Qabs_Qle_condition in Hs as [Hs1 Hs2].
  assert (0 <= r * u) as Hru by (apply Qmult_le_0_compat; [done | by compute]).
  assert (0 <= eta) as Heta by (by compute).
  assert (Qabs s <= r * (1 + u) + eta) as HS.
  { apply Qabs_Qle_condition. split; lra. }
  assert (Qabs (x * s) <= K * (1 + u) + inject_Z (2 ^ 128) * eta) as HA.
  { rewrite Qabs_Qmult.
    apply Qle_trans with (m * Qabs s).
    - apply Qmult_le_compat_r; [done | apply Qabs_nonneg].
    - apply Qle_trans with (m * (r * (1 + u) + eta)).
      + apply Qmult_le_l; done.
      + assert (m * (r * (1 + u) + eta) == K * (1 + u) + m * eta) as ->
          by (rewrite <- Hrm; ring).
        assert (m * eta <= inject_Z (2 ^ 128) * eta)
          by (apply Qmult_le_compat_r; done).
        lra. }
  pose proof (to_double_err (x * s)) as Hp. fold u eta in Hp.
  set (p := to_double (x * s)) in *.
  set (A := Qabs (x * s)) in *.
  assert (0 <= A) as HA0 by apply Qabs_nonneg.
  assert (A * u <= (K * (1 + u) + inject_Z (2 ^ 128) * eta) * u) as HAu
    by (apply Qmult_le_compat_r; [done | by compute]).
  apply Qabs_Qle_condition in Hp as [Hp1 Hp2].
  assert (Qabs (x * s) == A) as HxA by reflexivity.
  assert (- A <= x * s ∧ x * s <= A) as [Hxs1 Hxs2]
    by (apply Qabs_Qle_condition; lra).
  assert (inject_Z (2 ^ 128) * eta <= 1 # 2 ^ 900) as HB by (by compute).
  assert (eta <= 1 # 2 ^ 900) as HE by (by compute).
  assert (u <= 1 # 2 ^ 50) as HU by (by compute).
  assert (0 <= u) as HU0 by (by compute).
  assert ((K * (1 + u) + inject_Z (2 ^ 128) * eta) * u
          <= (32767 * 2 + 1) * (1 # 2 ^ 50)) as HAu'.
  { apply Qle_trans with ((32767 * 2 + 1) * u).
    - apply Qmult_le_compat_r; [| done].
      assert (K * u <= 32767 * 1).
      { apply Qle_trans with (32767 * u).
        - apply Qmult_le_compat_r; done.
        - apply Qmult_le_l; [reflexivity | by compute]. }
      assert ((1 # 2 ^ 900) <= 1) by (by compute).
      lra.
    - apply Qmult_le_l; [reflexivity | done]. }
  assert (K * u <= 32767 * (1 # 2 ^ 50)) as HKu.
  { apply Qle_trans with (32767 * u).
    - apply Qmult_le_compat_r; done.
    - apply Qmult_le_l; [reflexivity | done]. }
  assert ((1 # 2 ^ 900) <= (1 # 2 ^ 50)) by (by compute).
  assert ((32767 * 2 + 1) * (1 # 2 ^ 50) + 32767 * (1 # 2 ^ 50)
          + 2 * (1 # 2 ^ 50) < 1) as Hfin by (by compute).
  apply Qabs_case; intros _; lra.
Qed.

Lemma truncate_bound (p : Q) (K : Z) :
  (0 <= K)%Z → Qabs p < inject_Z K + 1 →
  (- K <= truncate p <= K)%Z.
Proof.
  intros HK Hp. unfold truncate.
  destruct p as [n d]. cbn [Qnum Qden].
  assert (Z.abs n < (K + 1) * Z.pos d)%Z as Hn.
  { unfold Qlt, Qabs, Qplus, inject_Z in Hp. simpl in Hp. lia. }
  destruct (Z_le_gt_dec 0 n) as [H0 | H0].
  - rewrite Z.quot_div_nonneg by lia.
    assert (n / Z.pos d < K + 1)%Z
      by (apply Z.div_lt_upper_bound; lia).
    assert (0 <= n / Z.pos d)%Z by (apply Z.div_pos; lia).
    lia.
  - replace n with (- (- n))%Z by lia.
    rewrite Z.quot_opp_l by lia.
    rewrite Z.quot_div_nonneg by lia.
    assert (- n / Z.pos d < K + 1)%Z
      by (apply Z.div_lt_upper_bound; lia).
    assert (0 <= - n / Z.pos d)%Z by (apply Z.div_pos; lia).
    lia.
Qed.
End RoundingFacts.

(** ** AdiTrx: the conversion of the samples *)

Section StreamingFacts.
Import AdiTrx TxHal StreamingSpec.

Lemma to_int16_small (z : Z) : is_int16 z → to_int16 (to_int z) = z.
Proof.
  unfold is_int16, to_int16, to_int.
  change (2 ^ 15) with 32768. change (2 ^ 16) with 65536.
  change (2 ^ 31) with 2147483648. change (2 ^ 32) with 4294967296.
  intros H. lia.
Qed.

(** One component, for a numerator [K = 2 ^ (W - 1) - 1] and the shift
    [16 - W]. *)
Lemma convert_run (W : Z) (m x : Q) (w : World) :
  12 <= W <= 16 →
  (0 < m)%Q → (m <= inject_Z (2 ^ 128))%Q → (Qabs x <= m)%Q →
  convert (Ieee.to_double (inject_Z (2 ^ (W - 1) - 1) / m)) (16 - W) x w
  = Returns (converted W m x, w)
  ∧ is_int16 (converted W m x).
Proof.
  intros HW Hm0 Hm Hx.
  set (K := 2 ^ (W - 1) - 1).
  assert (0 <= K <= 32767) as HK.
  { subst K. assert (2 ^ (W - 1) <= 2 ^ 15) by (apply Z.pow_le_mono_r; lia).
    assert (0 < 2 ^ (W - 1)) by (apply Z.pow_pos_nonneg; lia).
    change (2 ^ 15) with 32768 in *. lia. }
  pose proof (scaled_bound (inject_Z K) m x) as Hb.
  assert (Qabs (Ieee.to_double (x * Ieee.to_double (inject_Z K / m)))
          < inject_Z K + 1)%Q as Hlt.
  { apply Hb; try done.
    - change 0%Q with (inject_Z 0). rewrite <- Zle_Qle. lia.
    - change 32767%Q with (inject_Z 32767). rewrite <- Zle_Qle. lia. }
  pose proof (truncate_bound _ K ltac:(lia) Hlt) as Ht.
  unfold converted. fold K.
  set (t := Ieee.truncate _) in *.
  assert (K * 2 ^ (16 - W) <= 2 ^ 15 - 1) as Hsh.
  { subst K. rewrite Z.mul_sub_distr_r, <- Z.pow_add_r by lia.
    replace (W - 1 + (16 - W)) with 15 by lia.
    assert (0 < 2 ^ (16 - W)) by (apply Z.pow_pos_nonneg; lia). lia. }
  assert (0 < 2 ^ (16 - W)) as Hpos by (apply Z.pow_pos_nonneg; lia).
  assert (is_int16 (t * 2 ^ (16 - W))) as Hint.
  { unfold is_int16. change (2 ^ 15) with 32768 in *. nia. }
  split; [| exact Hint].
  unfold convert, cast_int16, mbind, M_bind, mret, M_ret. fold t.
  assert ((- 2 ^ 15 <=? t) && (t <=? 2 ^ 15 - 1) = true) as ->.
  { apply andb_true_iff. change (2 ^ 15) with 32768 in *.
    split; apply Z.leb_le; lia. }
  by rewrite to_int16_small.
Qed.

Lemma concat_lookup_uniform {A} (L : nat) (frames : list (list A))
    (k : nat) (f : list A) (x : A) :
  (0 < L)%nat → Forall (fun f => length f = L) frames →
  frames !! (k / L)%nat = Some f → f !! (k mod L)%nat = Some x →
  concat frames !! k = Some x.
Proof.
  intros HL Hu. revert k.
  induction Hu as [| f0 fs Hf0 _ IH]; intros k Hf Hx; [done |].
  simpl. destruct (decide (k < L)%nat) as [Hk | Hk].
  - rewrite Nat.div_small in Hf by done. simpl in Hf. injection Hf as ->.
    rewrite Nat.mod_small in Hx by done.
    by apply lookup_app_l_Some.
  - rewrite lookup_app_r by lia. rewrite Hf0.
    assert (k / L = S ((k - L) / L))%nat as Hd.
    { replace k with ((k - L) + 1 * L)%nat at 1 by lia.
      rewrite Nat.div_add by lia. lia. }
    assert (k mod L = (k - L) mod L)%nat as Hm.
    { replace k with ((k - L) + 1 * L)%nat at 1 by lia.
      rewrite Nat.Div0.mod_add. done. }
    rewrite Hd in Hf. simpl in Hf. rewrite Hm in Hx. by apply IH.
Qed.

Lemma concat_length_uniform {A} (L : nat) (frames : list (list A)) :
  Forall (fun f => length f = L) frames →
  length (concat frames) = (L * length frames)%nat.
Proof.
  induction 1 as [| f0 fs Hf0 _ IH]; simpl; [lia |].
  rewrite length_app, IH, Hf0. lia.
Qed.

Lemma convertSlots_cons (SCALE_RATIO : Q) (shift : Z) (i : Z)
    (rest : list Z) (w : World) :
  convertSlots SCALE_RATIO shift (i :: rest) w
  = match convertSlot SCALE_RATIO shift i w with
    | Returns (s, w') =>
        match convertSlots SCALE_RATIO shift rest w' with
        | Returns (ss, w'') => Returns (s :: ss, w'')
        | OutOfRange => OutOfRange
        | Undefined => Undefined
        end
    | OutOfRange => OutOfRange
    | Undefined => Undefined
    end.
Proof.
  simpl. unfold mbind, M_bind, mret, M_ret.
  destruct (convertSlot SCALE_RATIO shift i w) as [[s w'] | |];
    [| reflexivity | reflexivity].
  destruct (convertSlots SCALE_RATIO shift rest w') as [[ss w''] | |];
    reflexivity.
Qed.

Lemma convertSlots_run (SCALE_RATIO : Q) (shift : Z) (w : World)
    (h : Dataset.IQPoint → Z * Z) :
  ∀ (l : list Dataset.IQPoint) (start : nat),
    (∀ (j : nat) (pt : Dataset.IQPoint),
       l !! j = Some pt →
       convertSlot SCALE_RATIO shift (Z.of_nat (start + j)) w
       = Returns (h pt, w)) →
    convertSlots SCALE_RATIO shift (Z.of_nat <$> seq start (length l)) w
    = Returns (h <$> l, w).
Proof.
  induction l as [| pt l IH]; intros start H; [reflexivity |].
  cbn [length seq fmap list_fmap]. rewrite convertSlots_cons.
  rewrite <- (Nat.add_0_r start) at 1. rewrite (H 0%nat pt eq_refl).
  change (list_fmap nat Z Z.of_nat (seq (S start) (length l)))
    with (Z.of_nat <$> seq (S start) (length l)).
  rewrite (IH (S start)); [reflexivity |].
  intros j pt' Hj. replace (S start + j)%nat with (start + S j)%nat by lia.
  by apply H.
Qed.

Lemma resetTxBuffer_run (iio : Iio) (n : Z) (w : World) :
  n ≠ 0 → iio (iio_device_create_buffer n true) = true →
  ∃ w1 : World,
    resetTxBuffer iio n true w = Returns (true, w1)
    ∧ trx w1 = set_mTxBuf true (set_mTxBufIqPairsCount n (trx w))
    ∧ ∃ pre, log w1 = log w ++ pre ++ [iio_device_create_buffer n true].
Proof.
  intros Hn Hok. destruct w as [t lg].
  unfold resetTxBuffer, mbind, M_bind, mret, M_ret, modify, get, call.
  cbn [trx log].
  assert ((n =? 0) = false) as Hn0 by (by apply Z.eqb_neq).
  destruct (mTxBuf (set_mTxBufIqPairsCount n t)) eqn:Hbuf;
    cbn [trx log]; rewrite Hn0, Hok; cbn [trx log].
  - eexists. split; [reflexivity |]. cbn [trx log].
    split; [reflexivity |]. exists [iio_buffer_destroy].
    by rewrite <- app_assoc.
  - eexists. split; [reflexivity |]. cbn [trx log].
    split; [reflexivity |]. by exists [].
Qed.

Lemma convertSlot_run (W : Z) (sd : Dataset.SignalData) (w : World)
    (frame0 : Dataset.FrameData) (rest : list Dataset.FrameData) (k : nat) :
  12 <= W <= 16 → loadable sd →
  Dataset.frameDataVec sd = frame0 :: rest →
  mSignalData (trx w) = sd →
  mFrameLength (trx w) = Z.of_nat (length frame0) →
  (k < length frame0 * length (Dataset.frameDataVec sd))%nat →
  ∃ pt : Dataset.IQPoint,
    concat (Dataset.frameDataVec sd) !! k = Some pt
    ∧ convertSlot
        (Ieee.to_double (inject_Z (2 ^ (W - 1) - 1) / Dataset.maxVal sd))
        (16 - W) (Z.of_nat k) w
      = Returns (convertedPoint W (Dataset.maxVal sd) pt, w)
    ∧ is_int16 (converted W (Dataset.maxVal sd) (Dataset.i pt))
    ∧ is_int16 (converted W (Dataset.maxVal sd) (Dataset.q pt)).
Proof.
  intros HW Hload Hfr Hsd HL Hk.
  destruct (frames_uniform sd Hload frame0 rest Hfr)
    as (Hne & HL16 & Hun & Hprod).
  pose proof (frames_count sd Hload) as HF16.
  set (Ln := length frame0) in *.
  set (frames := Dataset.frameDataVec sd) in *.
  assert (0 < Ln)%nat as HLpos
    by (subst Ln; destruct frame0; [done | simpl; lia]).
  assert (k / Ln < length frames)%nat as Hq
    by (apply Nat.Div0.div_lt_upper_bound; lia).
  destruct (lookup_lt_is_Some_2 frames (k / Ln)%nat Hq) as [f Hf].
  assert (length f = Ln) as Hlf.
  { rewrite Forall_forall in Hun. apply Hun.
    by eapply list_elem_of_lookup_2. }
  assert (k mod Ln < length f)%nat as Hr
    by (rewrite Hlf; apply Nat.mod_upper_bound; lia).
  destruct (lookup_lt_is_Some_2 f (k mod Ln)%nat Hr) as [pt Hpt].
  exists pt.
  split; [by eapply concat_lookup_uniform |].
  pose proof (maxVal_bounds sd Hload) as Hb. fold frames in Hb.
  rewrite Forall_forall in Hb.
  assert (f ∈ frames) as Hfin by (by eapply list_elem_of_lookup_2).
  specialize (Hb f Hfin). rewrite Forall_forall in Hb.
  destruct (Hb pt) as [Hbi Hbq]; [by eapply list_elem_of_lookup_2 |].
  destruct (convert_run W (Dataset.maxVal sd) (Dataset.i pt) w HW
              (maxVal_positive sd Hload) (maxVal_float sd Hload) Hbi)
    as [Hci Hii].
  destruct (convert_run W (Dataset.maxVal sd) (Dataset.q pt) w HW
              (maxVal_positive sd Hload) (maxVal_float sd Hload) Hbq)
    as [Hcq Hiq].
  split; [| done].
  destruct w as [t lg]. cbn [trx] in *.
  unfold convertSlot, mbind, M_bind, mret, M_ret, get. cbn [trx].
  rewrite HL, Hsd. fold frames.
  assert (wrap16 (Z.of_nat k / Z.of_nat Ln) = Z.of_nat (k / Ln)) as ->.
  { unfold wrap16. rewrite <- Nat2Z.inj_div. apply Z.mod_small.
    change (2 ^ 16) with 65536. lia. }
  assert (wrap16 (if Z.of_nat (k / Ln) =? 0 then Z.of_nat k
                  else Z.of_nat k mod Z.of_nat Ln)
          = Z.of_nat (k mod Ln)) as ->.
  { assert (Z.of_nat (k mod Ln) < 65536).
    { pose proof (Nat.mod_upper_bound k Ln). lia. }
    unfold wrap16. change (2 ^ 16) with 65536.
    destruct (Z.of_nat (k / Ln) =? 0) eqn:E.
    - apply Z.eqb_eq in E.
      assert (k / Ln = 0)%nat as E' by lia.
      apply Nat.div_small_iff in E'; [| lia].
      rewrite Nat.mod_small by done. apply Z.mod_small. lia.
    - rewrite <- Nat2Z.inj_mod. apply Z.mod_small. lia. }
  unfold vector_at. rewrite !Nat2Z.id, Hf. unfold mret, M_ret.
  rewrite Hpt. rewrite Hci, Hcq. reflexivity.
Qed.

Lemma startTxStreamingWith_run (iio : Iio) (W : Z) (sd : Dataset.SignalData)
    (w : World) (frame0 : Dataset.FrameData)
    (rest : list Dataset.FrameData) :
  12 <= W <= 16 → loadable sd →
  Dataset.frameDataVec sd = frame0 :: rest →
  mSignalData (trx w) = sd →
  mFrameLength (trx w) = Z.of_nat (length frame0) →
  mFramesNr (trx w) = Z.of_nat (length (Dataset.frameDataVec sd)) →
  iio (iio_device_create_buffer
         (Z.of_nat (length frame0)
          * Z.of_nat (length (Dataset.frameDataVec sd))) true) = true →
  ∃ (w' : World) (pre : list IioCall),
    startTxStreamingWith iio (inject_Z (2 ^ (W - 1) - 1)) (16 - W) w
    = Returns (tt, w')
    ∧ log w'
      = log w ++ pre
        ++ [iio_buffer_push
              (convertedPoint W (Dataset.maxVal sd)
                 <$> concat (Dataset.frameDataVec sd))].
Proof.
  intros HW Hload Hfr Hsd HL HF Hok.
  destruct (frames_uniform sd Hload frame0 rest Hfr)
    as (Hne & HL16 & Hun & Hprod).
  set (n := Z.of_nat (length frame0)
            * Z.of_nat (length (Dataset.frameDataVec sd))) in *.
  assert (n ≠ 0) as Hn.
  { subst n. rewrite Hfr. destruct frame0; [done | simpl length; lia]. }
  destruct (resetTxBuffer_run iio n w Hn Hok) as (w1 & Hreset & Htrx & pre & Hlog).
  unfold startTxStreamingWith.
  unfold mbind at 1. unfold M_bind at 1. unfold get at 1.
  rewrite HL, HF. fold n.
  assert ((INT_MAX <? n) = false) as -> by (apply Z.ltb_ge; lia).
  unfold mbind at 1. unfold M_bind at 1. rewrite Hreset.
  unfold mbind at 1. unfold M_bind at 1. unfold get at 1.
  assert (mTxBuf (trx w1) = true) as -> by (by rewrite Htrx).
  assert (mSignalData (trx w1) = sd) as Hsd1 by (by rewrite Htrx).
  assert (mFrameLength (trx w1) = Z.of_nat (length frame0)) as HL1
    by (by rewrite Htrx).
  rewrite Hsd1.
  assert (Qeq_bool (Dataset.maxVal sd) 0 = false) as ->.
  { apply not_true_is_false. intros E. apply Qeq_bool_iff in E.
    pose proof (maxVal_positive sd Hload). lra. }
  cbn [negb orb].
  assert (mTxBufIqPairsCount (trx w1) = n) as -> by (by rewrite Htrx).
  assert (Z.to_nat n = length (concat (Dataset.frameDataVec sd))) as ->.
  { rewrite (concat_length_uniform (length frame0)) by done. subst n.
    by rewrite <- Nat2Z.inj_mul, Nat2Z.id. }
  unfold mbind at 1. unfold M_bind at 1.
  rewrite (convertSlots_run _ _ w1 (convertedPoint W (Dataset.maxVal sd))).
  - unfold mbind, M_bind, call, mret, M_ret. cbn [trx log].
    eexists. exists (pre ++ [iio_device_create_buffer n true]).
    split; [reflexivity |]. cbn [log].
    rewrite Hlog, <- !app_assoc. reflexivity.
  - intros j pt Hj. simpl "+"%nat.
    assert (j < length frame0 * length (Dataset.frameDataVec sd))%nat as Hjn.
    { apply lookup_lt_Some in Hj.
      by rewrite (concat_length_uniform (length frame0)) in Hj. }
    destruct (convertSlot_run W sd w1 frame0 rest j HW Hload Hfr Hsd1 HL1 Hjn)
      as (pt' & Hpt' & Hrun & _).
    rewrite Hpt' in Hj. injection Hj as ->. exact Hrun.
Qed.

Lemma getSignalData_run (sd : Dataset.SignalData) (w : World)
    (frame0 : Dataset.FrameData) (rest : list Dataset.FrameData) :
  loadable sd → Dataset.frameDataVec sd = frame0 :: rest →
  ∃ w0 : World,
    getSignalData sd w = Returns (tt, w0)
    ∧ log w0 = log w
    ∧ mSignalData (trx w0) = sd
    ∧ mFrameLength (trx w0) = Z.of_nat (length frame0)
    ∧ mFramesNr (trx w0) = Z.of_nat (length (Dataset.frameDataVec sd)).
Proof.
  intros Hload Hfr.
  destruct (frames_uniform sd Hload frame0 rest Hfr) as (_ & HL16 & _ & _).
  pose proof (frames_count sd Hload) as HF16.
  destruct w as [t lg]. unfold getSignalData. rewrite Hfr in *.
  eexists. split; [reflexivity |]. cbn.
  unfold wrap16. change (2 ^ 16) with 65536.
  repeat split; try reflexivity; apply Z.mod_small; simpl length in *; lia.
Qed.

Lemma startStreaming_with (d : TxDevice) (iio : Iio) :
  d ≠ TX_DEVICE_UNKNOWN →
  12 <= dac_width d <= 16
  ∧ startStreaming d iio
    = startTxStreamingWith iio (inject_Z (2 ^ (dac_width d - 1) - 1))
        (16 - dac_width d).
Proof. destruct d; [done | | |]; intros _; (split; [simpl; lia | reflexivity]). Qed.

(** C1: for each of the three variants, of DAC width [W] (12 for the
    AD9361, 14 for the ADRV9009, 16 for the AD9081) and shift [16 - W],
    loading a [loadable] signal and starting the streaming returns, and the
    buffer that is pushed holds, for every sample [(i, q)] of the signal in
    order, [cast_i16 (i * SCALE) << (16 - W)] and
    [cast_i16 (q * SCALE) << (16 - W)], where [SCALE] is
    [(2 ^ (W - 1) - 1) / maxVal] in [double] and the cast truncates toward
    zero; each of these values lies in the range of [int16_t], so that no
    conversion and no shift overflows. *)
Theorem C1_start_streaming_converts (d : TxDevice) (iio : Iio)
    (sd : Dataset.SignalData) (w : World) :
  d ≠ TX_DEVICE_UNKNOWN →
  loadable sd →
  iio (iio_device_create_buffer
         (Z.of_nat (length (concat (Dataset.frameDataVec sd)))) true)
  = true →
  dac_width d ∈ [12; 14; 16]
  ∧ ∃ (w' : World) (pre : list IioCall),
      (getData d sd ≫= fun _ => startStreaming d iio) w = Returns (tt, w')
      ∧ log w'
        = log w ++ pre
          ++ [iio_buffer_push
                (convertedPoint (dac_width d) (Dataset.maxVal sd)
                   <$> concat (Dataset.frameDataVec sd))]
      ∧ Forall
          (fun p =>
             is_int16 (converted (dac_width d) (Dataset.maxVal sd)
                         (Dataset.i p))
             ∧ is_int16 (converted (dac_width d) (Dataset.maxVal sd)
                           (Dataset.q p)))
          (concat (Dataset.frameDataVec sd)).
Proof.
  intros Hd Hload Hok.
  split; [destruct d; [done | | |]; simpl; set_solver |].
  destruct (startStreaming_with d iio Hd) as [HW Hwith].
  destruct (Dataset.frameDataVec sd) as [| frame0 rest] eqn:Hfr.
  { by destruct (frames_nonempty sd Hload). }
  destruct (frames_uniform sd Hload frame0 rest Hfr)
    as (Hne & HL16 & Hun & Hprod).
  rewrite <- Hfr in *.
  assert (Z.of_nat (length (concat (Dataset.frameDataVec sd)))
          = Z.of_nat (length frame0)
            * Z.of_nat (length (Dataset.frameDataVec sd))) as Hn.
  { rewrite (concat_length_uniform (length frame0)) by done.
    apply Nat2Z.inj_mul. }
  rewrite Hn in Hok.
  destruct (getSignalData_run sd w frame0 rest Hload Hfr)
    as (w0 & Hget & Hlog0 & Hsd0 & HL0 & HF0).
  destruct (startTxStreamingWith_run iio (dac_width d) sd w0 frame0 rest
              HW Hload Hfr Hsd0 HL0 HF0 Hok) as (w' & pre & Hrun & Hlog).
  exists w', pre. split; [| split].
  - unfold mbind, M_bind.
    assert (getData d sd = getSignalData sd) as ->
      by (destruct d; [done | | |]; reflexivity).
    rewrite Hget, Hwith. exact Hrun.
  - by rewrite Hlog, Hlog0.
  - apply Forall_forall. intros pt Hpt.
    apply list_elem_of_lookup in Hpt as [k Hk].
    assert (k < length frame0 * length (Dataset.frameDataVec sd))%nat as Hkn.
    { apply lookup_lt_Some in Hk.
      by rewrite (concat_length_uniform (length frame0)) in Hk. }
    destruct (convertSlot_run (dac_width d) sd w0 frame0 rest k
                HW Hload Hfr Hsd0 HL0 Hkn) as (pt' & Hpt' & _ & Hi & Hq).
    rewrite Hpt' in Hk. injection Hk as ->. done.
Qed.

Lemma half_scale_loadable : loadable half_scale_signal.
Proof.
  split.
  - discriminate.
  - intros frame0 rest [= <- <-].
    split; [discriminate |]. split; [simpl; lia |].
    split; [repeat constructor | vm_compute; discriminate].
  - simpl. lia.
  - reflexivity.
  - vm_compute. discriminate.
  - repeat constructor; vm_compute; discriminate.
Defined.

Lemma C1_start_streaming_converts_witness :
  dac_width TX_DEVICE_AD9361 ∈ [12; 14; 16]
  ∧ ∃ (w' : World) (pre : list IioCall),
      (getData TX_DEVICE_AD9361 half_scale_signal
       ≫= fun _ => startStreaming TX_DEVICE_AD9361 (fun _ => true))
        {| trx := new; log := [] |}
      = Returns (tt, w')
      ∧ log w'
        = [] ++ pre
          ++ [iio_buffer_push
                (convertedPoint (dac_width TX_DEVICE_AD9361)
                   (Dataset.maxVal half_scale_signal)
                   <$> concat (Dataset.frameDataVec half_scale_signal))]
      ∧ Forall
          (fun p =>
             is_int16 (converted (dac_width TX_DEVICE_AD9361)
                         (Dataset.maxVal half_scale_signal) (Dataset.i p))
             ∧ is_int16 (converted (dac_width TX_DEVICE_AD9361)
                           (Dataset.maxVal half_scale_signal)
                           (Dataset.q p)))
          (concat (Dataset.frameDataVec half_scale_signal)).
Proof.
  refine (C1_start_streaming_converts TX_DEVICE_AD9361 (fun _ => true)
            half_scale_signal {| trx := new; log := [] |}
            _ half_scale_loadable eq_refl).
  discriminate.
Defined.

Example half_scale_samples :
  convertedPoint 12 1 {| Dataset.i := 1 # 2; Dataset.q := - (1) |}
  = (16368, -32752)
  ∧ log <$> (match (getData TX_DEVICE_AD9361 half_scale_signal
                    ≫= fun _ =>
                         startStreaming TX_DEVICE_AD9361 (fun _ => true))
                     {| trx := new; log := [] |} with
             | Returns (_, w') => Some w'
             | _ => None
             end)
    = Some [iio_device_create_buffer 1 true;
            iio_buffer_push [(16368, -32752)]].
Proof. split; vm_compute; reflexivity. Qed.
End StreamingFacts.

(** ** AdiTrx: the setters and [getSignalData] *)

Section SetterFacts.
Import AdiTrx SetterSpec.

Ltac setter_cases :=
  let E := fresh "E" in
  let F := fresh "F" in
  intros iio v w; destruct w as [t lg];
  match goal with
  | |- ∃ b w', ?f iio v _ = _ ∧ _ =>
      unfold f, mbind, M_bind, mret, M_ret, get, call, modify; simpl
  end;
  match goal with
  | |- context [in_range ?r v] => destruct (in_range r v) eqn:E
  | |- context [in_range_double ?r v] => destruct (in_range_double r v) eqn:E
  end; simpl;
  [ match goal with
    | |- context [iio ?c] => destruct (iio c) eqn:F
    end; simpl | ];
  do 2 eexists; (split; [reflexivity |]);
  simpl; repeat split; try (intros; congruence); try tauto; try done;
  try (intros [? ?]; congruence).

(** C7 (amended): a range-checked setter returns [true] if and only if the
    argument lies in the cached range and the library accepts the write.
    When the argument is out of range nothing is written and nothing
    changes; when it is in range the write is attempted; the cached value
    becomes the argument when the setter returns [true] and stays what it
    was when it returns [false].  The setters of the parameters that a
    variant does not support return [false] for every argument and do
    nothing; the NCO gain scale of the AD9081 is checked against [0, 1],
    written, and not cached. *)
Theorem C7_setters_validate_range :
  (range_checked AdiTrxAd9361.setTxLoFrequency mTxLoFrequencyParams
     mTxLoFrequency (iio_channel_attr_write_longlong TxLoChan "frequency")
   ∧ range_checked AdiTrxAdrv9009.setTxLoFrequency mTxLoFrequencyParams
       mTxLoFrequency (iio_channel_attr_write_longlong TxLoChan "frequency")
   ∧ range_checked AdiTrxAd9081.setTxLoFrequency mTxLoFrequencyParams
       mTxLoFrequency
       (iio_channel_attr_write_longlong TxNcoChan "main_nco_frequency")
   ∧ range_checked AdiTrxAd9361.setTxBandwidth mTxBandwidthParams
       mTxBandwidth
       (iio_channel_attr_write_longlong TxPhyChan "rf_bandwidth")
   ∧ range_checked AdiTrxAd9361.setTxSamplingFrequency
       mTxSamplingFrequencyParams mTxSamplingFrequency
       (iio_channel_attr_write_longlong TxPhyChan "sampling_frequency")
   ∧ range_checked_double AdiTrxAd9361.setTxHwGain mTxHwGainDbParams
       mTxHwGainDb (iio_channel_attr_write_double TxPhyChan "hardwaregain")
   ∧ range_checked_double AdiTrxAdrv9009.setTxHwGain mTxHwGainDbParams
       mTxHwGainDb (iio_channel_attr_write_double TxPhyChan "hardwaregain"))
  ∧ (unsupported AdiTrxAd9361.setTxNcoGainScale
     ∧ unsupported AdiTrxAdrv9009.setTxBandwidth
     ∧ unsupported AdiTrxAdrv9009.setTxSamplingFrequency
     ∧ unsupported AdiTrxAdrv9009.setTxNcoGainScale
     ∧ unsupported AdiTrxAd9081.setTxBandwidth
     ∧ unsupported AdiTrxAd9081.setTxSamplingFrequency
     ∧ unsupported AdiTrxAd9081.setTxHwGain)
  ∧ (∀ (iio : Iio) (v : Q) (w : World),
       let write :=
         iio_channel_attr_write_double TxNcoChan "channel_nco_gain_scale" v in
       let ok := Qle_bool 0 v && Qle_bool v 1 in
       AdiTrxAd9081.setTxNcoGainScale iio v w
       = Returns (ok && iio write,
                  {| trx := trx w;
                     log := if ok then log w ++ [write] else log w |})).
Proof.
  split; [repeat split; setter_cases |].
  split; [repeat split; intros iio v w; reflexivity |].
  intros iio v [t lg]. simpl.
  unfold AdiTrxAd9081.setTxNcoGainScale.
  destruct (Qle_bool 0 v && Qle_bool v 1); reflexivity.
Qed.

Lemma C7_setters_validate_range_witness :
  (∀ iio : Iio, ∃ w',
     AdiTrxAdrv9009.setTxLoFrequency iio 69999999 (lo_world 915000000)
     = Returns (false, w')
     ∧ w' = lo_world 915000000)
  ∧ ∃ w',
      AdiTrxAdrv9009.setTxLoFrequency (fun _ => true) 70000000
        (lo_world 915000000)
      = Returns (true, w')
      ∧ mTxLoFrequency (trx w') = 70000000.
Proof.
  destruct C7_setters_validate_range as [(_ & H & _) _].
  split.
  - intros iio.
    destruct (H iio 69999999 (lo_world 915000000))
      as (b & w' & Hr & Hb & Hout & _).
    exists w'. rewrite Hr. specialize (Hout eq_refl).
    destruct b; [| done].
    destruct Hb as [Hb _]. destruct (Hb eq_refl) as [Hb' _]. discriminate.
  - destruct (H (fun _ => true) 70000000 (lo_world 915000000))
      as (b & w' & Hr & Hb & _ & _ & _ & Hc).
    exists w'. rewrite Hr.
    destruct Hb as [_ Hb]. rewrite (Hb (conj eq_refl eq_refl)) in *.
    split; [done | by apply Hc].
Defined.

Lemma C7_counterexample :
  (let w := {| trx := set_mTxBandwidthParams
                        {| min := 100000000; step := 0; max := 100000000 |}
                        new;
               log := [] |} in
   in_range (mTxBandwidthParams (trx w)) 100000000 = true
   ∧ AdiTrxAdrv9009.setTxBandwidth (fun _ => true) 100000000 w
     = Returns (false, w))
  ∧ (in_range (mTxLoFrequencyParams (trx (lo_world 915000000))) 70000000
     = true
     ∧ ∃ w',
         AdiTrxAdrv9009.setTxLoFrequency (fun _ => false) 70000000
           (lo_world 915000000)
         = Returns (false, w')
         ∧ mTxLoFrequency (trx w') = 915000000
         ∧ log w'
           = [iio_channel_attr_write_longlong TxLoChan "frequency" 70000000]).
Proof.
  split; [split; reflexivity |].
  split; [reflexivity |].
  eexists. split; [reflexivity |]. split; reflexivity.
Qed.

(** C10 (amended): [getSignalData] throws [std::out_of_range] on a signal
    without a frame.  On a signal with at
    least one frame it returns, keeps the signal, and caches the number of
    frames and the length of the first frame in [uint16_t] members, that
    is modulo 65 536; the cached values are the sizes themselves when the
    sizes are below 65 536. *)
Theorem C10_getSignalData_needs_a_frame (aSignalData : Dataset.SignalData)
    (w : World) :
  (Dataset.frameDataVec aSignalData = [] →
   getSignalData aSignalData w = OutOfRange)
  ∧ (∀ (frame0 : Dataset.FrameData) (rest : list Dataset.FrameData),
       Dataset.frameDataVec aSignalData = frame0 :: rest →
       ∃ w' : World,
         getSignalData aSignalData w = Returns (tt, w')
         ∧ log w' = log w
         ∧ mSignalData (trx w') = aSignalData
         ∧ mFramesNr (trx w')
           = Z.of_nat (length (Dataset.frameDataVec aSignalData)) mod 65536
         ∧ mFrameLength (trx w') = Z.of_nat (length frame0) mod 65536
         ∧ (Z.of_nat (length (Dataset.frameDataVec aSignalData)) < 65536 →
            mFramesNr (trx w')
            = Z.of_nat (length (Dataset.frameDataVec aSignalData)))
         ∧ (Z.of_nat (length frame0) < 65536 →
            mFrameLength (trx w') = Z.of_nat (length frame0))).
Proof.
  destruct w as [t lg]. unfold getSignalData. split.
  - intros E. rewrite E. reflexivity.
  - intros frame0 rest E. rewrite E.
    eexists. split; [reflexivity |]. simpl.
    repeat split; unfold wrap16; try reflexivity.
    + intros H. apply Z.mod_small. lia.
    + intros H. apply Z.mod_small. lia.
Qed.

Lemma C10_getSignalData_needs_a_frame_witness :
  ∃ w' : World,
    getSignalData
      {| Dataset.frameDataVec :=
           [[{| Dataset.i := 1; Dataset.q := 0 |};
             {| Dataset.i := 0; Dataset.q := 1 |}]];
         Dataset.maxVal := 1 |}
      {| trx := new; log := [] |}
    = Returns (tt, w')
    ∧ mFramesNr (trx w') = 1 ∧ mFrameLength (trx w') = 2.
Proof.
  destruct (proj2 (C10_getSignalData_needs_a_frame
                     {| Dataset.frameDataVec :=
                          [[{| Dataset.i := 1; Dataset.q := 0 |};
                            {| Dataset.i := 0; Dataset.q := 1 |}]];
                        Dataset.maxVal := 1 |}
                     {| trx := new; log := [] |}) _ _ eq_refl)
    as (w' & Hr & _ & _ & _ & _ & Hn & Hl).
  exists w'. split; [exact Hr |]. split; [apply Hn | apply Hl]; simpl; lia.
Defined.

Lemma C10_counterexample :
  let aSignalData :=
    {| Dataset.frameDataVec := replicate (Z.to_nat 65536) [];
       Dataset.maxVal := 1 |} in
  Dataset.frameDataVec aSignalData ≠ []
  ∧ ∃ w' : World,
      getSignalData aSignalData {| trx := new; log := [] |}
      = Returns (tt, w')
      ∧ mFramesNr (trx w') = 0
      ∧ Z.of_nat (length (Dataset.frameDataVec aSignalData)) = 65536.
Proof.
  split; [discriminate |].
  eexists. split; [reflexivity |]. split; vm_compute; reflexivity.
Qed.
End SetterFacts.

(** ** Modulation: the lookup of an alias, types and families *)

Section ModulationLookupFacts.
Import Modulation AliasSpec ModulationKinds.

Lemma existsb_eqb_elem (s : string) (l : list string) :
  existsb (fun a => String.eqb a s) l = true ↔ s ∈ l.
Proof.
  rewrite existsb_exists. split.
  - intros (a & Ha & E). apply String.eqb_eq in E as ->.
    by apply list_elem_of_In.
  - intros H. exists s. split; [by apply list_elem_of_In |].
    apply String.eqb_refl.
Qed.

(** A name that the lookup returns has the string among its aliases. *)
Lemma getModulationNameIn_sound (tbl : AliasTable) (s : string)
    (n : ModulationName) :
  getModulationNameIn tbl s = n → n ≠ NAME_UNKNOWN →
  ∃ l, (n, l) ∈ tbl ∧ s ∈ l.
Proof.
  induction tbl as [| [n' l'] rest IH]; simpl; intros E Hn.
  - congruence.
  - destruct (is_unknown n').
    { destruct (IH E Hn) as (l & Hin & Hs). exists l.
      split; [by apply elem_of_cons; right | done]. }
    destruct (existsb _ l') eqn:Ex.
    + subst n'. exists l'. split; [by apply elem_of_cons; left |].
      by apply existsb_eqb_elem.
    + destruct (IH E Hn) as (l & Hin & Hs). exists l.
      split; [by apply elem_of_cons; right | done].
Qed.

(** A string that is an alias of a name other than [NAME_UNKNOWN] is found. *)
Lemma getModulationNameIn_found (tbl : AliasTable) (s : string)
    (n : ModulationName) (l : list string) :
  (n, l) ∈ tbl → s ∈ l → n ≠ NAME_UNKNOWN →
  getModulationNameIn tbl s ≠ NAME_UNKNOWN.
Proof.
  induction tbl as [| [n' l'] rest IH]; simpl; intros Hin Hs Hn.
  - by apply elem_of_nil in Hin.
  - apply elem_of_cons in Hin as [[= <- <-] | Hin].
    + destruct (is_unknown n) eqn:E; [by apply is_unknown_spec in E |].
      apply existsb_eqb_elem in Hs as ->. done.
    + destruct (is_unknown n') eqn:E; [by apply IH |].
      destruct (existsb _ l'); [| by apply IH].
      intros ->. done.
Qed.

(** X1: in an alias table that is ordered by name and that
    [verifyAliasNames] accepts, the lookup of a string is exact: it gives a
    name other than [NAME_UNKNOWN] if and only if the string is one of the
    aliases of that name, and it gives [NAME_UNKNOWN] if and only if the
    string is an alias of no name other than [NAME_UNKNOWN]. *)
Theorem verified_table_lookup_is_exact (tbl : AliasTable) (s : string)
    (n : ModulationName) :
  map_ordered tbl = true →
  fst (verifyAliasNamesIn tbl) = true →
  n ≠ NAME_UNKNOWN →
  (getModulationNameIn tbl s = n ↔ ∃ l, (n, l) ∈ tbl ∧ s ∈ l)
  ∧ (getModulationNameIn tbl s = NAME_UNKNOWN
     ↔ ∀ n' l', (n', l') ∈ tbl → n' ≠ NAME_UNKNOWN → s ∉ l').
Proof.
  intros Hord Hver Hn.
  assert (aliases_injective tbl) as Hinj.
  { unfold verifyAliasNamesIn in Hver.
    apply scanMapOne_status in Hver as [_ Hsc].
    by apply (scanned_spec tbl Hord) in Hsc as [_ Hinj]. }
  split; split.
  - intros E. by apply getModulationNameIn_sound.
  - intros (l & Hin & Hs).
    destruct (decide (getModulationNameIn tbl s = n)) as [| Hne]; [done |].
    pose proof (getModulationNameIn_found tbl s n l Hin Hs Hn) as Hfound.
    destruct (getModulationNameIn_sound tbl s _ eq_refl Hfound)
      as (l' & Hin' & Hs').
    exfalso. by apply (Hinj _ _ _ _ s Hin' Hin).
  - intros E n' l' Hin Hn' Hs.
    by apply (getModulationNameIn_found tbl s n' l' Hin Hs Hn').
  - intros Hnone.
    destruct (decide (getModulationNameIn tbl s = NAME_UNKNOWN))
      as [| Hne]; [done |].
    destruct (getModulationNameIn_sound tbl s _ eq_refl Hne)
      as (l' & Hin' & Hs').
    exfalso. by apply (Hnone _ _ Hin' Hne).
Qed.

Lemma verified_table_lookup_is_exact_witness :
  (getModulationNameIn MODULATION_NAME_ALIAS "PSK4" = NAME_QPSK
   ↔ ∃ l, (NAME_QPSK, l) ∈ MODULATION_NAME_ALIAS ∧ "PSK4"%string ∈ l)
  ∧ (getModulationNameIn MODULATION_NAME_ALIAS "PSK4" = NAME_UNKNOWN
     ↔ ∀ n' l', (n', l') ∈ MODULATION_NAME_ALIAS →
                n' ≠ NAME_UNKNOWN → "PSK4"%string ∉ l').
Proof.
  refine (verified_table_lookup_is_exact MODULATION_NAME_ALIAS "PSK4"
            NAME_QPSK eq_refl eq_refl _).
  discriminate.
Defined.

(** X2: the type and the family of a modulation agree.  [getType] is
    [TYPE_ANALOG] exactly for the families AM, FM and PM and [TYPE_DIGITAL]
    exactly for the families APSK, ASK, FSK, PSK, PAM and QAM, although the
    first is computed from the range of the enumerator and the second by a
    [switch] over the names; both are unknown, and both strings are
    "Unknown", for [NAME_UNKNOWN] only. *)
Theorem type_agrees_with_family (n : ModulationName) :
  (getType n = TYPE_ANALOG
   ↔ getFamily n ∈ [FAMILY_AM; FAMILY_FM; FAMILY_PM])
  ∧ (getType n = TYPE_DIGITAL
     ↔ getFamily n ∈ [FAMILY_APSK; FAMILY_ASK; FAMILY_FSK; FAMILY_PSK;
                      FAMILY_PAM; FAMILY_QAM])
  ∧ (getType n = TYPE_UNKNOWN ↔ n = NAME_UNKNOWN)
  ∧ (getFamily n = FAMILY_UNKNOWN ↔ n = NAME_UNKNOWN)
  ∧ (getTypeString n = "Unknown"%string ↔ n = NAME_UNKNOWN)
  ∧ (getFamilyString n = "Unknown"%string ↔ n = NAME_UNKNOWN).
Proof.
  destruct n; cbv [getTypeString getFamilyString getType getFamily
                   enum_value Z.leb Z.compare Pos.compare Pos.compare_cont
                   andb];
    split_and!; (split; intros H);
    first
      [ reflexivity
      | discriminate H
      | by repeat first [apply list_elem_of_here | apply list_elem_of_further]
      | (exfalso;
         repeat (apply elem_of_cons in H as [H | H]; [discriminate H |]);
         by apply elem_of_nil in H) ].
Qed.

End ModulationLookupFacts.

(** ** DatasetParser: [removeDuplicates] *)

Section RemoveDuplicatesFacts.
Import Modulation DatasetParser.

Section Generic.
Context {A : Type} `{EqDecision A} (key : A → Z) (R : relation A)
  `{∀ x y, Decision (R x y)}.
Hypothesis R_key : ∀ a b, R a b ↔ key a <= key b.
Hypothesis key_inj : ∀ a b, key a = key b → a = b.

#[local] Instance R_key_transitive : Transitive R.
Proof. intros a b c. rewrite !R_key. lia. Qed.

#[local] Instance R_key_total : Total R.
Proof. intros a b. rewrite !R_key. lia. Qed.

#[local] Instance R_key_antisymm : AntiSymm (=) R.
Proof. intros a b. rewrite !R_key. intros. apply key_inj. lia. Qed.

Lemma StronglySorted_NoDup_strict (l : list A) :
  StronglySorted R l → NoDup l →
  StronglySorted (fun a b => key a < key b) l.
Proof.
  induction 1 as [| a l Hl IH Ha]; intros Hnd; constructor.
  - apply IH. by apply NoDup_cons in Hnd as [_ ?].
  - apply NoDup_cons in Hnd as [Hnotin _].
    apply Forall_forall. intros b Hb.
    rewrite Forall_forall in Ha. pose proof (Ha b Hb) as Hab.
    apply R_key in Hab.
    destruct (decide (key a = key b)) as [E | Hne]; [| lia].
    apply key_inj in E as ->. done.
Qed.

Lemma sort_distinct_spec (l : list A) :
  StronglySorted (fun a b => key a < key b) (merge_sort R (remove_dups l))
  ∧ (∀ x, x ∈ merge_sort R (remove_dups l) ↔ x ∈ l)
  ∧ merge_sort R (remove_dups (merge_sort R (remove_dups l)))
    = merge_sort R (remove_dups l).
Proof.
  assert (NoDup (merge_sort R (remove_dups l))) as Hnd.
  { rewrite merge_sort_Permutation. apply NoDup_remove_dups. }
  split; [| split].
  - apply StronglySorted_NoDup_strict; [| done].
    apply StronglySorted_merge_sort; apply _.
  - intros x. rewrite merge_sort_Permutation. apply elem_of_remove_dups.
  - apply (StronglySorted_unique R).
    + apply StronglySorted_merge_sort; apply _.
    + apply StronglySorted_merge_sort; apply _.
    + rewrite merge_sort_Permutation.
      apply NoDup_Permutation; [apply NoDup_remove_dups | done |].
      intros x. apply elem_of_remove_dups.
Qed.

(** The result depends on the set of the elements only. *)
Lemma sort_distinct_ext (l1 l2 : list A) :
  (∀ x, x ∈ l1 ↔ x ∈ l2) →
  merge_sort R (remove_dups l1) = merge_sort R (remove_dups l2).
Proof.
  intros Hel. apply (StronglySorted_unique R).
  - apply StronglySorted_merge_sort; apply _.
  - apply StronglySorted_merge_sort; apply _.
  - rewrite !merge_sort_Permutation.
    apply NoDup_Permutation; [apply NoDup_remove_dups.. |].
    intros x. by rewrite !elem_of_remove_dups.
Qed.

(** A strictly ascending vector is left as it is. *)
Lemma sort_distinct_sorted (l : list A) :
  StronglySorted (fun a b => key a < key b) l →
  merge_sort R (remove_dups l) = l.
Proof.
  intros Hl.
  assert (NoDup l) as Hnd.
  { induction Hl as [| a l Hl IH Ha]; constructor; [| done].
    intros Hin. rewrite Forall_forall in Ha. specialize (Ha a Hin). lia. }
  apply (StronglySorted_unique R).
  - apply StronglySorted_merge_sort; apply _.
  - clear Hnd. induction Hl as [| a l Hl IH Ha]; constructor; [done |].
    eapply Forall_impl; [exact Ha |].
    intros b Hab. apply R_key. simpl in Hab. lia.
  - rewrite merge_sort_Permutation.
    apply NoDup_Permutation; [apply NoDup_remove_dups | done |].
    intros x. apply elem_of_remove_dups.
Qed.

End Generic.

(** X3: [removeDuplicates], on integers and on modulation names, returns
    a strictly ascending vector with the same elements as its argument.  It
    is idempotent, it depends on the set of the elements only, and it leaves
    a strictly ascending vector as it is. *)
Theorem removeDuplicates_sorts_the_distinct_elements :
  (∀ aVector : list Z,
     StronglySorted Z.lt (removeDuplicates_int aVector)
     ∧ (∀ x, x ∈ removeDuplicates_int aVector ↔ x ∈ aVector)
     ∧ removeDuplicates_int (removeDuplicates_int aVector)
       = removeDuplicates_int aVector
     ∧ (∀ other : list Z,
          (∀ x, x ∈ aVector ↔ x ∈ other) →
          removeDuplicates_int aVector = removeDuplicates_int other)
     ∧ (StronglySorted Z.lt aVector →
        removeDuplicates_int aVector = aVector))
  ∧ (∀ aVector : list ModulationName,
       StronglySorted (fun a b => enum_value a < enum_value b)
         (removeDuplicates_mod aVector)
       ∧ (∀ x, x ∈ removeDuplicates_mod aVector ↔ x ∈ aVector)
       ∧ removeDuplicates_mod (removeDuplicates_mod aVector)
         = removeDuplicates_mod aVector
       ∧ (∀ other : list ModulationName,
            (∀ x, x ∈ aVector ↔ x ∈ other) →
            removeDuplicates_mod aVector = removeDuplicates_mod other)
       ∧ (StronglySorted (fun a b => enum_value a < enum_value b) aVector →
          removeDuplicates_mod aVector = aVector)).
Proof.
  assert (∀ a b, enum_value a = enum_value b → a = b) as Hinj.
  { intros a b E. destruct a, b; (reflexivity || discriminate E). }
  split; intros aVector.
  - destruct (sort_distinct_spec (fun z : Z => z) Z.le
                ltac:(done) ltac:(done) aVector) as (H1 & H2 & H3).
    split; [exact H1 |]. split; [exact H2 |]. split; [exact H3 |]. split.
    + intros other. by apply (sort_distinct_ext (fun z : Z => z) Z.le).
    + by apply (sort_distinct_sorted (fun z : Z => z) Z.le).
  - destruct (sort_distinct_spec enum_value name_le
                ltac:(done) Hinj aVector) as (H1 & H2 & H3).
    split; [exact H1 |]. split; [exact H2 |]. split; [exact H3 |]. split.
    + intros other. by apply (sort_distinct_ext enum_value name_le).
    + by apply (sort_distinct_sorted enum_value name_le).
Qed.

Lemma removeDuplicates_sorts_the_distinct_elements_witness :
  removeDuplicates_int [-20; -18; 0; 18] = [-20; -18; 0; 18].
Proof.
  refine (proj2 (proj2 (proj2 (proj2
            (proj1 removeDuplicates_sorts_the_distinct_elements
               [-20; -18; 0; 18])))) _).
  repeat constructor; lia.
Defined.

End RemoveDuplicatesFacts.

(** ** CsvParser: the line loop gives the tokens back *)

Section TokenizerFacts.
Import Dataset CsvParser TokenSpec TokenizerSpec.

Lemma index_char_shift (c : ascii) (s : string) (k : nat) :
  ∀ pre : string,
    String.index (String.length pre + k) (String c EmptyString) (pre +:+ s)
    = (fun m => String.length pre + m)%nat
        <$> String.index k (String c EmptyString) s.
Proof.
  induction pre as [| a pre IH].
  - change (String.length "" + k)%nat with k.
    change ("" +:+ s) with s.
    by destruct (String.index k (String c EmptyString) s).
  - change (String a pre +:+ s) with (String a (pre +:+ s)).
    change (String.length (String a pre) + k)%nat
      with (S (String.length pre + k)).
    cbn [String.index]. rewrite IH.
    by destruct (String.index k (String c EmptyString) s).
Qed.

Lemma substring_shift (s : string) (k m : nat) :
  ∀ pre : string,
    String.substring (String.length pre + k) m (pre +:+ s)
    = String.substring k m s.
Proof. induction pre as [| a pre IH]; simpl; [reflexivity | exact IH]. Qed.

Lemma substring_all (s : string) :
  String.substring 0 (String.length s) s = s.
Proof. induction s as [| a s IH]; simpl; [reflexivity | by rewrite IH]. Qed.

Lemma absent_from_weaken (c : ascii) :
  ∀ (s : string) (n : nat),
    absent_from 0 c s = true → absent_from n c s = true.
Proof.
  induction s as [| a s IH]; intros n H; [reflexivity |].
  destruct n as [| n]; [exact H |].
  apply absent_from_head in H as [_ H]. simpl. by apply IH.
Qed.

Lemma string_app_assoc (s1 s2 s3 : string) :
  (s1 +:+ s2) +:+ s3 = s1 +:+ (s2 +:+ s3).
Proof.
  induction s1 as [| a s1 IH]; [reflexivity |].
  change (String a ((s1 +:+ s2) +:+ s3) = String a (s1 +:+ (s2 +:+ s3))).
  by f_equal.
Qed.

Lemma string_app_nil_r (s : string) : s +:+ "" = s.
Proof.
  induction s as [| a s IH]; [reflexivity |].
  change (String a (s +:+ "") = String a s). by f_equal.
Qed.

Lemma tokensFrom_done (fuel : nat) (line : string) :
  tokensFrom fuel line (String.length line) = [].
Proof.
  destruct fuel; [reflexivity |]. simpl.
  by rewrite Nat.ltb_irrefl.
Qed.

Lemma tokensFrom_last (fuel : nat) (pre t : string) :
  plain_token t →
  tokensFrom (S fuel) (pre +:+ t) (String.length pre) = [t].
Proof.
  intros [Ht Hcomma].
  assert (1 ≤ String.length t)%nat as Hlen
    by (destruct t; [done | simpl; lia]).
  cbn [tokensFrom]. rewrite length_append.
  assert ((String.length pre <? String.length pre + String.length t)%nat
          = true) as -> by (apply Nat.ltb_lt; lia).
  rewrite (index_char_shift "," t 1 pre).
  rewrite (index_char_absent "," t 1) by (by apply absent_from_weaken).
  cbn [fmap option_fmap option_map].
  replace (String.length pre + String.length t - String.length pre)%nat
    with (String.length t) by lia.
  rewrite <- (Nat.add_0_r (String.length pre)) at 1.
  by rewrite substring_shift, substring_all.
Qed.

Lemma tokensFrom_comma (fuel : nat) (pre t more : string) :
  plain_token t →
  tokensFrom (S fuel) (pre +:+ (t +:+ String "," more)) (String.length pre)
  = t :: tokensFrom fuel (pre +:+ (t +:+ String "," more))
           (String.length pre + String.length t + 1).
Proof.
  intros [Ht Hcomma].
  assert (1 ≤ String.length t)%nat as Hlen
    by (destruct t; [done | simpl; lia]).
  cbn [tokensFrom]. rewrite !length_append.
  assert ((String.length pre
           <? String.length pre
              + (String.length t + String.length (String "," more)))%nat
          = true) as -> by (apply Nat.ltb_lt; lia).
  rewrite (index_char_shift "," _ 1 pre).
  rewrite (index_char_append "," more t 1)
    by (by apply absent_from_weaken || done).
  cbn [fmap option_fmap option_map].
  replace (String.length pre + String.length t - String.length pre)%nat
    with (String.length t) by lia.
  rewrite <- (Nat.add_0_r (String.length pre)) at 1.
  by rewrite substring_shift, substring_prefix.
Qed.

(** The loop, started behind [pre], gives back the tokens that follow. *)
Lemma tokensFrom_concat (trail : string) :
  trail = EmptyString ∨ trail = ","%string →
  ∀ (toks : list string) (pre : string) (fuel : nat),
    Forall plain_token toks →
    (length toks ≤ fuel)%nat →
    toks ≠ [] ∨ trail = EmptyString →
    tokensFrom fuel (pre +:+ (String.concat "," toks +:+ trail))
      (String.length pre)
    = toks.
Proof.
  intros Htrail.
  induction toks as [| t rest IH]; intros pre fuel Hok Hfuel Hne.
  - destruct Hne as [? | ->]; [done |].
    change (String.concat "," [] +:+ "") with ""%string.
    rewrite string_app_nil_r. apply tokensFrom_done.
  - apply Forall_cons in Hok as [Ht Hrest].
    destruct fuel as [| fuel]; [simpl in Hfuel; lia |].
    destruct rest as [| t2 rest'].
    + change (String.concat "," [t]) with t.
      destruct Htrail as [-> | ->].
      * rewrite string_app_nil_r. by apply tokensFrom_last.
      * change (t +:+ ",") with (t +:+ String "," "").
        rewrite tokensFrom_comma by done. f_equal.
        replace (String.length pre + String.length t + 1)%nat
          with (String.length (pre +:+ (t +:+ String "," "")))
          by (rewrite !length_append; simpl; lia).
        apply tokensFrom_done.
    + change (String.concat "," (t :: t2 :: rest'))
        with (t +:+ ("," +:+ String.concat "," (t2 :: rest'))).
      set (tail := String.concat "," (t2 :: rest')) in *.
      rewrite (string_app_assoc t _ trail).
      change (("," +:+ tail) +:+ trail) with (String "," (tail +:+ trail)).
      rewrite tokensFrom_comma by done. f_equal.
      specialize (IH ((pre +:+ t) +:+ ",") fuel Hrest).
      rewrite !length_append in IH. change (String.length ",") with 1%nat in IH.
      assert (pre +:+ (t +:+ String "," (tail +:+ trail))
              = ((pre +:+ t) +:+ ",") +:+ (tail +:+ trail)) as ->
        by (rewrite !string_app_assoc; reflexivity).
      apply IH; [simpl in Hfuel |- *; lia | by left].
Qed.

(** X4: the line loop gives back the tokens of a line.  For tokens that
    are not empty and hold no comma, the line made of the tokens with a
    comma between them is cut into exactly these tokens, also when a comma
    ends the line, and the frame of the line is [getPoint] of each token in
    order. *)
Theorem lineTokens_of_joined_tokens (toks : list string) :
  Forall plain_token toks →
  lineTokens (String.concat "," toks) = toks
  ∧ (toks ≠ [] → lineTokens (String.concat "," toks +:+ ",") = toks)
  ∧ lineFrame (String.concat "," toks) = getPoint <$> toks.
Proof.
  intros Hok.
  assert (length toks ≤ String.length (String.concat "," toks))%nat as Hlen.
  { induction Hok as [| t [| t2 rest] [Ht _] Hrest IH].
    - simpl. lia.
    - destruct t; [done | simpl; lia].
    - change (String.concat "," (t :: t2 :: rest))
        with (t +:+ "," +:+ String.concat "," (t2 :: rest)).
      set (tail := String.concat "," (t2 :: rest)) in *.
      rewrite !length_append. change (String.length ",") with 1%nat.
      cbn [length] in *. lia. }
  assert (lineTokens (String.concat "," toks) = toks) as Hplain.
  { unfold lineTokens.
    pose proof (tokensFrom_concat "" (or_introl eq_refl) toks ""
                  (String.length (String.concat "," toks)) Hok Hlen
                  (or_intror eq_refl)) as H.
    rewrite string_app_nil_r in H. exact H. }
  split; [exact Hplain |]. split.
  - intros Hne. unfold lineTokens.
    apply (tokensFrom_concat "," (or_intror eq_refl) toks ""); [done | |].
    + rewrite length_append. lia.
    + by left.
  - unfold lineFrame. by rewrite Hplain.
Qed.

Lemma lineTokens_of_joined_tokens_witness :
  lineTokens (String.concat "," ["1.5+2.25i"; "-0.5-0.75i"; "0+0i"]%string)
  = ["1.5+2.25i"; "-0.5-0.75i"; "0+0i"]%string
  ∧ (["1.5+2.25i"; "-0.5-0.75i"; "0+0i"]%string ≠ [] →
     lineTokens
       (String.concat "," ["1.5+2.25i"; "-0.5-0.75i"; "0+0i"]%string +:+ ",")
     = ["1.5+2.25i"; "-0.5-0.75i"; "0+0i"]%string)
  ∧ lineFrame (String.concat "," ["1.5+2.25i"; "-0.5-0.75i"; "0+0i"]%string)
    = getPoint <$> ["1.5+2.25i"; "-0.5-0.75i"; "0+0i"]%string.
Proof.
  refine (lineTokens_of_joined_tokens
            ["1.5+2.25i"; "-0.5-0.75i"; "0+0i"]%string _).
  repeat constructor; discriminate.
Defined.

End TokenizerFacts.

(** ** CsvParser: what a parse leaves behind *)

Section CsvStoreFacts.
Import Modulation Dataset DatasetParser CsvParser CsvClosedForm HisarModSpec.
Import StreamExamples.

Lemma seriesNames_length : length seriesNames = 26%nat.
Proof. reflexivity. Qed.

Lemma seriesNames_lookup (j : nat) :
  seriesNames !! (j mod 26)%nat = Some (modOf j).
Proof.
  unfold modOf.
  destruct (lookup_lt_is_Some_2 seriesNames (j mod 26)%nat) as [c ->];
    [rewrite seriesNames_length; lia | reflexivity].
Qed.

Lemma uniqueMods_elements (m : nat) (x : ModulationName) :
  x ∈ modOf <$> seq 0 m ↔ x ∈ take m seriesNames.
Proof.
  rewrite list_elem_of_fmap, elem_of_take. split.
  - intros (j & -> & Hj). apply elem_of_seq in Hj.
    exists (j mod 26)%nat. split; [apply seriesNames_lookup | lia].
  - intros (i & Hi & Him).
    assert (i < 26)%nat as Hi26
      by (apply lookup_lt_Some in Hi; by rewrite seriesNames_length in Hi).
    exists i. split; [| apply elem_of_seq; lia].
    pose proof (seriesNames_lookup i) as H.
    rewrite Nat.mod_small in H by done. congruence.
Qed.

Lemma uniqueMods_count (m : nat) :
  length (removeDuplicates_mod (modOf <$> seq 0 m)) = (m `min` 26)%nat.
Proof.
  unfold removeDuplicates_mod.
  rewrite (Permutation_length (merge_sort_Permutation _ _)).
  assert (remove_dups (modOf <$> seq 0 m) ≡ₚ take m seriesNames) as ->.
  { apply NoDup_Permutation.
    - apply NoDup_remove_dups.
    - eapply sublist_NoDup; [apply seriesNames_NoDup | apply sublist_take].
    - intros x. rewrite elem_of_remove_dups. apply uniqueMods_elements. }
  rewrite length_take, seriesNames_length. lia.
Qed.

Lemma uniqueSnrs_elements (b : nat) (x : Z) :
  x ∈ snrOf <$> seq 0 (S b) ↔ x ∈ snrs_upto (S (b / 26)).
Proof.
  unfold snrs_upto. rewrite !list_elem_of_fmap. split.
  - intros (j & -> & Hj). apply elem_of_seq in Hj.
    exists (j / 26)%nat. split; [unfold snrOf; lia |].
    apply elem_of_seq. lia.
  - intros (k & -> & Hk). apply elem_of_seq in Hk.
    exists (26 * k)%nat. split; [unfold snrOf; lia |].
    apply elem_of_seq. lia.
Qed.

Lemma snrs_upto_NoDup (c : nat) : NoDup (snrs_upto c).
Proof.
  unfold snrs_upto. apply NoDup_fmap_2; [| apply NoDup_seq].
  intros a b E. lia.
Qed.

Lemma uniqueSnrs_count (b : nat) :
  length (removeDuplicates_int (snrOf <$> seq 0 (S b))) = S (b / 26).
Proof.
  unfold removeDuplicates_int.
  rewrite (Permutation_length (merge_sort_Permutation _ _)).
  assert (remove_dups (snrOf <$> seq 0 (S b)) ≡ₚ snrs_upto (S (b / 26)))
    as ->.
  { apply NoDup_Permutation.
    - apply NoDup_remove_dups.
    - apply snrs_upto_NoDup.
    - intros x. rewrite elem_of_remove_dups. apply uniqueSnrs_elements. }
  unfold snrs_upto. by rewrite length_fmap, length_seq.
Qed.

Lemma enum_value_inj (a b : ModulationName) :
  enum_value a = enum_value b → a = b.
Proof. intros E. destruct a, b; (reflexivity || discriminate E). Qed.

Lemma uniqueMods_full (m : nat) :
  (26 ≤ m)%nat →
  removeDuplicates_mod (modOf <$> seq 0 m) = hisar_modulations.
Proof.
  intros Hm.
  transitivity (removeDuplicates_mod seriesNames); [| by vm_compute].
  apply (sort_distinct_ext enum_value name_le);
    [done | apply enum_value_inj |].
  intros x. rewrite uniqueMods_elements.
  by rewrite take_ge by (rewrite seriesNames_length; lia).
Qed.

Lemma uniqueSnrs_full (b : nat) :
  (b / 26 = 19)%nat →
  removeDuplicates_int (snrOf <$> seq 0 (S b)) = hisar_snrs.
Proof.
  intros Hb.
  transitivity (removeDuplicates_int hisar_snrs); [| by vm_compute].
  apply (sort_distinct_ext (fun z : Z => z) Z.le); [done | done |].
  intros x. rewrite uniqueSnrs_elements. by rewrite Hb.
Qed.

(** The parse of a well-formed file, from the closed form of the loop. *)
Lemma parseDataset_closed (fs : FileSystem) (p : DatasetParser)
    (lines : list string) :
  fs (DatasetParser.mFileName p) = Some lines →
  well_formed lines →
  Z.of_nat (length lines) <= MAX_LINES →
  parseDataset fs p
  = Some
      {| DatasetParser.mFileName := DatasetParser.mFileName p;
         mStatus :=
           (26 =? Z.of_nat
                    (length (removeDuplicates_mod
                               (uniqueModVec
                                  (stateAfter lines (length lines))))))
           && (20 =? Z.of_nat
                       (length (removeDuplicates_int
                                  (uniqueSnrVec
                                     (stateAfter lines (length lines))))));
         mUniqueModVec :=
           removeDuplicates_mod
             (uniqueModVec (stateAfter lines (length lines)));
         mUniqueSnrVec :=
           removeDuplicates_int
             (uniqueSnrVec (stateAfter lines (length lines)));
         mSingleModulation := mSingleModulation p;
         mMap := storeUpTo lines (length lines / 500) |}.
Proof.
  intros Hfs Hwf Hmax. unfold parseDataset. rewrite Hfs.
  rewrite parseLines_closed by done.
  cbn [mbind option_bind]. rewrite stateAfter_map.
  change (MODULATIONS_NR DATASET_SOURCE_HISARMOD_2019_1) with 26.
  change (SNRS_NR DATASET_SOURCE_HISARMOD_2019_1) with 20.
  rewrite orb_false_l, negb_orb, !negb_involutive. reflexivity.
Qed.

(** What a parse of an accepted file leaves in the parser. *)
Lemma parseDataset_accepted (fs : FileSystem) (p : DatasetParser)
    (lines : list string) :
  fs (DatasetParser.mFileName p) = Some lines →
  well_formed lines →
  247000 < Z.of_nat (length lines) <= 260000 →
  ∃ p' : DatasetParser,
    parseDataset fs p = Some p'
    ∧ mStatus p' = true
    ∧ DatasetParser.mMap p' = storeUpTo lines (length lines / 500)
    ∧ mUniqueModVec p' = hisar_modulations
    ∧ mUniqueSnrVec p' = hisar_snrs.
Proof.
  intros Hfs Hwf Hlen.
  rewrite (parseDataset_closed fs p lines Hfs Hwf)
    by (unfold MAX_LINES; lia).
  eexists. split; [reflexivity |].
  cbn [mStatus DatasetParser.mMap mUniqueModVec mUniqueSnrVec].
  destruct (length lines) as [| m] eqn:E; [lia |].
  cbn [stateAfter uniqueModVec uniqueSnrVec].
  rewrite uniqueMods_count, uniqueSnrs_count.
  rewrite uniqueMods_full, uniqueSnrs_full by lia.
  split; [| done].
  rewrite andb_true_iff, !Z.eqb_eq. lia.
Qed.

(** X5: on a file of well-formed lines [parseDataset] returns, and the
    number of lines alone decides the status: it is [true] if and only if
    the file has more than 247 000 and at most 260 000 lines.  The map holds
    one signal for every complete block of 500 lines, and with the status
    [true] the two vectors are the 26 modulations of the series, by
    ascending enumerator, and the 20 SNRs from -20 to 18. *)
Theorem parseDataset_accepts_by_line_count (fs : FileSystem)
    (p : DatasetParser) (lines : list string) :
  fs (DatasetParser.mFileName p) = Some lines →
  well_formed lines →
  Z.of_nat (length lines) <= MAX_LINES →
  ∃ p' : DatasetParser,
    parseDataset fs p = Some p'
    ∧ (mStatus p' = true ↔ 247000 < Z.of_nat (length lines) <= 260000)
    ∧ DatasetParser.mMap p' = storeUpTo lines (length lines / 500)
    ∧ size (DatasetParser.mMap p') = (length lines / 500)%nat
    ∧ (mStatus p' = true →
       mUniqueModVec p' = hisar_modulations
       ∧ mUniqueSnrVec p' = hisar_snrs).
Proof.
  intros Hfs Hwf Hmax.
  rewrite (parseDataset_closed fs p lines Hfs Hwf Hmax).
  eexists. split; [reflexivity |].
  cbn [mStatus DatasetParser.mMap mUniqueModVec mUniqueSnrVec].
  destruct (length lines) as [| m] eqn:E.
  { split; [split; [intros H; discriminate H | lia] |].
    split; [reflexivity |]. split; [apply storeUpTo_size |].
    intros H; discriminate H. }
  cbn [stateAfter uniqueModVec uniqueSnrVec].
  set (b := (m / 500)%nat).
  rewrite uniqueMods_count, uniqueSnrs_count.
  split; [| split; [reflexivity | split; [apply storeUpTo_size |]]].
  - rewrite andb_true_iff, !Z.eqb_eq. unfold b. lia.
  - rewrite andb_true_iff, !Z.eqb_eq.
    intros [H26 H20]. split.
    + apply uniqueMods_full. lia.
    + apply uniqueSnrs_full. lia.
Qed.

Lemma parseDataset_accepts_by_line_count_witness :
  ∃ p' : DatasetParser,
    parseDataset zero_fs DatasetParser.new = Some p'
    ∧ (mStatus p' = true ↔ 247000 < Z.of_nat (length zero_file) <= 260000)
    ∧ DatasetParser.mMap p' = storeUpTo zero_file (length zero_file / 500)
    ∧ size (DatasetParser.mMap p') = (length zero_file / 500)%nat
    ∧ (mStatus p' = true →
       mUniqueModVec p' = hisar_modulations
       ∧ mUniqueSnrVec p' = hisar_snrs).
Proof.
  refine (parseDataset_accepts_by_line_count zero_fs DatasetParser.new
            zero_file eq_refl (proj1 zero_file_well_formed) _).
  rewrite zero_file_length. unfold MAX_LINES. lia.
Defined.

Lemma parseLines_app (l1 l2 : list string) :
  ∀ st : LoopState,
    parseLines (l1 ++ l2) st
    = match parseLines l1 st with
      | Some (st', false) => parseLines l2 st'
      | r => r
      end.
Proof.
  induction l1 as [| l l1 IH]; intros st; [reflexivity |].
  simpl. destruct (lineRound st l) as [st' | st' |]; [apply IH | done..].
Qed.

Lemma lineRound_malformed (lines : list string) (n : nat) (l : string) :
  length (lineFrame l) ≠ 1024%nat →
  Z.of_nat n < MAX_LINES →
  ∃ st' : LoopState,
    lineRound (stateAfter lines n) l = Failed st'
    ∧ map st' = map (stateAfter lines n).
Proof.
  intros Hbad Hmax. unfold lineRound.
  assert (crtLineNr (stateAfter lines n) = Z.of_nat n) as ->
    by (destruct n; reflexivity).
  rewrite lineModInt_closed, mapping_closed.
  change (FRAME_LENGTH DATASET_SOURCE_HISARMOD_2019_1) with 1024.
  assert ((1024 =? Z.of_nat (length (lineFrame l))) = false) as ->
    by (apply Z.eqb_neq; lia).
  cbn [negb]. eexists. split; reflexivity.
Qed.

(** X6: a file that does not open leaves the status [false], the two
    vectors empty and the map empty.  A line that does not decode to 1024
    points after well-formed lines ends the parse with the status [false];
    the map then holds the signals of the complete blocks of 500 lines
    before that line, and nothing else. *)
Theorem parseDataset_fails_at_the_first_malformed_line :
  (∀ (fs : FileSystem) (p : DatasetParser),
     fs (DatasetParser.mFileName p) = None →
     parseDataset fs p
     = Some {| DatasetParser.mFileName := DatasetParser.mFileName p;
               mStatus := false; mUniqueModVec := []; mUniqueSnrVec := [];
               mSingleModulation := mSingleModulation p; mMap := ∅ |})
  ∧ (∀ (fs : FileSystem) (p : DatasetParser)
       (good : list string) (bad : string) (rest : list string),
       fs (DatasetParser.mFileName p) = Some (good ++ bad :: rest) →
       well_formed good →
       length (lineFrame bad) ≠ 1024%nat →
       Z.of_nat (length good) < MAX_LINES →
       ∃ p' : DatasetParser,
         parseDataset fs p = Some p'
         ∧ mStatus p' = false
         ∧ DatasetParser.mMap p' = storeUpTo good (length good / 500)
         ∧ size (DatasetParser.mMap p') = (length good / 500)%nat).
Proof.
  split.
  - intros fs p Hfs. unfold parseDataset. rewrite Hfs. reflexivity.
  - intros fs p good bad rest Hfs Hwf Hbad Hmax.
    unfold parseDataset. rewrite Hfs, parseLines_app.
    rewrite parseLines_closed by (done || lia).
    cbn [parseLines].
    destruct (lineRound_malformed good (length good) bad Hbad Hmax)
      as (st' & -> & Hmap).
    cbn [mbind option_bind]. eexists. split; [reflexivity |].
    cbn [mStatus DatasetParser.mMap]. rewrite Hmap, stateAfter_map.
    split; [reflexivity |]. split; [reflexivity | apply storeUpTo_size].
Qed.

Lemma parseDataset_fails_at_the_first_malformed_line_witness :
  ∃ p' : DatasetParser,
    parseDataset (fun _ => Some ["1+2i,3"%string]) DatasetParser.new
    = Some p'
    ∧ mStatus p' = false
    ∧ DatasetParser.mMap p' = storeUpTo [] (length ([] : list string) / 500)
    ∧ size (DatasetParser.mMap p') = (length ([] : list string) / 500)%nat.
Proof.
  refine (proj2 parseDataset_fails_at_the_first_malformed_line
            (fun _ => Some ["1+2i,3"%string])
            DatasetParser.new [] "1+2i,3"%string [] eq_refl _ _ _).
  - constructor.
  - vm_compute. discriminate.
  - vm_compute. reflexivity.
Defined.

(** *** The maximum that the loops keep *)

Lemma Qle_bool_false (a b : Q) : Qle_bool a b = false → (b < a)%Q.
Proof.
  intros H. apply Qnot_le_lt. intros Hle.
  apply Qle_bool_iff in Hle. congruence.
Qed.

Lemma updateMaxVal_spec (m : Q) (p : IQPoint) :
  (m <= updateMaxVal m p)%Q
  ∧ (Qabs (i p) <= updateMaxVal m p)%Q
  ∧ (Qabs (q p) <= updateMaxVal m p)%Q
  ∧ (updateMaxVal m p = m ∨ updateMaxVal m p = Qabs (i p)
     ∨ updateMaxVal m p = Qabs (q p)).
Proof.
  unfold updateMaxVal, Ieee.gt, Ieee.fabs.
  destruct (Qle_bool (Qabs (i p)) m) eqn:Ei; cbn [negb];
    [apply Qle_bool_iff in Ei | apply Qle_bool_false in Ei];
    (match goal with
     | |- context [Qle_bool (Qabs (q p)) ?x] =>
         destruct (Qle_bool (Qabs (q p)) x) eqn:Eq; cbn [negb];
         [apply Qle_bool_iff in Eq | apply Qle_bool_false in Eq]
     end);
    repeat split; try lra; tauto.
Qed.

Lemma frame_max_spec (frame : FrameData) :
  ∀ m : Q,
    let r := fold_left updateMaxVal frame m in
    (m <= r)%Q
    ∧ (∀ p, p ∈ frame → (Qabs (i p) <= r)%Q ∧ (Qabs (q p) <= r)%Q)
    ∧ (r = m ∨ ∃ p, p ∈ frame ∧ (r = Qabs (i p) ∨ r = Qabs (q p))).
Proof.
  induction frame as [| p frame IH]; intros m; cbn zeta.
  - simpl. split; [lra |]. split; [| by left].
    intros p Hp. by apply elem_of_nil in Hp.
  - simpl. destruct (IH (updateMaxVal m p)) as (Hle & Hb & Hatt).
    destruct (updateMaxVal_spec m p) as (Hm & Hi & Hq & Hu).
    split; [lra |]. split.
    + intros p' Hp'. apply elem_of_cons in Hp' as [-> | Hp'];
        [split; lra | by apply Hb].
    + destruct Hatt as [-> | (p' & Hp' & Hatt)].
      * destruct Hu as [-> | Hu]; [by left |].
        right. exists p. split; [apply elem_of_cons; by left | exact Hu].
      * right. exists p'. split; [apply elem_of_cons; by right | exact Hatt].
Qed.








End CsvStoreFacts.

(** ** AdiTrx: the buffer, starting and stopping *)

Section TxBufferFacts.
Import AdiTrx TxHal StreamingSpec TxStop BufferSpec.

Lemma live_buffers_app (iio : Iio) (l1 l2 : list IioCall) :
  live_buffers iio (l1 ++ l2) = live_buffers iio l1 + live_buffers iio l2.
Proof.
  unfold live_buffers. induction l1 as [| c l1 IH]; simpl; [lia |].
  rewrite IH. lia.
Qed.

(** What [resetTxBuffer] does, in every state. *)
Lemma resetTxBuffer_effect (iio : Iio) (n : Z) (c : bool) (w : World) :
  resetTxBuffer iio n c w
  = Returns
      ((n =? 0) || iio (iio_device_create_buffer n c),
       {| trx := set_mTxBuf
                   (negb (n =? 0) && iio (iio_device_create_buffer n c))
                   (set_mTxBufIqPairsCount n (trx w));
          log := log w
                 ++ (if mTxBuf (trx w) then [iio_buffer_destroy] else [])
                 ++ (if n =? 0 then []
                     else [iio_device_create_buffer n c]) |}).
Proof.
  destruct w as [t lg]. unfold resetTxBuffer.
  unfold mbind, M_bind, mret, M_ret, modify, get, call. cbn [trx log].
  destruct t as [buf cnt ? ? ? ? ? ? ? ? ? ? ? ? ?].
  unfold set_mTxBufIqPairsCount, set_mTxBuf. cbn.
  destruct buf; cbn; destruct (n =? 0); cbn;
    rewrite ?app_nil_r, <- ?app_assoc; try reflexivity.
Qed.

Lemma convertSlot_frame (S : Q) (sh i : Z) (w w' : World) (s : Z * Z) :
  convertSlot S sh i w = Returns (s, w') → w' = w.
Proof.
  destruct w as [t lg]. unfold convertSlot.
  unfold mbind at 1, M_bind at 1, get at 1. cbn [trx log].
  unfold mbind at 1, M_bind at 1, vector_at at 1.
  destruct (Dataset.frameDataVec (mSignalData t) !! _) as [frame |];
    [| done].
  unfold mret at 1, M_ret at 1.
  unfold mbind at 1, M_bind at 1, vector_at at 1.
  match goal with
  | |- context [match ?x with Some _ => _ | None => _ end] =>
      destruct x as [pt |]; [| done]
  end.
  unfold mret at 1, M_ret at 1.
  unfold convert, cast_int16, mbind, M_bind, mret, M_ret, undefined.
  repeat (match goal with
          | |- context [if ?b then _ else _] => destruct b
          end; try done).
  by intros [= _ <-].
Qed.

Lemma convertSlots_frame (S : Q) (sh : Z) (slots : list Z) :
  ∀ (w w' : World) (ss : list (Z * Z)),
    convertSlots S sh slots w = Returns (ss, w') →
    w' = w ∧ length ss = length slots.
Proof.
  induction slots as [| i rest IH]; intros w w' ss.
  - simpl. unfold mret, M_ret. by intros [= <- <-].
  - rewrite convertSlots_cons.
    destruct (convertSlot S sh i w) as [[s w1] | |] eqn:E1; [| done..].
    apply convertSlot_frame in E1 as ->.
    destruct (convertSlots S sh rest w) as [[ss1 w2] | |] eqn:E2; [| done..].
    apply IH in E2 as [-> Hlen]. intros [= <- <-].
    split; [reflexivity | simpl; by rewrite Hlen].
Qed.

(** What [startTxStreaming] has done when it returns. *)
Lemma startTxStreamingWith_effect (iio : Iio) (numerator : Q) (shift : Z)
    (w w' : World) :
  startTxStreamingWith iio numerator shift w = Returns (tt, w') →
  let n := mFrameLength (trx w) * mFramesNr (trx w) in
  let before :=
    log w ++ (if mTxBuf (trx w) then [iio_buffer_destroy] else [])
    ++ [iio_device_create_buffer n true] in
  n ≠ 0 ∧ n <= INT_MAX
  ∧ trx w' = set_mTxBuf (iio (iio_device_create_buffer n true))
               (set_mTxBufIqPairsCount n (trx w))
  ∧ if iio (iio_device_create_buffer n true) then
      ∃ samples : list (Z * Z),
        length samples = Z.to_nat n
        ∧ log w' = before ++ [iio_buffer_push samples]
    else log w' = before.
Proof.
  cbn zeta. unfold startTxStreamingWith.
  unfold mbind at 1, M_bind at 1, get at 1.
  destruct (INT_MAX <? _) eqn:Emax; [done |]. apply Z.ltb_ge in Emax.
  unfold mbind at 1, M_bind at 1. rewrite resetTxBuffer_effect.
  set (n := mFrameLength (trx w) * mFramesNr (trx w)) in *.
  destruct (n =? 0) eqn:En.
  { cbn. unfold undefined. done. }
  apply Z.eqb_neq in En. cbn [orb negb andb].
  destruct (iio (iio_device_create_buffer n true)) eqn:Egr.
  - unfold mbind at 1, M_bind at 1, get at 1. cbn [trx log].
    assert (mTxBuf (set_mTxBuf true (set_mTxBufIqPairsCount n (trx w)))
            = true) as -> by reflexivity.
    cbn [negb orb].
    destruct (Qeq_bool _ 0); [done |].
    unfold mbind at 1, M_bind at 1.
    destruct (convertSlots _ _ _ _) as [[ss w1] | |] eqn:Ecs; [| done..].
    apply convertSlots_frame in Ecs as [-> Hlen].
    unfold mbind, M_bind, call, mret, M_ret. cbn [trx log].
    intros [= <-]. cbn [trx log].
    split; [done |]. split; [done |]. split; [reflexivity |].
    exists ss. split.
    + rewrite Hlen, length_fmap, length_seq. reflexivity.
    + reflexivity.
  - unfold mret, M_ret. intros [= <-]. cbn [trx log].
    split; [done |]. split; [done |]. split; reflexivity.
Qed.

(** What [stopTxStreaming] does, in every state. *)
Lemma stopTxStreaming_effect (iio : Iio) (w : World) :
  let granted := iio (iio_device_create_buffer 1024 true) in
  stopTxStreaming iio w
  = Returns
      (tt,
       {| trx := set_mTxBuf granted (set_mTxBufIqPairsCount 1024 (trx w));
          log := log w
                 ++ (if mTxBuf (trx w) then [iio_buffer_destroy] else [])
                 ++ [iio_device_create_buffer 1024 true]
                 ++ (if granted
                     then [iio_buffer_push
                             (replicate (Z.to_nat 1024) (0, 0))]
                     else []) |}).
Proof.
  cbn zeta. unfold stopTxStreaming.
  unfold mbind at 1, M_bind at 1. rewrite resetTxBuffer_effect.
  change (1024 =? 0) with false. cbn [orb negb andb].
  destruct (iio (iio_device_create_buffer 1024 true)).
  - unfold mbind, M_bind, get, call, mret, M_ret. cbn.
    rewrite <- !app_assoc. reflexivity.
  - unfold mret, M_ret. by rewrite app_nil_r.
Qed.

(** X8: the object holds a buffer exactly when one is alive in the
    library.  The number of buffers created and not destroyed in the log is
    1 when [mTxBuf] is set and 0 when it is null; this holds for a new
    object and is kept by every run of [resetTxBuffer], of [getData]
    followed by [startStreaming], and of [stopStreaming] that returns. *)
Theorem at_most_one_buffer_is_alive (iio : Iio) :
  buffer_consistent iio {| trx := new; log := [] |}
  ∧ (∀ (n : Z) (c : bool) (w w' : World) (status : bool),
       buffer_consistent iio w →
       resetTxBuffer iio n c w = Returns (status, w') →
       buffer_consistent iio w')
  ∧ (∀ (d : TxDevice) (sd : Dataset.SignalData) (w w' : World),
       buffer_consistent iio w →
       (getData d sd ≫= fun _ => startStreaming d iio) w = Returns (tt, w') →
       buffer_consistent iio w')
  ∧ (∀ (d : TxDevice) (w w' : World),
       buffer_consistent iio w →
       stopStreaming d iio w = Returns (tt, w') →
       buffer_consistent iio w').
Proof.
  split; [reflexivity |]. split; [| split].
  - intros n c w w' status Hc. rewrite resetTxBuffer_effect.
    intros [= _ <-]. revert Hc.
    destruct w as [[[] ? ? ? ? ? ? ? ? ? ? ? ? ? ?] lg];
      unfold buffer_consistent; cbn [trx log mTxBuf set_mTxBuf
                                     set_mTxBufIqPairsCount];
      rewrite !live_buffers_app; destruct (n =? 0);
      cbn [negb andb live_buffers foldr buffer_delta];
      destruct (iio (iio_device_create_buffer n c)); lia.
  - intros d sd w w' Hc.
    assert (∀ w0, buffer_consistent iio w0 →
                  startStreaming d iio w0 = Returns (tt, w') →
                  buffer_consistent iio w') as Hstart.
    { intros w0 Hc0 Hrun.
      assert (∃ num sh, startStreaming d iio = startTxStreamingWith iio num sh
                        ∨ startStreaming d iio = mret tt)
        as (num & sh & [E | E]).
      { destruct d; [exists 0%Q, 0; by right | | |];
          do 2 eexists; left; reflexivity. }
      - rewrite E in Hrun.
        apply startTxStreamingWith_effect in Hrun.
        cbn zeta in Hrun. destruct Hrun as (Hn & _ & Htrx & Hlog).
        revert Hc0. unfold buffer_consistent. rewrite Htrx.
        set (n := mFrameLength (trx w0) * mFramesNr (trx w0)) in *.
        destruct (iio (iio_device_create_buffer n true)) eqn:Egr.
        + destruct Hlog as (samples & _ & ->).
          rewrite !live_buffers_app.
          cbn [live_buffers foldr buffer_delta]. rewrite Egr.
          cbn [set_mTxBuf mTxBuf].
          destruct (mTxBuf (trx w0));
            cbn [live_buffers foldr buffer_delta]; lia.
        + rewrite Hlog, !live_buffers_app.
          cbn [live_buffers foldr buffer_delta]. rewrite Egr.
          cbn [set_mTxBuf mTxBuf].
          destruct (mTxBuf (trx w0));
            cbn [live_buffers foldr buffer_delta]; lia.
      - rewrite E in Hrun. unfold mret, M_ret in Hrun.
        by injection Hrun as <-. }
    unfold mbind, M_bind.
    destruct (getData d sd w) as [[[] w0] | |] eqn:Eget; [| done..].
    apply Hstart.
    destruct d; cbn in Eget.
    + unfold mret, M_ret in Eget. by injection Eget as <-.
    + revert Eget. unfold getSignalData, mbind, M_bind, modify, vector_at.
      cbn [trx log].
      destruct (Dataset.frameDataVec sd !! _); [| done].
      unfold mret, M_ret. cbn [trx log]. intros [= <-]. exact Hc.
    + revert Eget. unfold getSignalData, mbind, M_bind, modify, vector_at.
      cbn [trx log].
      destruct (Dataset.frameDataVec sd !! _); [| done].
      unfold mret, M_ret. cbn [trx log]. intros [= <-]. exact Hc.
    + revert Eget. unfold getSignalData, mbind, M_bind, modify, vector_at.
      cbn [trx log].
      destruct (Dataset.frameDataVec sd !! _); [| done].
      unfold mret, M_ret. cbn [trx log]. intros [= <-]. exact Hc.
  - intros d w w' Hc Hrun.
    assert (stopStreaming d iio = stopTxStreaming iio
            ∨ stopStreaming d iio = mret tt) as [E | E]
      by (destruct d; [by right | by left..]).
    + rewrite E, stopTxStreaming_effect in Hrun. cbn zeta in Hrun.
      injection Hrun as <-. revert Hc.
      unfold buffer_consistent. cbn [trx log].
      rewrite !live_buffers_app.
      cbn [live_buffers foldr buffer_delta set_mTxBuf mTxBuf].
      destruct (iio (iio_device_create_buffer 1024 true));
        destruct (mTxBuf (trx w));
        cbn [live_buffers foldr buffer_delta]; lia.
    + rewrite E in Hrun. unfold mret, M_ret in Hrun.
      by injection Hrun as <-.
Qed.

Lemma at_most_one_buffer_is_alive_witness :
  buffer_consistent (fun _ => true)
    {| trx := set_mTxBuf true (set_mTxBufIqPairsCount 1024 new);
       log := [] ++ [] ++ [iio_device_create_buffer 1024 true] |}.
Proof.
  refine (proj1 (proj2 (at_most_one_buffer_is_alive (fun _ => true)))
            1024 true {| trx := new; log := [] |} _ true _ _).
  - reflexivity.
  - reflexivity.
Defined.

(** X9: what [startStreaming] has done when it returns, for the three
    variants.  The product [n] of the frame length and the number of frames
    is not 0 and fits [int]; a buffer that was held is destroyed, one cyclic
    buffer of [n] samples is asked for, and [mTxBuf] and
    [mTxBufIqPairsCount] are set from the answer and from [n]; when the
    buffer is granted exactly one push follows, of [n] samples, and when it
    is refused nothing is pushed. *)
Theorem startStreaming_effect (d : TxDevice) (iio : Iio) (w w' : World) :
  d ≠ TX_DEVICE_UNKNOWN →
  startStreaming d iio w = Returns (tt, w') →
  let n := mFrameLength (trx w) * mFramesNr (trx w) in
  let before :=
    log w ++ (if mTxBuf (trx w) then [iio_buffer_destroy] else [])
    ++ [iio_device_create_buffer n true] in
  n ≠ 0 ∧ n <= INT_MAX
  ∧ trx w' = set_mTxBuf (iio (iio_device_create_buffer n true))
               (set_mTxBufIqPairsCount n (trx w))
  ∧ if iio (iio_device_create_buffer n true) then
      ∃ samples : list (Z * Z),
        length samples = Z.to_nat n
        ∧ log w' = before ++ [iio_buffer_push samples]
    else log w' = before.
Proof.
  intros Hd Hrun.
  destruct (startStreaming_with d iio Hd) as [_ E]. rewrite E in Hrun.
  exact (startTxStreamingWith_effect iio _ _ w w' Hrun).
Qed.

Lemma startStreaming_effect_witness :
  let n := mFrameLength (trx loaded_world) * mFramesNr (trx loaded_world) in
  let before :=
    log loaded_world
    ++ (if mTxBuf (trx loaded_world) then [iio_buffer_destroy] else [])
    ++ [iio_device_create_buffer n true] in
  n ≠ 0 ∧ n <= INT_MAX
  ∧ trx streamed_world
    = set_mTxBuf ((fun _ : IioCall => true) (iio_device_create_buffer n true))
        (set_mTxBufIqPairsCount n (trx loaded_world))
  ∧ if (fun _ : IioCall => true) (iio_device_create_buffer n true) then
      ∃ samples : list (Z * Z),
        length samples = Z.to_nat n
        ∧ log streamed_world = before ++ [iio_buffer_push samples]
    else log streamed_world = before.
Proof.
  refine (startStreaming_effect TX_DEVICE_AD9361 (fun _ => true)
            loaded_world streamed_world _ _).
  - discriminate.
  - vm_compute. reflexivity.
Defined.

Lemma getSignalData_effect (sd : Dataset.SignalData) (w : World) :
  getSignalData sd w
  = match Dataset.frameDataVec sd with
    | [] => OutOfRange
    | frame0 :: _ =>
        Returns
          (tt,
           {| trx := set_signal sd
                       (wrap16 (Z.of_nat (length (Dataset.frameDataVec sd))))
                       (wrap16 (Z.of_nat (length frame0))) (trx w);
              log := log w |})
    end.
Proof.
  destruct w as [t lg]. unfold getSignalData.
  destruct (Dataset.frameDataVec sd); reflexivity.
Qed.

(** The run of [getData] and [startStreaming] on a signal as the parsers
    build it. *)
Lemma streaming_run (d : TxDevice) (iio : Iio) (sd : Dataset.SignalData)
    (w : World) :
  d ≠ TX_DEVICE_UNKNOWN →
  loadable sd →
  iio (iio_device_create_buffer
         (Z.of_nat (length (concat (Dataset.frameDataVec sd)))) true)
  = true →
  ∃ w' : World,
    (getData d sd ≫= fun _ => startStreaming d iio) w = Returns (tt, w')
    ∧ log w'
      = log w
        ++ (if mTxBuf (trx w) then [iio_buffer_destroy] else [])
        ++ [iio_device_create_buffer
              (Z.of_nat (length (concat (Dataset.frameDataVec sd)))) true;
            iio_buffer_push
              (convertedPoint (dac_width d) (Dataset.maxVal sd)
                 <$> concat (Dataset.frameDataVec sd))]
    ∧ mTxBuf (trx w') = true
    ∧ Forall
        (fun p =>
           is_int16 (converted (dac_width d) (Dataset.maxVal sd)
                       (Dataset.i p))
           ∧ is_int16 (converted (dac_width d) (Dataset.maxVal sd)
                         (Dataset.q p)))
        (concat (Dataset.frameDataVec sd)).
Proof.
  intros Hd Hload Hok.
  destruct (startStreaming_with d iio Hd) as [HW Hwith].
  destruct (Dataset.frameDataVec sd) as [| frame0 rest] eqn:Hfr.
  { by destruct (frames_nonempty sd Hload). }
  destruct (frames_uniform sd Hload frame0 rest Hfr)
    as (Hne & HL16 & Hun & Hprod).
  rewrite <- Hfr in *.
  assert (Z.of_nat (length (concat (Dataset.frameDataVec sd)))
          = Z.of_nat (length frame0)
            * Z.of_nat (length (Dataset.frameDataVec sd))) as Hn.
  { rewrite (concat_length_uniform (length frame0)) by done.
    apply Nat2Z.inj_mul. }
  rewrite Hn in *.
  destruct (getSignalData_run sd w frame0 rest Hload Hfr)
    as (w0 & Hget & Hlog0 & Hsd0 & HL0 & HF0).
  assert (mTxBuf (trx w0) = mTxBuf (trx w)) as Hbuf0.
  { revert Hget. unfold getSignalData, mbind, M_bind, modify, vector_at.
    cbn [trx log]. rewrite Hfr. unfold mret, M_ret. cbn [trx log].
    by intros [= <-]. }
  destruct (startTxStreamingWith_run iio (dac_width d) sd w0 frame0 rest
              HW Hload Hfr Hsd0 HL0 HF0 Hok) as (w' & pre & Hrun & Hlog).
  pose proof (startTxStreamingWith_effect iio _ _ w0 w' Hrun) as Heff.
  cbn zeta in Heff. rewrite HL0, HF0, Hok, Hbuf0, Hlog0 in Heff.
  destruct Heff as (_ & _ & Htrx & samples & _ & Hlog').
  exists w'. split; [| split; [| split]].
  - unfold mbind, M_bind.
    assert (getData d sd = getSignalData sd) as ->
      by (destruct d; [done | | |]; reflexivity).
    rewrite Hget, Hwith. exact Hrun.
  - rewrite Hlog' in Hlog. rewrite Hlog0 in Hlog.
    rewrite !app_assoc in Hlog.
    apply app_inj_tail in Hlog as [_ [= ->]].
    rewrite Hlog', <- !app_assoc. reflexivity.
  - by rewrite Htrx.
  - apply Forall_forall. intros pt Hpt.
    apply list_elem_of_lookup in Hpt as [k Hk].
    assert (k < length frame0 * length (Dataset.frameDataVec sd))%nat as Hkn.
    { apply lookup_lt_Some in Hk.
      by rewrite (concat_length_uniform (length frame0)) in Hk. }
    destruct (convertSlot_run (dac_width d) sd w0 frame0 rest k
                HW Hload Hfr Hsd0 HL0 Hkn) as (pt' & Hpt' & _ & Hi & Hq).
    rewrite Hpt' in Hk. injection Hk as ->. done.
Qed.

(** X10: streaming a [loadable] signal and stopping, with both buffers
    granted, makes these calls after the ones already in the log: the
    destruction of a buffer that was held, the creation of the cyclic buffer
    of the signal, the push of the converted samples, the destruction of
    that buffer, the creation of a cyclic buffer of 1024 samples and the
    push of 1024 zero samples.  The object then holds the buffer of 1024
    samples and still the signal. *)
Theorem stream_then_stop (d : TxDevice) (iio : Iio)
    (sd : Dataset.SignalData) (w : World) :
  d ≠ TX_DEVICE_UNKNOWN →
  loadable sd →
  iio (iio_device_create_buffer
         (Z.of_nat (length (concat (Dataset.frameDataVec sd)))) true)
  = true →
  iio (iio_device_create_buffer 1024 true) = true →
  ∃ w' : World,
    (getData d sd ≫= fun _ =>
     startStreaming d iio ≫= fun _ => stopStreaming d iio) w
    = Returns (tt, w')
    ∧ log w'
      = log w
        ++ (if mTxBuf (trx w) then [iio_buffer_destroy] else [])
        ++ [iio_device_create_buffer
              (Z.of_nat (length (concat (Dataset.frameDataVec sd)))) true;
            iio_buffer_push
              (convertedPoint (dac_width d) (Dataset.maxVal sd)
                 <$> concat (Dataset.frameDataVec sd));
            iio_buffer_destroy;
            iio_device_create_buffer 1024 true;
            iio_buffer_push (replicate (Z.to_nat 1024) (0, 0))]
    ∧ mTxBuf (trx w') = true
    ∧ mTxBufIqPairsCount (trx w') = 1024
    ∧ mSignalData (trx w') = sd.
Proof.
  intros Hd Hload Hok Hok'.
  destruct (streaming_run d iio sd w Hd Hload Hok)
    as (w1 & Hrun & Hlog & Hbuf & _).
  assert (mSignalData (trx w1) = sd) as Hsd.
  { revert Hrun. unfold mbind, M_bind.
    destruct (getData d sd w) as [[[] w0] | |] eqn:Eget; [| done..].
    intros Hstart.
    assert (mSignalData (trx w0) = sd) as Hsd0.
    { revert Eget.
      assert (getData d sd = getSignalData sd) as ->
        by (destruct d; [done | | |]; reflexivity).
      unfold getSignalData, mbind, M_bind, modify, vector_at. cbn [trx log].
      destruct (Dataset.frameDataVec sd !! _); [| done].
      unfold mret, M_ret. cbn [trx log]. by intros [= <-]. }
    destruct (startStreaming_with d iio Hd) as [_ E]. rewrite E in Hstart.
    apply startTxStreamingWith_effect in Hstart. cbn zeta in Hstart.
    destruct Hstart as (_ & _ & -> & _). exact Hsd0. }
  eexists. split; [| split; [| split; [| split]]].
  - unfold mbind, M_bind in Hrun |- *.
    destruct (getData d sd w) as [[[] w0] | |];
      [| discriminate Hrun | discriminate Hrun].
    rewrite Hrun.
    assert (stopStreaming d iio = stopTxStreaming iio) as ->
      by (destruct d; [done | | |]; reflexivity).
    rewrite stopTxStreaming_effect. cbn zeta. reflexivity.
  - cbn [log]. rewrite Hlog, Hbuf, Hok'. rewrite <- !app_assoc. reflexivity.
  - cbn [trx]. by rewrite Hok'.
  - reflexivity.
  - cbn [trx]. exact Hsd.
Qed.

Lemma stream_then_stop_witness :
  ∃ w' : World,
    (getData TX_DEVICE_ADRV9009 half_scale_signal ≫= fun _ =>
     startStreaming TX_DEVICE_ADRV9009 (fun _ => true) ≫= fun _ =>
     stopStreaming TX_DEVICE_ADRV9009 (fun _ => true))
      {| trx := new; log := [] |}
    = Returns (tt, w')
    ∧ log w'
      = [] ++ (if mTxBuf new then [iio_buffer_destroy] else [])
        ++ [iio_device_create_buffer
              (Z.of_nat
                 (length (concat (Dataset.frameDataVec half_scale_signal))))
              true;
            iio_buffer_push
              (convertedPoint (dac_width TX_DEVICE_ADRV9009)
                 (Dataset.maxVal half_scale_signal)
                 <$> concat (Dataset.frameDataVec half_scale_signal));
            iio_buffer_destroy;
            iio_device_create_buffer 1024 true;
            iio_buffer_push (replicate (Z.to_nat 1024) (0, 0))]
    ∧ mTxBuf (trx w') = true
    ∧ mTxBufIqPairsCount (trx w') = 1024
    ∧ mSignalData (trx w') = half_scale_signal.
Proof.
  refine (stream_then_stop TX_DEVICE_ADRV9009 (fun _ => true)
            half_scale_signal {| trx := new; log := [] |}
            _ half_scale_loadable eq_refl eq_refl).
  discriminate.
Defined.

(** X11: a signal whose [maxVal] is 0 cannot be streamed.  With at least
    one point in the first frame, sizes that fit and the buffer granted,
    [getData] followed by [startStreaming] ends in undefined behaviour, for
    the three variants: the scale is a division by zero. *)
Theorem zero_maxVal_streaming_is_undefined (d : TxDevice) (iio : Iio)
    (sd : Dataset.SignalData) (w : World)
    (frame0 : Dataset.FrameData) (rest : list Dataset.FrameData) :
  d ≠ TX_DEVICE_UNKNOWN →
  Dataset.frameDataVec sd = frame0 :: rest →
  frame0 ≠ [] →
  Z.of_nat (length frame0) < 65536 →
  Z.of_nat (length (Dataset.frameDataVec sd)) < 65536 →
  Z.of_nat (length frame0) * Z.of_nat (length (Dataset.frameDataVec sd))
  <= INT_MAX →
  (Dataset.maxVal sd == 0)%Q →
  iio (iio_device_create_buffer
         (Z.of_nat (length frame0)
          * Z.of_nat (length (Dataset.frameDataVec sd))) true)
  = true →
  (getData d sd ≫= fun _ => startStreaming d iio) w = Undefined.
Proof.
  intros Hd Hfr Hne HL HF Hprod Hzero Hok.
  destruct (startStreaming_with d iio Hd) as [_ Hwith].
  assert (getData d sd = getSignalData sd) as ->
    by (destruct d; [done | | |]; reflexivity).
  rewrite Hwith. unfold mbind at 1, M_bind at 1.
  rewrite getSignalData_effect, Hfr. rewrite Hfr in HF, Hprod, Hok.
  unfold wrap16. change (2 ^ 16) with 65536.
  rewrite !Z.mod_small by lia.
  unfold startTxStreamingWith, mbind at 1, M_bind at 1, get at 1.
  cbn [trx log set_signal mFrameLength mFramesNr].
  set (n := Z.of_nat (length frame0) * Z.of_nat (length (frame0 :: rest)))
    in *.
  assert ((INT_MAX <? n) = false) as -> by (apply Z.ltb_ge; lia).
  unfold mbind at 1, M_bind at 1. rewrite resetTxBuffer_effect.
  assert ((n =? 0) = false) as ->.
  { apply Z.eqb_neq. subst n. destruct frame0; [done |]. simpl length. lia. }
  rewrite Hok. cbn [orb negb andb].
  unfold mbind at 1, M_bind at 1, get at 1.
  cbn [trx log set_mTxBuf mTxBuf mSignalData set_mTxBufIqPairsCount
       set_signal negb orb].
  apply Qeq_bool_iff in Hzero. rewrite Hzero. reflexivity.
Qed.

Lemma zero_maxVal_streaming_is_undefined_witness :
  (getData TX_DEVICE_AD9361
     {| Dataset.frameDataVec := [[{| Dataset.i := 0; Dataset.q := 0 |}]];
        Dataset.maxVal := 0 |}
   ≫= fun _ => startStreaming TX_DEVICE_AD9361 (fun _ => true))
    {| trx := new; log := [] |}
  = Undefined.
Proof.
  refine (zero_maxVal_streaming_is_undefined TX_DEVICE_AD9361 (fun _ => true)
            {| Dataset.frameDataVec :=
                 [[{| Dataset.i := 0; Dataset.q := 0 |}]];
               Dataset.maxVal := 0 |}
            {| trx := new; log := [] |}
            [{| Dataset.i := 0; Dataset.q := 0 |}] []
            _ eq_refl _ _ _ _ _ eq_refl);
    try discriminate; try (simpl; lia); try reflexivity.
Defined.

End TxBufferFacts.

Section ParsedSignalFacts.
Import Modulation Dataset DatasetParser CsvParser CsvClosedForm HisarModSpec.
Import AdiTrx TxHal StreamingSpec StreamExamples.







End ParsedSignalFacts.

(** ** Hdf5Parser: the store of a slab and the parse of a file *)

Section Hdf5StoreFacts.
Import Modulation Dataset DatasetParser Hdf5Parser Hdf5Slab Hdf5ClosedForm.
Import HisarModSpec.

Lemma seqZ_snoc (c : Z) : 0 <= c → seqZ 0 (c + 1) = seqZ 0 c ++ [c].
Proof.
  intros Hc. rewrite seqZ_app by lia. reflexivity.
Qed.

Lemma framesMax_snoc (frames : list FrameData) (frame : FrameData) :
  framesMax (frames ++ [frame])
  = fold_left updateMaxVal frame (framesMax frames).
Proof. unfold framesMax. by rewrite fold_left_app. Qed.

Lemma snrFrames_snoc (f : Z → Q) (start : Z) (j count : Z) :
  0 <= count →
  snrFrames f start j (count + 1)
  = snrFrames f start j count ++ [slabFrame f start (4096 * j + count)].
Proof. intros H. unfold snrFrames. by rewrite seqZ_snoc, fmap_app. Qed.

Lemma snrFrames_length (f : Z → Q) (start : Z) (j count : Z) :
  0 <= count → Z.of_nat (length (snrFrames f start j count)) = count.
Proof. intros H. unfold snrFrames. rewrite length_fmap, length_seqZ. lia. Qed.

Lemma slabStore_snoc (m : ModulationName) (f : Z → Q) (start : Z)
    (base : ModulationSnrSignalDataMap) (c : Z) :
  0 <= c →
  slabStore m f start base (c + 1)
  = map_insert (m, slabSnr c) (snrSignal f start c 4096)
      (slabStore m f start base c).
Proof. intros H. unfold slabStore. by rewrite seqZ_snoc, fold_left_app. Qed.

Lemma slabLoop_done (ds : Hdf5Dataset) (m : ModulationName) (f : Z → Q)
    (fuel : nat) (i : Z) (st : SlabState) :
  (STOP_ELEMENT ds m <=? i) = true →
  slabLoop fuel ds m f i st = Some (st, true).
Proof. intros H. destruct fuel; simpl; by rewrite H. Qed.

Lemma slabLoop_step (ds : Hdf5Dataset) (m : ModulationName) (f : Z → Q)
    (fuel : nat) (i : Z) (st : SlabState) :
  (STOP_ELEMENT ds m <=? i) = false →
  slabLoop (S fuel) ds m f i st
  = match slabRound ds m f i st with
    | SlabNext i' st' => slabLoop fuel ds m f i' st'
    | SlabFailed st' => Some (st', false)
    | SlabUndefined => None
    end.
Proof. intros H. simpl. by rewrite H. Qed.

Section Slab.
Variable ds : Hdf5Dataset.
Variable m : ModulationName.
Variable f : Z → Q.
Variable p1 : DatasetParser.
Hypothesis Hshape : X_shape_bad ds = false.
Hypothesis Hsize : mDatatypeSize ds = 4.

Let start : Z := START_ELEMENT ds m.

(** One round of the loop, from what the state holds at its top. *)
Lemma slab_round_from (k : Z) (st : SlabState) :
  0 <= k < SLAB_FRAMES →
  (if k mod 4096 =? 0
   then oldSnrDb st ≠ slabSnr (k / 4096)
        ∧ uniqueSnrVec st
          = mUniqueSnrVec p1 ++ (slabSnr <$> seqZ 0 (k / 4096))
   else oldSnrDb st = slabSnr (k / 4096)
        ∧ signalData st = snrSignal f start (k / 4096) (k mod 4096)
        ∧ modSnrPair st = (m, slabSnr (k / 4096))
        ∧ uniqueSnrVec st
          = mUniqueSnrVec p1 ++ (slabSnr <$> seqZ 0 (k / 4096 + 1))) →
  map st = slabStore m f start (mMap p1) (k / 4096) →
  slabRound ds m f (start + 2048 * k) st
  = SlabNext (start + 2048 * (k + 1)) (slabAfter p1 m f start (k + 1)).
Proof.
  unfold SLAB_FRAMES. intros Hk Hst Hmap.
  assert (0 <= k < 106496) as HkZ by lia.
  unfold slabRound. subst start.
  rewrite (cube_snr ds m Hshape k HkZ).
  rewrite (cube_per_mod ds Hshape), (cube_per_mod_snr ds Hshape).
  rewrite (cube_bytes ds Hshape Hsize).
  pose proof (cube_start ds m Hshape) as Hstart.
  pose proof (modOffset_range m) as Hoff.
  set (start := START_ELEMENT ds m) in *.
  set (i := start + 2048 * k).
  change NR_ELEMENTS_PER_FRAME with 2048.
  change (FRAME_LENGTH DATASET_SOURCE_RADIOML_2018_01) with 1024.
  change (FRAMES_PER_MOD_SNR_NR DATASET_SOURCE_RADIOML_2018_01) with 4096.
  assert ((20937965568 <? 4 * (i + 2048)) = false) as ->
    by (apply Z.ltb_ge; lia).
  change (218103808 =? 0) with false. change (8388608 =? 0) with false.
  cbn [orb].
  assert ((i mod 2048 =? 0) = true) as -> by (apply Z.eqb_eq; lia).
  rewrite app_nil_l.
  assert ((1024 =? Z.of_nat (length (slabPoints f i))) = true) as ->
    by (rewrite slabPoints_length; reflexivity).
  cbn [negb].
  assert ((i + 2048 - 2 =? 0) = false) as -> by (apply Z.eqb_neq; lia).
  cbn [negb andb]. replace (i + 2048 - 2 + 2) with (i + 2048) by lia.
  assert ((i + 2048) mod 8388608 = 2048 * ((k + 1) mod 4096)) as Hfull
    by lia.
  fold (slabSnr (k / 4096)).
  assert (start + 2048 * (k + 1) = i + 2048) as -> by lia.
  unfold slabAfter.
  assert ((k + 1 <=? 0) = false) as -> by (apply Z.leb_gt; lia).
  replace (k + 1 - 1) with k by lia.
  change (slabFrame f start k) with (slabPoints f i).
  set (j := k / 4096) in *. set (r := k mod 4096) in *.
  assert (0 <= j < 26 ∧ 0 <= r < 4096 ∧ k = 4096 * j + r) as (Hj & Hr & Hjr)
    by (subst j r; lia).
  destruct (r =? 0) eqn:Hk0.
  - apply Z.eqb_eq in Hk0. destruct Hst as [Hold Hsnrs].
    assert ((slabSnr j =? oldSnrDb st) = false) as ->
      by (apply Z.eqb_neq; congruence).
    cbn [negb frameDataVec maxVal app length].
    assert (((i + 2048) mod 8388608 =? 0) = false) as ->
      by (apply Z.eqb_neq; lia).
    cbn [andb]. f_equal.
    rewrite Hk0, Hsnrs, Hmap.
    assert ((k + 1) / 4096 = j) as -> by lia.
    rewrite seqZ_snoc, fmap_app, app_assoc by lia. cbn [fmap list_fmap].
    unfold snrSignal. rewrite (snrFrames_snoc f start j 0) by lia.
    change (snrFrames f start j 0) with (@nil FrameData).
    rewrite !app_nil_l. unfold slabFrame.
    replace (start + 2048 * (4096 * j + 0)) with i by (subst i; lia).
    reflexivity.
  - apply Z.eqb_neq in Hk0.
    destruct Hst as (Hold & Hsd & Hpair & Hsnrs).
    assert ((slabSnr j =? oldSnrDb st) = true) as ->
      by (apply Z.eqb_eq; congruence).
    cbn [negb]. rewrite Hsd, Hpair, Hsnrs, Hmap.
    cbn [snrSignal frameDataVec maxVal].
    assert (snrFrames f start j r ++ [slabPoints f i]
            = snrFrames f start j (r + 1)) as Hfr.
    { rewrite snrFrames_snoc by lia. unfold slabFrame. subst i.
      by rewrite <- Hjr. }
    rewrite Hfr.
    assert (fold_left updateMaxVal (slabPoints f i)
              (framesMax (snrFrames f start j r))
            = framesMax (snrFrames f start j (r + 1))) as Hmx.
    { rewrite <- Hfr. by rewrite framesMax_snoc. }
    rewrite Hmx. rewrite snrFrames_length by lia.
    destruct ((i + 2048) mod 8388608 =? 0) eqn:Hf.
    + apply Z.eqb_eq in Hf. cbn [andb].
      assert (r + 1 = 4096) as Hr1 by lia.
      rewrite Hr1. change (4096 =? 4096) with true.
      cbn [negb]. f_equal. f_equal.
      assert ((k + 1) / 4096 = j + 1) as -> by lia.
      rewrite slabStore_snoc by lia. reflexivity.
    + apply Z.eqb_neq in Hf. cbn [andb]. f_equal. f_equal.
      assert ((k + 1) / 4096 = j) as -> by lia. reflexivity.
Qed.

Lemma slab_round_closed (k : Z) :
  0 <= k < SLAB_FRAMES →
  slabRound ds m f (start + 2048 * k) (slabAfter p1 m f start k)
  = SlabNext (start + 2048 * (k + 1)) (slabAfter p1 m f start (k + 1)).
Proof.
  intros Hk. apply slab_round_from; [exact Hk | |].
  - unfold slabAfter. destruct (k <=? 0) eqn:Ek.
    + apply Z.leb_le in Ek. assert (k = 0) as -> by lia.
      cbn. split; [discriminate | by rewrite app_nil_r].
    + apply Z.leb_gt in Ek.
      cbn [oldSnrDb signalData modSnrPair uniqueSnrVec].
      destruct (k mod 4096 =? 0) eqn:E.
      * apply Z.eqb_eq in E.
        assert (k / 4096 = (k - 1) / 4096 + 1) as -> by lia.
        split; [unfold slabSnr; lia | reflexivity].
      * apply Z.eqb_neq in E.
        assert ((k - 1) / 4096 = k / 4096) as -> by lia.
        assert ((k - 1) mod 4096 + 1 = k mod 4096) as -> by lia.
        repeat split.
  - unfold slabAfter. destruct (k <=? 0) eqn:Ek; [| reflexivity].
    apply Z.leb_le in Ek. assert (k = 0) as -> by lia. reflexivity.
Qed.

Lemma slab_loop_closed (n : nat) :
  ∀ (fuel : nat) (k : Z),
    (n <= fuel)%nat → 0 <= k → k + Z.of_nat n = SLAB_FRAMES →
    slabLoop fuel ds m f (start + 2048 * k) (slabAfter p1 m f start k)
    = Some (slabAfter p1 m f start SLAB_FRAMES, true).
Proof.
  pose proof (modOffset_range m) as Hoff.
  induction n as [| n IH]; intros fuel k Hfuel Hk Hn.
  - assert (k = SLAB_FRAMES) as -> by lia.
    apply slabLoop_done. subst start.
    rewrite (cube_stop ds m Hshape), (cube_start ds m Hshape).
    apply Z.leb_le. unfold SLAB_FRAMES. lia.
  - destruct fuel as [| fuel]; [lia |].
    rewrite slabLoop_step.
    + rewrite slab_round_closed by lia. apply IH; lia.
    + subst start.
      rewrite (cube_stop ds m Hshape), (cube_start ds m Hshape).
      apply Z.leb_gt. unfold SLAB_FRAMES in Hn. lia.
Qed.

End Slab.

(** *** The store of a slab *)

Lemma slabSnr_inj (j j' : Z) : slabSnr j = slabSnr j' → j = j'.
Proof. unfold slabSnr. lia. Qed.

Lemma map_insert_fresh (k : ModulationSnrPair) (v : SignalData)
    (mp : ModulationSnrSignalDataMap) :
  mp !! k = None → map_insert k v mp = <[k := v]> mp.
Proof.
  intros H. unfold map_insert.
  match goal with
  | |- context [match ?x with Some _ => _ | None => _ end] =>
      change x with (mp !! k)
  end.
  by rewrite H.
Qed.

Lemma slabStore_lookup_other (m : ModulationName) (f : Z → Q) (start : Z)
    (base : ModulationSnrSignalDataMap) (key : ModulationSnrPair) (n : nat) :
  (∀ j, 0 <= j < Z.of_nat n → key ≠ (m, slabSnr j)) →
  slabStore m f start base (Z.of_nat n) !! key = base !! key.
Proof.
  induction n as [| n IH]; intros Hkey; [reflexivity |].
  rewrite Nat2Z.inj_succ, <- Z.add_1_r, slabStore_snoc by lia.
  unfold map_insert.
  match goal with
  | |- context [match ?x with Some _ => _ | None => _ end] => destruct x
  end; [apply IH; intros j Hj; apply Hkey; lia |].
  rewrite lookup_insert_ne by (apply not_eq_sym, Hkey; lia).
  apply IH. intros j Hj. apply Hkey. lia.
Qed.

Lemma slabStore_lookup (m : ModulationName) (f : Z → Q) (start : Z)
    (base : ModulationSnrSignalDataMap) (n : nat) (j : Z) :
  (∀ j, 0 <= j < Z.of_nat n → base !! (m, slabSnr j) = None) →
  0 <= j < Z.of_nat n →
  slabStore m f start base (Z.of_nat n) !! (m, slabSnr j)
  = Some (snrSignal f start j 4096).
Proof.
  induction n as [| n IH]; intros Hbase Hj; [lia |].
  rewrite Nat2Z.inj_succ, <- Z.add_1_r, slabStore_snoc by lia.
  rewrite map_insert_fresh.
  2:{ rewrite slabStore_lookup_other.
      - apply Hbase. lia.
      - intros j' Hj' [= E]. apply slabSnr_inj in E. lia. }
  destruct (decide (j = Z.of_nat n)) as [-> | Hne].
  - apply lookup_insert_eq.
  - rewrite lookup_insert_ne.
    + apply IH; [intros j' Hj'; apply Hbase |]; lia.
    + intros [= E]. apply slabSnr_inj in E. lia.
Qed.

Lemma slabStore_size (m : ModulationName) (f : Z → Q) (start : Z)
    (base : ModulationSnrSignalDataMap) (n : nat) :
  (∀ j, 0 <= j < Z.of_nat n → base !! (m, slabSnr j) = None) →
  size (slabStore m f start base (Z.of_nat n)) = (size base + n)%nat.
Proof.
  induction n as [| n IH]; intros Hbase.
  - change (Z.of_nat 0) with 0. unfold slabStore. simpl. lia.
  - rewrite Nat2Z.inj_succ, <- Z.add_1_r, slabStore_snoc by lia.
    assert (slabStore m f start base (Z.of_nat n)
              !! (m, slabSnr (Z.of_nat n)) = None) as Hfresh.
    { rewrite slabStore_lookup_other.
      - apply Hbase. lia.
      - intros j' Hj' [= E]. apply slabSnr_inj in E. lia. }
    rewrite map_insert_fresh, map_size_insert_None by exact Hfresh.
    rewrite IH; [lia |]. intros j Hj. apply Hbase. lia.
Qed.

(** *** The signal of one SNR *)

Lemma framesMax_spec_from (frames : list FrameData) :
  ∀ mx : Q,
    let r := fold_left
               (fun mx frame => fold_left updateMaxVal frame mx) frames mx in
    (mx <= r)%Q
    ∧ (∀ frame p, frame ∈ frames → p ∈ frame →
         (Qabs (i p) <= r)%Q ∧ (Qabs (q p) <= r)%Q)
    ∧ (r = mx
       ∨ ∃ frame p, frame ∈ frames ∧ p ∈ frame
                    ∧ (r = Qabs (i p) ∨ r = Qabs (q p))).
Proof.
  induction frames as [| fr frames IH]; intros mx; cbn zeta.
  - simpl. split; [lra |]. split; [| by left].
    intros frame p Hf. by apply elem_of_nil in Hf.
  - simpl.
    destruct (IH (fold_left updateMaxVal fr mx)) as (Hle & Hb & Hatt).
    destruct (frame_max_spec fr mx) as (Hm & Hbl & Hattl).
    cbn zeta in *.
    split; [lra |]. split.
    + intros frame p Hf Hp. apply elem_of_cons in Hf as [-> | Hf].
      * destruct (Hbl p Hp). split; lra.
      * by apply (Hb frame).
    + destruct Hatt as [-> | (frame & p & Hf & Hp & Hatt)].
      * destruct Hattl as [-> | (p & Hp & Hatt)]; [by left |].
        right. exists fr, p.
        split; [apply elem_of_cons; by left | done].
      * right. exists frame, p.
        split; [apply elem_of_cons; by right | done].
Qed.

Lemma framesMax_spec (frames : list FrameData) :
  is_max_magnitude (framesMax frames) frames.
Proof.
  destruct (framesMax_spec_from frames 0%Q) as (_ & Hb & Hatt).
  split; [exact Hb | exact Hatt].
Qed.

Lemma slabPoints_lookup (f : Z → Q) (i0 t : Z) :
  0 <= t < 1024 →
  slabPoints f i0 !! Z.to_nat t
  = Some {| i := f (i0 + 2 * t); q := f (i0 + 2 * t + 1) |}.
Proof.
  intros Ht. unfold slabPoints. rewrite list_lookup_fmap.
  change (FRAME_LENGTH DATASET_SOURCE_RADIOML_2018_01) with 1024.
  rewrite lookup_seq_lt by lia. cbn [fmap option_fmap option_map plus].
  rewrite Z2Nat.id by lia. reflexivity.
Qed.

Lemma snrFrames_lookup (f : Z → Q) (start j r : Z) :
  0 <= r < 4096 →
  snrFrames f start j 4096 !! Z.to_nat r
  = Some (slabFrame f start (4096 * j + r)).
Proof.
  intros Hr. unfold snrFrames. rewrite list_lookup_fmap.
  rewrite lookup_seqZ_lt by lia. cbn [fmap option_fmap option_map].
  rewrite Z2Nat.id by lia. reflexivity.
Qed.

(** What the parser stores for the [j]-th SNR of a slab. *)
Lemma snrSignal_spec (f : Z → Q) (start j : Z) :
  Z.of_nat (length (frameDataVec (snrSignal f start j 4096))) = 4096
  ∧ Forall (fun frame => Z.of_nat (length frame) = 1024)
      (frameDataVec (snrSignal f start j 4096))
  ∧ (∀ r t, 0 <= r < 4096 → 0 <= t < 1024 →
       ∃ frame,
         frameDataVec (snrSignal f start j 4096) !! Z.to_nat r = Some frame
         ∧ frame !! Z.to_nat t
           = Some {| i := f (start + 2048 * (4096 * j + r) + 2 * t);
                     q := f (start + 2048 * (4096 * j + r) + 2 * t + 1) |})
  ∧ is_max_magnitude (maxVal (snrSignal f start j 4096))
      (frameDataVec (snrSignal f start j 4096)).
Proof.
  cbn [snrSignal frameDataVec maxVal]. split; [| split; [| split]].
  - by apply snrFrames_length.
  - unfold snrFrames. apply Forall_fmap, Forall_forall. intros t _.
    apply slabPoints_length.
  - intros r t Hr Ht. eexists. split; [by apply snrFrames_lookup |].
    by apply slabPoints_lookup.
  - apply framesMax_spec.
Qed.

(** *** The run of [loadTreeItem] on [X], in closed form *)

Lemma loadTreeItem_slab (env : Hdf5Env) (p : DatasetParser)
    (item : Hdf5ItemData) (ds : Hdf5Dataset) :
  mItemType item = ITEM_TYPE_VARIABLE →
  mDataset item = Some ds →
  mDataBuffer ds = false →
  mDatatypeClass ds = H5T_FLOAT →
  X_shape_bad ds = false →
  mDatatypeSize ds = 4 →
  malloc_ok env (TOTAL_BYTES ds) = true →
  read_ok env (mFilePath ds) = true →
  loadTreeItem env p item
  = Some
      {| status := true;
         parser :=
           {| DatasetParser.mFileName := DatasetParser.mFileName p;
              mStatus := mStatus p;
              mUniqueModVec := mUniqueModVec p ++ [mSingleModulation p];
              mUniqueSnrVec := mUniqueSnrVec p ++ snrs_upto 26;
              mSingleModulation := mSingleModulation p;
              mMap :=
                slabStore (mSingleModulation p) (element env (mFilePath ds))
                  (START_ELEMENT ds (mSingleModulation p)) (mMap p) 26 |};
         calls := [Malloc (TOTAL_BYTES ds);
                   H5Dread (mFilePath ds) H5S_ALL H5S_ALL; Free] |}.
Proof.
  intros Hty Hds Hbuf Hcls Hshape Hsize Hmalloc Hread.
  unfold loadTreeItem. rewrite Hty, Hds, Hbuf, Hcls, Hmalloc, Hread.
  rewrite bool_decide_eq_true_2 by done.
  rewrite bool_decide_eq_true_2 by done. cbn [negb].
  set (m := mSingleModulation p).
  set (p1 := {| DatasetParser.mFileName := DatasetParser.mFileName p;
                mStatus := mStatus p;
                mUniqueModVec := mUniqueModVec p ++ [m];
                mUniqueSnrVec := mUniqueSnrVec p;
                mSingleModulation := m;
                mMap := mMap p |}).
  set (f := element env (mFilePath ds)).
  pose proof (slab_loop_closed ds m f p1 Hshape Hsize (Z.to_nat SLAB_FRAMES)
                (Z.to_nat (NR_ELEMENTS_PER_MOD ds / NR_ELEMENTS_PER_FRAME + 1))
                0) as Hloop.
  rewrite Z.mul_0_r, Z.add_0_r in Hloop.
  change (slabAfter p1 m f (START_ELEMENT ds m) 0) with (slabInit p1)
    in Hloop.
  rewrite Hloop.
  - reflexivity.
  - rewrite (cube_per_mod ds Hshape).
    change NR_ELEMENTS_PER_FRAME with 2048. unfold SLAB_FRAMES. lia.
  - lia.
  - unfold SLAB_FRAMES. lia.
Qed.

(** X13: what [loadTreeItem] stores from the dataset [X].  When the map
    holds no signal of the chosen modulation, the run returns [true], the
    modulation is appended to the vector of modulations and the 26 SNRs from
    -20 to 30 to the vector of SNRs, the map grows by 26 signals and keeps
    the signals of the other modulations.  The signal of the [j]-th SNR has
    4096 frames of 1024 points; point [t] of frame [r] is made of the
    elements [2048 * (4096 * j + r) + 2 * t] and the next one of the slab of
    the modulation, and [maxVal] is the largest magnitude of the components
    of the signal. *)
Theorem loadTreeItem_stores_the_slab (env : Hdf5Env) (p : DatasetParser)
    (item : Hdf5ItemData) (ds : Hdf5Dataset) :
  mItemType item = ITEM_TYPE_VARIABLE →
  mDataset item = Some ds →
  mDataBuffer ds = false →
  mDatatypeClass ds = H5T_FLOAT →
  X_shape_bad ds = false →
  mDatatypeSize ds = 4 →
  malloc_ok env (TOTAL_BYTES ds) = true →
  read_ok env (mFilePath ds) = true →
  (∀ snr : Z, mMap p !! (mSingleModulation p, snr) = None) →
  ∃ r : LoadResult,
    loadTreeItem env p item = Some r
    ∧ status r = true
    ∧ mUniqueModVec (parser r) = mUniqueModVec p ++ [mSingleModulation p]
    ∧ mUniqueSnrVec (parser r) = mUniqueSnrVec p ++ snrs_upto 26
    ∧ size (mMap (parser r)) = (size (mMap p) + 26)%nat
    ∧ (∀ key : ModulationSnrPair,
         fst key ≠ mSingleModulation p →
         mMap (parser r) !! key = mMap p !! key)
    ∧ ∀ j : Z,
        0 <= j < 26 →
        ∃ sd : SignalData,
          mMap (parser r) !! (mSingleModulation p, -20 + 2 * j) = Some sd
          ∧ Z.of_nat (length (frameDataVec sd)) = 4096
          ∧ Forall (fun frame => Z.of_nat (length frame) = 1024)
              (frameDataVec sd)
          ∧ (∀ r t : Z,
               0 <= r < 4096 → 0 <= t < 1024 →
               ∃ frame : FrameData,
                 frameDataVec sd !! Z.to_nat r = Some frame
                 ∧ frame !! Z.to_nat t
                   = Some
                       {| i := element env (mFilePath ds)
                                 (START_ELEMENT ds (mSingleModulation p)
                                  + 2048 * (4096 * j + r) + 2 * t);
                          q := element env (mFilePath ds)
                                 (START_ELEMENT ds (mSingleModulation p)
                                  + 2048 * (4096 * j + r) + 2 * t + 1) |})
          ∧ is_max_magnitude (maxVal sd) (frameDataVec sd).
Proof.
  intros Hty Hds Hbuf Hcls Hshape Hsize Hmalloc Hread Hbase.
  rewrite (loadTreeItem_slab env p item ds Hty Hds Hbuf Hcls Hshape Hsize
             Hmalloc Hread).
  eexists. split; [reflexivity |]. cbn [status parser mUniqueModVec
                                         mUniqueSnrVec mMap].
  split; [reflexivity |]. split; [reflexivity |]. split; [reflexivity |].
  split; [| split].
  - apply (slabStore_size _ _ _ _ 26). intros j _. apply Hbase.
  - intros key Hkey. apply (slabStore_lookup_other _ _ _ _ _ 26).
    intros j _ ->. by apply Hkey.
  - intros j Hj. exists (snrSignal (element env (mFilePath ds))
                           (START_ELEMENT ds (mSingleModulation p)) j 4096).
    split.
    + apply (slabStore_lookup _ _ _ _ 26); [| lia]. intros j' _. apply Hbase.
    + apply snrSignal_spec.
Qed.

Lemma loadTreeItem_stores_the_slab_witness :
  ∃ r : LoadResult,
    loadTreeItem zero_env qpsk_parser cube_item = Some r
    ∧ status r = true
    ∧ mUniqueModVec (parser r)
      = mUniqueModVec qpsk_parser ++ [mSingleModulation qpsk_parser]
    ∧ mUniqueSnrVec (parser r) = mUniqueSnrVec qpsk_parser ++ snrs_upto 26
    ∧ size (mMap (parser r)) = (size (mMap qpsk_parser) + 26)%nat
    ∧ (∀ key : ModulationSnrPair,
         fst key ≠ mSingleModulation qpsk_parser →
         mMap (parser r) !! key = mMap qpsk_parser !! key)
    ∧ ∀ j : Z,
        0 <= j < 26 →
        ∃ sd : SignalData,
          mMap (parser r) !! (mSingleModulation qpsk_parser, -20 + 2 * j)
          = Some sd
          ∧ Z.of_nat (length (frameDataVec sd)) = 4096
          ∧ Forall (fun frame => Z.of_nat (length frame) = 1024)
              (frameDataVec sd)
          ∧ (∀ r t : Z,
               0 <= r < 4096 → 0 <= t < 1024 →
               ∃ frame : FrameData,
                 frameDataVec sd !! Z.to_nat r = Some frame
                 ∧ frame !! Z.to_nat t
                   = Some
                       {| i := element zero_env (mFilePath cube)
                                 (START_ELEMENT cube
                                    (mSingleModulation qpsk_parser)
                                  + 2048 * (4096 * j + r) + 2 * t);
                          q := element zero_env (mFilePath cube)
                                 (START_ELEMENT cube
                                    (mSingleModulation qpsk_parser)
                                  + 2048 * (4096 * j + r) + 2 * t + 1) |})
          ∧ is_max_magnitude (maxVal sd) (frameDataVec sd).
Proof.
  exact (loadTreeItem_stores_the_slab zero_env qpsk_parser cube_item cube
           eq_refl eq_refl eq_refl eq_refl eq_refl eq_refl eq_refl eq_refl
           (fun snr => lookup_empty (NAME_QPSK, snr))).
Defined.

(** *** The parse of a whole file *)

Lemma snrs_upto_sorted (c : nat) :
  StronglySorted Z.lt (snrs_upto c).
Proof.
  unfold snrs_upto.
  assert (∀ (n s : nat),
            StronglySorted Z.lt
              ((fun k : nat => -20 + 2 * Z.of_nat k) <$> seq s n)) as H.
  { induction n as [| n IH]; intros s0; [constructor |].
    cbn [seq fmap list_fmap]. constructor; [apply IH |].
    apply Forall_fmap, Forall_forall. intros x Hx.
    apply elem_of_seq in Hx. simpl. lia. }
  apply H.
Qed.

Lemma removeDuplicates_snrs (c : nat) :
  removeDuplicates_int (snrs_upto c) = snrs_upto c.
Proof.
  unfold removeDuplicates_int.
  apply (sort_distinct_sorted (fun z : Z => z) Z.le).
  - intros x y. reflexivity.
  - intros x y E. exact E.
  - apply snrs_upto_sorted.
Qed.

Lemma parse_complete_closed (fs : H5FileSystem) (env : Hdf5Env)
    (p : DatasetParser) (file : H5File) (dx dy dz : Hdf5Dataset) :
  is_unknown (mSingleModulation p) = false →
  fs (DatasetParser.mFileName p) = Some file →
  visit_ok file = true →
  root_datasets file
  = [("X"%string, dx); ("Y"%string, dy); ("Z"%string, dz)] →
  mDataBuffer dx = false →
  mDatatypeClass dx = H5T_FLOAT →
  mDatatypeSize dx = 4 →
  X_shape_bad dx = false →
  Y_shape_bad dy = false →
  Z_shape_bad dz = false →
  malloc_ok env (TOTAL_BYTES dx) = true →
  read_ok env (mFilePath dx) = true →
  parseDatasetSingleModulation fs env p
  = Some
      ({| DatasetParser.mFileName := DatasetParser.mFileName p;
          mStatus := true;
          mUniqueModVec := [mSingleModulation p];
          mUniqueSnrVec := snrs_upto 26;
          mSingleModulation := mSingleModulation p;
          mMap :=
            slabStore (mSingleModulation p) (element env (mFilePath dx))
              (START_ELEMENT dx (mSingleModulation p)) ∅ 26 |},
       [Malloc (TOTAL_BYTES dx);
        H5Dread (mFilePath dx) H5S_ALL H5S_ALL; Free]).
Proof.
  intros Hm Hfs Hvisit Hroot Hbuf Hcls Hsize HX HY HZ Hmalloc Hread.
  unfold parseDatasetSingleModulation. rewrite Hm, Hfs, Hvisit.
  cbn [negb]. unfold rootChildren. rewrite Hroot.
  cbn [fmap list_fmap fst snd childrenLoop mItemName mDataset String.eqb
       Ascii.eqb Bool.eqb parseFailed orb andb].
  rewrite HX. cbn [orb childParser].
  rewrite (loadTreeItem_slab env _
             {| mFileName := DatasetParser.mFileName p; mItemName := "X";
                mItemType := ITEM_TYPE_VARIABLE; mDataset := Some dx |}
             dx eq_refl eq_refl Hbuf Hcls HX Hsize Hmalloc Hread).
  cbn [mbind option_bind status parser calls negb foundX foundY foundZ
       parseFailed childParser childCalls orb app mSingleModulation
       mUniqueModVec mUniqueSnrVec mMap DatasetParser.mFileName].
  rewrite HY, HZ.
  cbn [mbind option_bind status parser calls negb foundX foundY foundZ
       parseFailed childParser childCalls orb app mSingleModulation
       mUniqueModVec mUniqueSnrVec mMap DatasetParser.mFileName].
  rewrite removeDuplicates_snrs.
  reflexivity.
Qed.

(** X14: the parse of a file whose root group holds the datasets [X],
    [Y] and [Z] of the expected shapes, for a modulation other than
    [NAME_UNKNOWN], with the memory granted and the read succeeding.  The
    status is [true], the modulations are the chosen one, the SNRs are the
    26 values from -20 to 30, the map holds 26 signals, all of the chosen
    modulation, one per SNR, decoded from the slab of the modulation; the
    cube is allocated once, read once and freed once. *)
Theorem parse_of_a_complete_file (fs : H5FileSystem) (env : Hdf5Env)
    (p : DatasetParser) (file : H5File) (dx dy dz : Hdf5Dataset) :
  is_unknown (mSingleModulation p) = false →
  fs (DatasetParser.mFileName p) = Some file →
  visit_ok file = true →
  root_datasets file
  = [("X"%string, dx); ("Y"%string, dy); ("Z"%string, dz)] →
  mDataBuffer dx = false →
  mDatatypeClass dx = H5T_FLOAT →
  mDatatypeSize dx = 4 →
  X_shape_bad dx = false →
  Y_shape_bad dy = false →
  Z_shape_bad dz = false →
  malloc_ok env (TOTAL_BYTES dx) = true →
  read_ok env (mFilePath dx) = true →
  ∃ p' : DatasetParser,
    parseDatasetSingleModulation fs env p
    = Some (p', [Malloc 20937965568;
                 H5Dread (mFilePath dx) H5S_ALL H5S_ALL; Free])
    ∧ mStatus p' = true
    ∧ mUniqueModVec p' = [mSingleModulation p]
    ∧ mUniqueSnrVec p' = snrs_upto 26
    ∧ size (mMap p') = 26%nat
    ∧ (∀ key sd, mMap p' !! key = Some sd → fst key = mSingleModulation p)
    ∧ ∀ j : Z,
        0 <= j < 26 →
        mMap p' !! (mSingleModulation p, -20 + 2 * j)
        = Some (snrSignal (element env (mFilePath dx))
                  (modOffset (mSingleModulation p) * 218103808) j 4096).
Proof.
  intros Hm Hfs Hvisit Hroot Hbuf Hcls Hsize HX HY HZ Hmalloc Hread.
  rewrite (parse_complete_closed fs env p file dx dy dz Hm Hfs Hvisit Hroot
             Hbuf Hcls Hsize HX HY HZ Hmalloc Hread).
  rewrite (cube_bytes dx HX Hsize), (cube_start dx _ HX).
  eexists. split; [reflexivity |].
  cbn [mStatus mUniqueModVec mUniqueSnrVec mMap].
  split; [reflexivity |]. split; [reflexivity |]. split; [reflexivity |].
  split; [| split].
  - rewrite (slabStore_size _ _ _ _ 26); [by rewrite map_size_empty |].
    intros j _. apply lookup_empty.
  - intros key sd Hkey.
    destruct (decide (fst key = mSingleModulation p)) as [E | Hne]; [done |].
    rewrite (slabStore_lookup_other _ _ _ _ _ 26) in Hkey.
    + by rewrite lookup_empty in Hkey.
    + intros j _ ->. by apply Hne.
  - intros j Hj. apply (slabStore_lookup _ _ _ _ 26); [| lia].
    intros j' _. apply lookup_empty.
Qed.

Lemma radioml_file_parse :
  parseDatasetSingleModulation radioml_fs zero_env qpsk_parser
  = Some
      ({| DatasetParser.mFileName := DatasetParser.mFileName qpsk_parser;
          mStatus := true;
          mUniqueModVec := [mSingleModulation qpsk_parser];
          mUniqueSnrVec := snrs_upto 26;
          mSingleModulation := mSingleModulation qpsk_parser;
          mMap :=
            slabStore (mSingleModulation qpsk_parser)
              (element zero_env (mFilePath cube))
              (START_ELEMENT cube (mSingleModulation qpsk_parser)) ∅ 26 |},
       [Malloc (TOTAL_BYTES cube);
        H5Dread (mFilePath cube) H5S_ALL H5S_ALL; Free]).
Proof.
  exact (parse_complete_closed radioml_fs zero_env qpsk_parser radioml_file
           cube (labels 2555904 24 "/Y") (labels 2555904 1 "/Z")
           eq_refl eq_refl eq_refl eq_refl eq_refl eq_refl eq_refl eq_refl
           eq_refl eq_refl eq_refl eq_refl).
Qed.

Lemma parse_of_a_complete_file_witness :
  ∃ p' : DatasetParser,
    parseDatasetSingleModulation radioml_fs zero_env qpsk_parser
    = Some (p', [Malloc 20937965568;
                 H5Dread (mFilePath cube) H5S_ALL H5S_ALL; Free])
    ∧ mStatus p' = true
    ∧ mUniqueModVec p' = [mSingleModulation qpsk_parser]
    ∧ mUniqueSnrVec p' = snrs_upto 26
    ∧ size (mMap p') = 26%nat
    ∧ (∀ key sd, mMap p' !! key = Some sd →
                 fst key = mSingleModulation qpsk_parser)
    ∧ ∀ j : Z,
        0 <= j < 26 →
        mMap p' !! (mSingleModulation qpsk_parser, -20 + 2 * j)
        = Some (snrSignal (element zero_env (mFilePath cube))
                  (modOffset (mSingleModulation qpsk_parser) * 218103808)
                  j 4096).
Proof.
  exact (parse_of_a_complete_file radioml_fs zero_env qpsk_parser
           radioml_file cube (labels 2555904 24 "/Y")
           (labels 2555904 1 "/Z")
           eq_refl eq_refl eq_refl eq_refl eq_refl eq_refl eq_refl eq_refl
           eq_refl eq_refl eq_refl eq_refl).
Defined.

(** *** What a successful parse has met *)

Lemma loadTreeItem_status_true (env : Hdf5Env) (p : DatasetParser)
    (item : Hdf5ItemData) (r : LoadResult) :
  loadTreeItem env p item = Some r →
  status r = true →
  ∃ ds : Hdf5Dataset,
    mDataset item = Some ds
    ∧ mDataBuffer ds = false
    ∧ mDatatypeClass ds = H5T_FLOAT
    ∧ malloc_ok env (TOTAL_BYTES ds) = true
    ∧ read_ok env (mFilePath ds) = true.
Proof.
  unfold loadTreeItem.
  destruct (negb (bool_decide (mItemType item = ITEM_TYPE_VARIABLE)));
    [by intros [= <-] |].
  destruct (mDataset item) as [ds |]; [| done].
  destruct (mDataBuffer ds) eqn:Ebuf; [by intros [= <-] |].
  destruct (bool_decide (mDatatypeClass ds = H5T_FLOAT)) eqn:Ecls;
    [| by intros [= <-]].
  apply bool_decide_eq_true_1 in Ecls. cbn [negb].
  destruct (malloc_ok env (TOTAL_BYTES ds)) eqn:Emalloc;
    [| by intros [= <-]].
  destruct (read_ok env (mFilePath ds)) eqn:Eread; [| by intros [= <-]].
  intros _ _. by exists ds.
Qed.

(** What the flags of the loop over the children stand for. *)
Lemma childrenLoop_found (env : Hdf5Env) (X Y Z0 : Hdf5ItemData → Prop)
    (children : list Hdf5ItemData) :
  (∀ c ds, c ∈ children → mItemName c = "X"%string →
           mDataset c = Some ds → X_shape_bad ds = false →
           mDataBuffer ds = false → mDatatypeClass ds = H5T_FLOAT →
           malloc_ok env (TOTAL_BYTES ds) = true →
           read_ok env (mFilePath ds) = true → X c) →
  (∀ c ds, c ∈ children → mItemName c = "Y"%string →
           mDataset c = Some ds → Y_shape_bad ds = false → Y c) →
  (∀ c ds, c ∈ children → mItemName c = "Z"%string →
           mDataset c = Some ds → Z_shape_bad ds = false → Z0 c) →
  ∀ st st' : ChildState,
    childrenLoop env children st = Some st' →
    parseFailed st' = false →
    (foundX st = true → ∃ c, X c) →
    (foundY st = true → ∃ c, Y c) →
    (foundZ st = true → ∃ c, Z0 c) →
    (foundX st' = true → ∃ c, X c)
    ∧ (foundY st' = true → ∃ c, Y c)
    ∧ (foundZ st' = true → ∃ c, Z0 c).
Proof.
  induction children as [| c rest IH]; intros HX HY HZ st st' Hrun Hok
    HfX HfY HfZ.
  - injection Hrun as <-. done.
  - assert (∀ st0,
              childrenLoop env rest st0 = Some st' →
              (foundX st0 = true → ∃ c, X c) →
              (foundY st0 = true → ∃ c, Y c) →
              (foundZ st0 = true → ∃ c, Z0 c) →
              (foundX st' = true → ∃ c, X c)
              ∧ (foundY st' = true → ∃ c, Y c)
              ∧ (foundZ st' = true → ∃ c, Z0 c)) as Hrest.
    { intros st0 Hrun0. apply IH; try done.
      - intros c' ds' Hc'. apply HX. by apply elem_of_cons; right.
      - intros c' ds' Hc'. apply HY. by apply elem_of_cons; right.
      - intros c' ds' Hc'. apply HZ. by apply elem_of_cons; right. }
    assert (c ∈ c :: rest) as Hc by (apply elem_of_cons; by left).
    cbn [childrenLoop] in Hrun.
    destruct (mDataset c) as [ds |] eqn:Eds.
    + destruct (String.eqb "X" (mItemName c)) eqn:EX.
      * apply String.eqb_eq in EX.
        destruct (X_shape_bad ds || parseFailed st) eqn:Ebad.
        { injection Hrun as <-. done. }
        apply orb_false_iff in Ebad as [Ebad _].
        destruct (loadTreeItem env (childParser st) c) as [r |] eqn:Er;
          [| done].
        cbn [mbind option_bind] in Hrun.
        apply (Hrest _ Hrun); cbn [foundX foundY foundZ]; try done.
        intros Hst.
        destruct (loadTreeItem_status_true env _ c r Er Hst)
          as (ds' & Eds' & Hbuf & Hcls & Hmalloc & Hread).
        rewrite Eds in Eds'. injection Eds' as <-.
        exists c. by apply (HX c ds).
      * destruct (String.eqb "Y" (mItemName c)) eqn:EY.
        { apply String.eqb_eq in EY.
          destruct (Y_shape_bad ds || parseFailed st) eqn:Ebad.
          { injection Hrun as <-. done. }
          apply orb_false_iff in Ebad as [Ebad _].
          apply (Hrest _ Hrun); cbn [foundX foundY foundZ]; try done.
          intros _. exists c. by apply (HY c ds). }
        destruct (String.eqb "Z" (mItemName c)) eqn:EZ.
        { apply String.eqb_eq in EZ.
          destruct (Z_shape_bad ds || parseFailed st) eqn:Ebad.
          { injection Hrun as <-. done. }
          apply orb_false_iff in Ebad as [Ebad _].
          apply (Hrest _ Hrun); cbn [foundX foundY foundZ]; try done.
          intros _. exists c. by apply (HZ c ds). }
        by apply (Hrest _ Hrun).
    + destruct (String.eqb "X" (mItemName c) || String.eqb "Y" (mItemName c)
                || String.eqb "Z" (mItemName c)); [done |].
      by apply (Hrest _ Hrun).
Qed.

(** X15: a parse that returns with the status [true] has met a known
    modulation, a file that opens and whose visit succeeds, a dataset [X] of
    the expected shape and of class [H5T_FLOAT] for which the allocation and
    the read succeeded, and datasets [Y] and [Z] of the expected shapes; and
    it ends with 26 SNRs. *)
Theorem parse_success_needs_X_Y_Z (fs : H5FileSystem) (env : Hdf5Env)
    (p p' : DatasetParser) (cs : list LibCall) :
  parseDatasetSingleModulation fs env p = Some (p', cs) →
  mStatus p' = true →
  mSingleModulation p ≠ NAME_UNKNOWN
  ∧ Z.of_nat (length (mUniqueSnrVec p')) = 26
  ∧ ∃ file : H5File,
      fs (DatasetParser.mFileName p) = Some file
      ∧ visit_ok file = true
      ∧ (∃ dx, ("X"%string, dx) ∈ root_datasets file
               ∧ X_shape_bad dx = false
               ∧ mDataBuffer dx = false
               ∧ mDatatypeClass dx = H5T_FLOAT
               ∧ malloc_ok env (TOTAL_BYTES dx) = true
               ∧ read_ok env (mFilePath dx) = true)
      ∧ (∃ dy, ("Y"%string, dy) ∈ root_datasets file
               ∧ Y_shape_bad dy = false)
      ∧ (∃ dz, ("Z"%string, dz) ∈ root_datasets file
               ∧ Z_shape_bad dz = false).
Proof.
  unfold parseDatasetSingleModulation.
  destruct (is_unknown (mSingleModulation p)) eqn:Em;
    [by intros [= <- _] |].
  destruct (fs (DatasetParser.mFileName p)) as [file |];
    [| by intros [= <- _]].
  destruct (visit_ok file) eqn:Ev; [| by intros [= <- _]].
  cbn [negb].
  destruct (childrenLoop env _ _) as [st |] eqn:Eloop; [| done].
  cbn [mbind option_bind].
  destruct (parseFailed st || negb (foundX st) || negb (foundY st)
            || negb (foundZ st)) eqn:Efail; [by intros [= <- _] |].
  apply orb_false_iff in Efail as [Efail HfZ].
  apply orb_false_iff in Efail as [Efail HfY].
  apply orb_false_iff in Efail as [Hpf HfX].
  apply negb_false_iff in HfX, HfY, HfZ.
  change (SNRS_NR DATASET_SOURCE_RADIOML_2018_01) with 26.
  set (snrs := removeDuplicates_int (mUniqueSnrVec (childParser st))).
  set (failed := negb (26 =? Z.of_nat (length snrs))).
  intros Hres Hlen.
  apply (f_equal (fun r => match r with Some (q, _) => Some q | None => None
                           end)) in Hres.
  injection Hres as <-. cbn [mStatus mUniqueSnrVec] in Hlen |- *.
  subst failed. apply negb_true_iff, negb_false_iff, Z.eqb_eq in Hlen.
  split.
  { intros E. by rewrite (proj2 (is_unknown_spec _) E) in Em. }
  split; [done |].
  exists file. split; [done |]. split; [done |].
  pose proof (childrenLoop_found env
    (fun c => ∃ dx, ("X"%string, dx) ∈ root_datasets file
                    ∧ X_shape_bad dx = false
                    ∧ mDataBuffer dx = false
                    ∧ mDatatypeClass dx = H5T_FLOAT
                    ∧ malloc_ok env (TOTAL_BYTES dx) = true
                    ∧ read_ok env (mFilePath dx) = true)
    (fun c => ∃ dy, ("Y"%string, dy) ∈ root_datasets file
                    ∧ Y_shape_bad dy = false)
    (fun c => ∃ dz, ("Z"%string, dz) ∈ root_datasets file
                    ∧ Z_shape_bad dz = false)
    (rootChildren (DatasetParser.mFileName p) file)) as Hfound.
  assert (∀ c ds name,
            c ∈ rootChildren (DatasetParser.mFileName p) file →
            mItemName c = name → mDataset c = Some ds →
            (name, ds) ∈ root_datasets file) as Hmem.
  { intros c ds name Hc Hname Hds. unfold rootChildren in Hc.
    apply list_elem_of_fmap in Hc as ([n d] & -> & He).
    cbn in Hname, Hds. injection Hds as <-. by subst n. }
  destruct (Hfound
              ltac:(intros c ds Hc Hn Hds; exists ds; split;
                      [by apply (Hmem c) | done])
              ltac:(intros c ds Hc Hn Hds; exists ds; split;
                      [by apply (Hmem c) | done])
              ltac:(intros c ds Hc Hn Hds; exists ds; split;
                      [by apply (Hmem c) | done])
              _ st Eloop Hpf
              ltac:(discriminate) ltac:(discriminate) ltac:(discriminate))
    as (HX & HY & HZ).
  destruct (HX HfX) as [_ HX']. destruct (HY HfY) as [_ HY'].
  destruct (HZ HfZ) as [_ HZ']. done.
Qed.

Lemma parse_success_needs_X_Y_Z_witness :
  mSingleModulation qpsk_parser ≠ NAME_UNKNOWN
  ∧ Z.of_nat (length (snrs_upto 26)) = 26
  ∧ ∃ file : H5File,
      radioml_fs (DatasetParser.mFileName qpsk_parser) = Some file
      ∧ visit_ok file = true
      ∧ (∃ dx, ("X"%string, dx) ∈ root_datasets file
               ∧ X_shape_bad dx = false
               ∧ mDataBuffer dx = false
               ∧ mDatatypeClass dx = H5T_FLOAT
               ∧ malloc_ok zero_env (TOTAL_BYTES dx) = true
               ∧ read_ok zero_env (mFilePath dx) = true)
      ∧ (∃ dy, ("Y"%string, dy) ∈ root_datasets file
               ∧ Y_shape_bad dy = false)
      ∧ (∃ dz, ("Z"%string, dz) ∈ root_datasets file
               ∧ Z_shape_bad dz = false).
Proof.
  exact (parse_success_needs_X_Y_Z radioml_fs zero_env qpsk_parser _ _
           radioml_file_parse eq_refl).
Defined.

End Hdf5StoreFacts.

(** ** AdiTrx: the readers of the attribute strings *)

Section ExtractFacts.
Import AdiTrx AdiTrxExtract TokenSpec ExtractSpec.

Lemma find_first_not_of_shift (c : ascii) (s : string) (k : nat) :
  ∀ pre : string,
    find_first_not_of c (pre +:+ s) (String.length pre + k)
    = (fun m => String.length pre + m)%nat <$> find_first_not_of c s k.
Proof.
  induction pre as [| a pre IH].
  - change (EmptyString +:+ s) with s. cbn [String.length plus].
    destruct (find_first_not_of c s k); reflexivity.
  - change (String a pre +:+ s) with (String a (pre +:+ s)).
    cbn [String.length plus find_first_not_of]. rewrite IH.
    destruct (find_first_not_of c s k); reflexivity.
Qed.

Lemma find_first_not_of_spaces (n : nat) (a : ascii) (rest : string) :
  a ≠ " "%char →
  find_first_not_of " " (spaces n +:+ String a rest) 0 = Some n.
Proof.
  intros Ha. induction n as [| n IH].
  - simpl. apply Ascii.eqb_neq in Ha. by rewrite Ha.
  - change (spaces (S n) +:+ String a rest)
      with (String " " (spaces n +:+ String a rest)).
    cbn [find_first_not_of]. rewrite Ascii.eqb_refl, IH. reflexivity.
Qed.

Lemma find_first_not_of_only_spaces (n : nat) :
  find_first_not_of " " (spaces n) 0 = None.
Proof.
  induction n as [| n IH]; [reflexivity |].
  cbn [spaces find_first_not_of]. by rewrite Ascii.eqb_refl, IH.
Qed.

Lemma word_head (t : string) :
  word t → ∃ a t', t = String a t' ∧ a ≠ " "%char.
Proof.
  intros [Hne Habs]. destruct t as [| a t']; [done |].
  apply absent_from_head in Habs as [Ha _]. exists a, t'. split; congruence.
Qed.

Lemma spaces_length (n : nat) : String.length (spaces n) = n.
Proof. induction n as [| n IH]; simpl; [reflexivity | by rewrite IH]. Qed.

Lemma absent_from_spaces_word (n : nat) (t : string) :
  absent_from 0 " " t = true → absent_from n " " (spaces n +:+ t) = true.
Proof. intros H. induction n as [| n IH]; [exact H | exact IH]. Qed.

(** One round of the loop at the spaces before a word that is followed by
    a space. *)
Lemma splitFrom_step (fuel n : nat) (pre t rest : string) :
  word t →
  splitFrom (S fuel) (pre +:+ (spaces n +:+ (t +:+ String " " rest)))
    (String.length pre)
  = t :: splitFrom fuel ((pre +:+ (spaces n +:+ t)) +:+ String " " rest)
           (String.length (pre +:+ (spaces n +:+ t))).
Proof.
  intros Ht. destruct (word_head t Ht) as (a & t' & Et & Ha).
  destruct Ht as [_ Habs].
  cbn [splitFrom].
  rewrite <- (Nat.add_0_r (String.length pre)) at 1.
  rewrite find_first_not_of_shift.
  assert (find_first_not_of " " (spaces n +:+ (t +:+ String " " rest)) 0
          = Some n) as ->.
  { rewrite Et. change (String a t' +:+ String " " rest)
      with (String a (t' +:+ String " " rest)).
    by apply find_first_not_of_spaces. }
  cbn [fmap option_fmap option_map].
  rewrite index_char_shift.
  rewrite <- (spaces_length n) at 1.
  rewrite <- (Nat.add_0_r (String.length (spaces n))).
  rewrite index_char_shift.
  rewrite (index_char_append " " rest t 0 Habs) by lia.
  cbn [fmap option_fmap option_map]. rewrite spaces_length.
  replace (String.length pre + (n + String.length t)
           - (String.length pre + n))%nat
    with (String.length t) by lia.
  rewrite substring_shift.
  rewrite <- (spaces_length n) at 1.
  rewrite substring_skip, substring_prefix.
  f_equal. rewrite !string_app_assoc, !length_append, spaces_length.
  reflexivity.
Qed.

(** The round at the spaces before the last word, which ends the string. *)
Lemma splitFrom_last (fuel n : nat) (pre t : string) :
  word t →
  splitFrom (S fuel) (pre +:+ (spaces n +:+ t)) (String.length pre) = [t].
Proof.
  intros Ht. destruct (word_head t Ht) as (a & t' & Et & Ha).
  destruct Ht as [_ Habs].
  cbn [splitFrom].
  rewrite <- (Nat.add_0_r (String.length pre)) at 1.
  rewrite find_first_not_of_shift.
  assert (find_first_not_of " " (spaces n +:+ t) 0 = Some n) as ->
    by (rewrite Et; by apply find_first_not_of_spaces).
  cbn [fmap option_fmap option_map].
  rewrite index_char_shift.
  rewrite (index_char_absent " " (spaces n +:+ t) n)
    by (by apply absent_from_spaces_word).
  cbn [fmap option_fmap option_map].
  rewrite !length_append, spaces_length.
  replace (String.length pre + (n + String.length t)
           - (String.length pre + n))%nat
    with (String.length t) by lia.
  rewrite substring_shift.
  rewrite <- (spaces_length n) at 1.
  rewrite substring_skip, substring_all. reflexivity.
Qed.

(** The round at the spaces that end the string. *)
Lemma splitFrom_none (fuel n : nat) (pre : string) :
  splitFrom fuel (pre +:+ spaces n) (String.length pre) = [].
Proof.
  destruct fuel; [reflexivity |]. cbn [splitFrom].
  rewrite <- (Nat.add_0_r (String.length pre)).
  rewrite find_first_not_of_shift, find_first_not_of_only_spaces.
  reflexivity.
Qed.

Lemma splitFrom_spaced (trail : nat) :
  ∀ (l : list (nat * string)) (fuel n : nat) (pre t : string),
    word t → Forall (fun e => word (snd e)) l →
    (length l + 2 ≤ fuel)%nat →
    splitFrom fuel (pre +:+ (spaces n +:+ (t +:+ spaced l trail)))
      (String.length pre)
    = t :: (snd <$> l).
Proof.
  induction l as [| [m t1] l IH]; intros fuel n pre t Ht Hl Hfuel.
  - destruct fuel as [| fuel]; [simpl in Hfuel; lia |].
    cbn [spaced fmap list_fmap]. destruct trail as [| trail].
    + cbn [spaces]. rewrite string_app_nil_r. by apply splitFrom_last.
    + cbn [spaces]. rewrite splitFrom_step by done. f_equal.
      change (String " " (spaces trail)) with (spaces (S trail)).
      apply splitFrom_none.
  - destruct fuel as [| fuel]; [simpl in Hfuel; lia |].
    apply Forall_cons in Hl as [Ht1 Hl]. cbn [snd] in Ht1.
    cbn [spaced fmap list_fmap snd].
    change (String " " (spaces m) +:+ (t1 +:+ spaced l trail))
      with (String " " (spaces m +:+ (t1 +:+ spaced l trail))).
    rewrite splitFrom_step by done. f_equal.
    change (String " " (spaces m +:+ (t1 +:+ spaced l trail)))
      with (spaces (S m) +:+ (t1 +:+ spaced l trail)).
    apply IH; [done | done | simpl in Hfuel; lia].
Qed.

Lemma word_length (t : string) : word t → (1 ≤ String.length t)%nat.
Proof. intros [Hne _]. destruct t; [done | simpl; lia]. Qed.

Lemma spaced_length (trail : nat) (l : list (nat * string)) :
  Forall (fun e => word (snd e)) l →
  (2 * length l ≤ String.length (spaced l trail))%nat.
Proof.
  induction 1 as [| [n t] l Ht _ IH]; [simpl; lia |].
  cbn [spaced length]. rewrite !length_append. cbn [String.length].
  apply word_length in Ht. cbn [snd] in Ht. lia.
Qed.

Lemma split_spaced (lead trail : nat) (t0 : string)
    (l : list (nat * string)) :
  word t0 → Forall (fun e => word (snd e)) l →
  Z.of_nat (String.length (spaces lead +:+ (t0 +:+ spaced l trail)))
  <= INT_MAX →
  split (spaces lead +:+ (t0 +:+ spaced l trail)) = Some (t0 :: (snd <$> l)).
Proof.
  intros Ht0 Hl Hlen. unfold split.
  assert ((INT_MAX <? Z.of_nat
             (String.length (spaces lead +:+ (t0 +:+ spaced l trail))))
          = false) as -> by (apply Z.ltb_ge; lia).
  f_equal.
  apply (splitFrom_spaced trail l _ lead EmptyString t0 Ht0 Hl).
  change (EmptyString +:+ ?x) with x.
  rewrite !length_append.
  pose proof (spaced_length trail l Hl). apply word_length in Ht0. lia.
Qed.

(** X16: the loop shared by the readers cuts a string at its spaces.  A
    string of fewer than [2 ^ 31] characters made of words, which are not
    empty and hold no space, with any number of spaces before the first
    word, at least one space between two words and any number of spaces at
    the end, gives exactly its words in order; a string of spaces gives no
    word.  [extractDouble] then reads the word of the index it is given with
    [atof], and returns [false] with 0 when there is no such word. *)
Theorem split_yields_the_words (lead trail : nat) (t0 : string)
    (l : list (nat * string)) (aIndex : nat) :
  word t0 →
  Forall (fun e => word (snd e)) l →
  Z.of_nat (String.length (spaces lead +:+ (t0 +:+ spaced l trail)))
  <= INT_MAX →
  split (spaces lead +:+ (t0 +:+ spaced l trail)) = Some (t0 :: (snd <$> l))
  ∧ split (spaces lead) = Some []
  ∧ extractDouble (spaces lead +:+ (t0 +:+ spaced l trail)) aIndex
    = match (t0 :: (snd <$> l)) !! aIndex with
      | Some t => Extracted true (Ieee.atof t)
      | None => Extracted false 0%Q
      end
  ∧ extractDouble (spaces lead) aIndex = Extracted false 0%Q.
Proof.
  intros Ht0 Hl Hlen.
  pose proof (split_spaced lead trail t0 l Ht0 Hl Hlen) as Hsplit.
  assert (split (spaces lead) = Some []) as Hnone.
  { unfold split.
    assert ((INT_MAX <? Z.of_nat (String.length (spaces lead))) = false)
      as ->.
    { apply Z.ltb_ge. rewrite !length_append in Hlen. lia. }
    f_equal. apply (splitFrom_none _ lead EmptyString). }
  split; [exact Hsplit |]. split; [exact Hnone |]. split.
  - unfold extractDouble. rewrite Hsplit.
    assert ((0 <? String.length (spaces lead +:+ (t0 +:+ spaced l trail)))%nat
            = true) as ->.
    { apply Nat.ltb_lt. rewrite !length_append.
      apply word_length in Ht0. lia. }
    reflexivity.
  - unfold extractDouble. rewrite Hnone.
    destruct (0 <? String.length (spaces lead))%nat; reflexivity.
Qed.

Lemma split_yields_the_words_witness :
  split (spaces 2 +:+ ("-30" +:+ spaced [(0%nat, "0.25"); (3%nat, "0")] 1))
  = Some ("-30" :: (snd <$> [(0%nat, "0.25"); (3%nat, "0")]))%string
  ∧ split (spaces 2) = Some []
  ∧ extractDouble
      (spaces 2 +:+ ("-30" +:+ spaced [(0%nat, "0.25"); (3%nat, "0")] 1)) 1
    = match ("-30" :: (snd <$> [(0%nat, "0.25"); (3%nat, "0")]))%string
            !! 1%nat with
      | Some t => Extracted true (Ieee.atof t)
      | None => Extracted false 0%Q
      end
  ∧ extractDouble (spaces 2) 1 = Extracted false 0%Q.
Proof.
  refine (split_yields_the_words 2 1 "-30"
            [(0%nat, "0.25"%string); (3%nat, "0"%string)] 1 _ _ _).
  - split; [discriminate | reflexivity].
  - repeat constructor; discriminate.
  - vm_compute. discriminate.
Defined.

(** *** Decimal numerals *)

Lemma read_digits_acc (d : Decimal.uint) :
  ∀ (acc : positive) (cnt : Z),
    Ieee.read_digits (DecimalString.NilEmpty.string_of_uint d) (Zpos acc) cnt
    = (Zpos (Pos.of_uint_acc d acc),
       cnt + Z.of_nat (Decimal.nb_digits d), EmptyString).
Proof.
  induction d as [| d IH | d IH | d IH | d IH | d IH | d IH | d IH | d IH
                  | d IH | d IH]; intros acc cnt;
    cbn [DecimalString.NilEmpty.string_of_uint Ieee.read_digits
         Decimal.nb_digits Pos.of_uint_acc];
    [f_equal; f_equal; lia | ..];
    (match goal with
     | |- context [Ieee.digit_of ?c] =>
         let v := eval vm_compute in (Ieee.digit_of c) in
         change (Ieee.digit_of c) with v
     end);
    cbv iota;
    (match goal with
     | |- Ieee.read_digits _ ?a ?c = _ =>
         match goal with
         | |- _ = (Zpos (Pos.of_uint_acc _ ?p), _, _) =>
             replace a with (Zpos p) by lia
         end
     end);
    rewrite IH; f_equal; f_equal; lia.
Qed.

Lemma read_digits_uint (d : Decimal.uint) :
  ∀ cnt : Z,
    Ieee.read_digits (DecimalString.NilEmpty.string_of_uint d) 0 cnt
    = (Z.of_N (Pos.of_uint d),
       cnt + Z.of_nat (Decimal.nb_digits d), EmptyString).
Proof.
  induction d as [| d IH | d IH | d IH | d IH | d IH | d IH | d IH | d IH
                  | d IH | d IH]; intros cnt;
    cbn [DecimalString.NilEmpty.string_of_uint Ieee.read_digits
         Decimal.nb_digits Pos.of_uint];
    [f_equal; f_equal; lia | ..];
    (match goal with
     | |- context [Ieee.digit_of ?c] =>
         let v := eval vm_compute in (Ieee.digit_of c) in
         change (Ieee.digit_of c) with v
     end);
    cbv iota;
    [change (10 * 0 + 0) with 0; rewrite IH; f_equal; f_equal; lia | ..];
    (match goal with
     | |- Ieee.read_digits _ ?a ?c = _ =>
         let v := eval vm_compute in a in change a with v
     end);
    rewrite read_digits_acc; cbn [Z.of_N]; f_equal; f_equal; lia.
Qed.

Lemma uint_string_word (d : Decimal.uint) :
  absent_from 0 " " (DecimalString.NilEmpty.string_of_uint d) = true.
Proof.
  induction d; cbn [DecimalString.NilEmpty.string_of_uint];
    [reflexivity | ..];
    (match goal with
     | |- absent_from 0 ?c (String ?a ?s) = true =>
         change (negb (Ascii.eqb a c) && absent_from 0 c s = true)
     end); rewrite IHd; reflexivity.
Qed.

Lemma to_uint_not_nil (p : positive) : Pos.to_uint p ≠ Decimal.Nil.
Proof.
  intros E. pose proof (DecimalPos.Unsigned.of_to p) as H.
  rewrite E in H. discriminate H.
Qed.

Lemma numeral_pos (p : positive) :
  numeral (Zpos p) = DecimalString.NilEmpty.string_of_uint (Pos.to_uint p).
Proof.
  unfold numeral. cbn [Z.to_int DecimalString.NilZero.string_of_int].
  unfold DecimalString.NilZero.string_of_uint.
  pose proof (to_uint_not_nil p). by destruct (Pos.to_uint p).
Qed.

Lemma numeral_neg (p : positive) :
  numeral (Zneg p)
  = String "-" (DecimalString.NilEmpty.string_of_uint (Pos.to_uint p)).
Proof.
  unfold numeral. cbn [Z.to_int DecimalString.NilZero.string_of_int].
  unfold DecimalString.NilZero.string_of_uint.
  pose proof (to_uint_not_nil p). by destruct (Pos.to_uint p).
Qed.

Lemma numeral_word (z : Z) : word (numeral z).
Proof.
  destruct z as [| p | p].
  - split; [discriminate | reflexivity].
  - rewrite numeral_pos. split; [| apply uint_string_word].
    pose proof (to_uint_not_nil p). by destruct (Pos.to_uint p).
  - rewrite numeral_neg. split; [discriminate |].
    change (negb (Ascii.eqb "-" " ")
            && absent_from 0 " "
                 (DecimalString.NilEmpty.string_of_uint (Pos.to_uint p))
            = true).
    by rewrite uint_string_word.
Qed.

(** A digit string is left alone by the white space and sign readers. *)
Lemma uint_string_unsigned (d : Decimal.uint) :
  Ieee.read_sign
    (Ieee.skip_spaces (DecimalString.NilEmpty.string_of_uint d))
  = (false, DecimalString.NilEmpty.string_of_uint d).
Proof. destruct d; reflexivity. Qed.

Lemma stoll_numeral (z : Z) :
  LLONG_MIN <= z <= LLONG_MAX → stoll (numeral z) = StollValue z.
Proof.
  intros Hz. unfold stoll.
  assert (∀ p : positive,
            Ieee.read_digits
              (DecimalString.NilEmpty.string_of_uint (Pos.to_uint p)) 0 0
            = (Zpos p, Z.of_nat (Decimal.nb_digits (Pos.to_uint p)),
               EmptyString)
            ∧ (Z.of_nat (Decimal.nb_digits (Pos.to_uint p)) =? 0) = false)
    as Hdigits.
  { intros p. rewrite read_digits_uint, DecimalPos.Unsigned.of_to.
    split; [reflexivity |]. apply Z.eqb_neq.
    pose proof (to_uint_not_nil p).
    destruct (Pos.to_uint p); [done | simpl; lia..]. }
  destruct z as [| p | p].
  - reflexivity.
  - rewrite numeral_pos, uint_string_unsigned.
    destruct (Hdigits p) as [-> ->].
    assert (((Zpos p <? LLONG_MIN) || (LLONG_MAX <? Zpos p)) = false) as ->.
    { apply orb_false_iff. split; [apply Z.ltb_ge | apply Z.ltb_ge]; lia. }
    reflexivity.
  - rewrite numeral_neg.
    change (Ieee.read_sign (Ieee.skip_spaces (String "-" ?s)))
      with (true, s).
    destruct (Hdigits p) as [-> ->].
    change (- Zpos p) with (Zneg p).
    assert (((Zneg p <? LLONG_MIN) || (LLONG_MAX <? Zneg p)) = false) as ->.
    { apply orb_false_iff. split; [apply Z.ltb_ge | apply Z.ltb_ge]; lia. }
    reflexivity.
Qed.

Lemma get_last (c : ascii) (I : string) :
  String.get (String.length I) (I +:+ String c EmptyString) = Some c.
Proof. induction I as [| a I IH]; [reflexivity | exact IH]. Qed.

Lemma strip_bracketed (body : string) :
  strip (String "[" (body +:+ "]")) = body.
Proof.
  unfold strip.
  change (String.length (String "[" (body +:+ "]")))
    with (S (String.length (body +:+ "]"))).
  rewrite length_append. change (String.length "]") with 1%nat.
  replace (S (String.length body + 1) - 1)%nat
    with (S (String.length body)) by lia.
  replace (S (String.length body + 1) - 2)%nat with (String.length body)
    by lia.
  change (String.get (S (String.length body)) (String "[" (body +:+ "]")))
    with (String.get (String.length body) (body +:+ "]")).
  rewrite get_last.
  change (String.get 0 (String "[" (body +:+ "]"))) with (Some "["%char).
  cbv iota beta.
  change (String.substring 1 (String.length body)
            (String "[" (body +:+ "]")))
    with (String.substring 0 (String.length body) (body +:+ "]")).
  apply substring_prefix.
Qed.

Lemma numerals_split (lo st hi : Z) :
  Z.of_nat
    (String.length (numeral lo +:+ " " +:+ numeral st +:+ " " +:+ numeral hi))
  <= INT_MAX →
  split (numeral lo +:+ " " +:+ numeral st +:+ " " +:+ numeral hi)
  = Some [numeral lo; numeral st; numeral hi]
  ∧ (3 ≤ String.length
           (numeral lo +:+ " " +:+ numeral st +:+ " " +:+ numeral hi))%nat.
Proof.
  intros Hlen.
  set (body := numeral lo +:+ " " +:+ numeral st +:+ " " +:+ numeral hi)
    in *.
  assert (body
          = spaces 0
            +:+ (numeral lo
                 +:+ spaced [(0%nat, numeral st); (0%nat, numeral hi)] 0))
    as Hbody.
  { subst body. cbn [spaces spaced].
    change (EmptyString +:+ ?x) with x.
    change (String " " EmptyString +:+ ?x) with (String " " x).
    by rewrite string_app_nil_r. }
  split.
  - rewrite Hbody.
    apply (split_spaced 0 0 (numeral lo)
             [(0%nat, numeral st); (0%nat, numeral hi)]).
    + apply numeral_word.
    + repeat constructor; apply numeral_word.
    + by rewrite <- Hbody.
  - subst body. rewrite !length_append.
    pose proof (word_length _ (numeral_word lo)).
    pose proof (word_length _ (numeral_word st)).
    pose proof (word_length _ (numeral_word hi)).
    change (String.length " ") with 1%nat. lia.
Qed.

(** The run of [extractIntegerRange] once the three words are numerals. *)
Lemma range_words_extracted (lo st hi : Z) (s : string) :
  LLONG_MIN <= lo <= LLONG_MAX →
  LLONG_MIN <= st <= LLONG_MAX →
  LLONG_MIN <= hi <= LLONG_MAX →
  hi - lo <= LLONG_MAX →
  split (strip s) = Some [numeral lo; numeral st; numeral hi] →
  (2 <? String.length s)%nat = true →
  extractIntegerRange s
  = Extracted ((lo <? hi) && (st <? hi - lo))
      {| min := lo; step := st; max := hi |}.
Proof.
  intros Hlo Hst Hhi Hdiff Hs Hl.
  unfold extractIntegerRange. rewrite Hl, Hs.
  unfold stoll_then. rewrite !stoll_numeral by done.
  destruct (lo <? hi) eqn:E; [| reflexivity].
  assert ((LLONG_MAX <? hi - lo) = false) as -> by (apply Z.ltb_ge; lia).
  reflexivity.
Qed.

Lemma bracketed_range_extracted (lo st hi : Z) :
  LLONG_MIN <= lo <= LLONG_MAX →
  LLONG_MIN <= st <= LLONG_MAX →
  LLONG_MIN <= hi <= LLONG_MAX →
  hi - lo <= LLONG_MAX →
  Z.of_nat
    (String.length (numeral lo +:+ " " +:+ numeral st +:+ " " +:+ numeral hi))
  <= INT_MAX →
  extractIntegerRange
    ("[" +:+ numeral lo +:+ " " +:+ numeral st +:+ " " +:+ numeral hi +:+ "]")
  = Extracted ((lo <? hi) && (st <? hi - lo))
      {| min := lo; step := st; max := hi |}.
Proof.
  intros Hlo Hst Hhi Hdiff Hlen.
  destruct (numerals_split lo st hi Hlen) as [Hsplit Hsize].
  set (body := numeral lo +:+ " " +:+ numeral st +:+ " " +:+ numeral hi)
    in *.
  change ("[" +:+ numeral lo +:+ " " +:+ numeral st +:+ " " +:+ numeral hi
          +:+ "]")
    with (String "[" (numeral lo +:+ " " +:+ numeral st +:+ " "
                      +:+ numeral hi +:+ "]")).
  assert (numeral lo +:+ " " +:+ numeral st +:+ " " +:+ numeral hi +:+ "]"
          = body +:+ "]") as ->.
  { subst body. by rewrite !string_app_assoc. }
  apply range_words_extracted; try done.
  - by rewrite strip_bracketed.
  - apply Nat.ltb_lt. cbn [String.length]. rewrite length_append. lia.
Qed.

(** X17: [extractIntegerRange] reads back a range that is written as the
    decimal numerals of [min], [step] and [max] with one space between them,
    in brackets or without.  When the three values and [max - min] fit
    [int64_t], the range returned holds the three values, and the status is
    [true] if and only if [min < max] and [step < max - min]. *)
Theorem extractIntegerRange_reads_a_range (lo st hi : Z) :
  LLONG_MIN <= lo <= LLONG_MAX →
  LLONG_MIN <= st <= LLONG_MAX →
  LLONG_MIN <= hi <= LLONG_MAX →
  hi - lo <= LLONG_MAX →
  Z.of_nat
    (String.length (numeral lo +:+ " " +:+ numeral st +:+ " " +:+ numeral hi))
  <= INT_MAX →
  extractIntegerRange
    ("[" +:+ numeral lo +:+ " " +:+ numeral st +:+ " " +:+ numeral hi +:+ "]")
  = Extracted ((lo <? hi) && (st <? hi - lo))
      {| min := lo; step := st; max := hi |}
  ∧ extractIntegerRange
      (numeral lo +:+ " " +:+ numeral st +:+ " " +:+ numeral hi)
    = Extracted ((lo <? hi) && (st <? hi - lo))
        {| min := lo; step := st; max := hi |}.
Proof.
  intros Hlo Hst Hhi Hdiff Hlen.
  split; [by apply bracketed_range_extracted |].
  destruct (numerals_split lo st hi Hlen) as [Hsplit Hsize].
  set (body := numeral lo +:+ " " +:+ numeral st +:+ " " +:+ numeral hi)
    in *.
  apply range_words_extracted; try done; [| apply Nat.ltb_lt; lia].
  assert (strip body = body) as ->; [| exact Hsplit].
  unfold strip.
  assert (String.get 0 body ≠ Some "["%char) as Hhead.
  { subst body. destruct lo as [| p | p].
    - discriminate.
    - rewrite numeral_pos. pose proof (to_uint_not_nil p).
      destruct (Pos.to_uint p); [done | discriminate..].
    - rewrite numeral_neg. discriminate. }
  destruct (String.get 0 body) as [c |]; [| reflexivity].
  destruct (Ascii.eqb_spec c "[") as [-> | Hc]; [done |].
  destruct c as [[] [] [] [] [] [] [] []]; try reflexivity; done.
Qed.

Lemma extractIntegerRange_reads_a_range_witness :
  extractIntegerRange
    ("[" +:+ numeral 70000000 +:+ " " +:+ numeral 1 +:+ " "
     +:+ numeral 6000000000 +:+ "]")
  = Extracted ((70000000 <? 6000000000) && (1 <? 6000000000 - 70000000))
      {| min := 70000000; step := 1; max := 6000000000 |}
  ∧ extractIntegerRange
      (numeral 70000000 +:+ " " +:+ numeral 1 +:+ " " +:+ numeral 6000000000)
    = Extracted ((70000000 <? 6000000000) && (1 <? 6000000000 - 70000000))
        {| min := 70000000; step := 1; max := 6000000000 |}.
Proof.
  refine (extractIntegerRange_reads_a_range 70000000 1 6000000000 _ _ _ _ _);
    vm_compute; try (split; discriminate); discriminate.
Defined.

(** The run of a range-checked setter after its range was stored. *)
Lemma setter_after_range (iio : Iio) (v lo st hi : Z) (lg : list IioCall)
    (t : AdiTrx) (write : Z → IioCall) (cache : Z → AdiTrx → AdiTrx)
    (range : AdiTrx → IntegerRange) (setter : Iio → Z → M bool) :
  (∀ w, setter iio v w
        = (t0 ← get;
           if in_range (range t0) v then
             ok ← call iio (write v);
             if (ok : bool) then modify (cache v);; mret true
             else mret false
           else mret false) w) →
  range t = {| min := lo; step := st; max := hi |} →
  ∃ (b : bool) (w' : World),
    setter iio v {| trx := t; log := lg |} = Returns (b, w')
    ∧ (b = true ↔ lo <= v <= hi ∧ iio (write v) = true)
    ∧ (b = true → trx w' = cache v t).
Proof.
  intros Hsetter Hrange. rewrite Hsetter.
  unfold mbind, M_bind, get, call, modify, mret, M_ret. cbn [trx log].
  rewrite Hrange. unfold in_range. cbn [min max].
  destruct (lo <=? v) eqn:E1; destruct (v <=? hi) eqn:E2; cbn [andb];
    try apply Z.leb_le in E1; try apply Z.leb_le in E2;
    try apply Z.leb_gt in E1; try apply Z.leb_gt in E2.
  - destruct (iio (write v)) eqn:F; do 2 eexists;
      (split; [reflexivity |]); (split; [| done]);
      (split; [done | intros [_ ?]; congruence]).
  - do 2 eexists. split; [reflexivity |]. split; [| done].
    split; [done | intros [? _]; lia].
  - do 2 eexists. split; [reflexivity |]. split; [| done].
    split; [done | intros [? _]; lia].
  - do 2 eexists. split; [reflexivity |]. split; [| done].
    split; [done | intros [? _]; lia].
Qed.

Lemma getRangeParams_reads (read : IioRead) (chn : Channel) (attr : string)
    (store : IntegerRange → AdiTrx → AdiTrx) (t : AdiTrx)
    (ret lo st hi : Z) :
  read chn attr
  = (ret, "[" +:+ numeral lo +:+ " " +:+ numeral st +:+ " " +:+ numeral hi
          +:+ "]") →
  2 < ret →
  LLONG_MIN <= lo <= LLONG_MAX →
  LLONG_MIN <= st <= LLONG_MAX →
  LLONG_MIN <= hi <= LLONG_MAX →
  hi - lo <= LLONG_MAX →
  Z.of_nat
    (String.length (numeral lo +:+ " " +:+ numeral st +:+ " " +:+ numeral hi))
  <= INT_MAX →
  getRangeParams read chn attr store t
  = Extracted ((lo <? hi) && (st <? hi - lo))
      (store {| min := lo; step := st; max := hi |} t).
Proof.
  intros Hread Hret Hlo Hst Hhi Hdiff Hlen.
  unfold getRangeParams. rewrite Hread.
  assert ((2 <? ret) = true) as -> by (apply Z.ltb_lt; lia).
  rewrite (bracketed_range_extracted lo st hi Hlo Hst Hhi Hdiff Hlen).
  reflexivity.
Qed.

(** X18: the range that the device reports decides what the setter
    accepts.  When the attribute [frequency_available] of the AD9361 reads
    as a bracketed range [min step max], [getTxLoFrequencyParams] stores
    this range, also when its status is [false]; afterwards
    [setTxLoFrequency] returns [true] if and only if the frequency lies
    between [min] and [max] and the library accepts the write, and it then
    caches the frequency.  The step is not looked at. *)
Theorem device_range_drives_the_setter (read : IioRead) (t : AdiTrx)
    (ret lo st hi : Z) :
  read TxLoChan "frequency_available"%string
  = (ret, "[" +:+ numeral lo +:+ " " +:+ numeral st +:+ " " +:+ numeral hi
          +:+ "]") →
  2 < ret →
  LLONG_MIN <= lo <= LLONG_MAX →
  LLONG_MIN <= st <= LLONG_MAX →
  LLONG_MIN <= hi <= LLONG_MAX →
  hi - lo <= LLONG_MAX →
  Z.of_nat
    (String.length (numeral lo +:+ " " +:+ numeral st +:+ " " +:+ numeral hi))
  <= INT_MAX →
  ∃ t' : AdiTrx,
    AdiTrxAd9361Getters.getTxLoFrequencyParams read t
    = Extracted ((lo <? hi) && (st <? hi - lo)) t'
    ∧ t' = set_mTxLoFrequencyParams {| min := lo; step := st; max := hi |} t
    ∧ ∀ (iio : Iio) (v : Z) (lg : list IioCall),
        ∃ (b : bool) (w' : World),
          AdiTrxAd9361.setTxLoFrequency iio v {| trx := t'; log := lg |}
          = Returns (b, w')
          ∧ (b = true ↔
             lo <= v <= hi
             ∧ iio (iio_channel_attr_write_longlong TxLoChan "frequency" v)
               = true)
          ∧ (b = true → trx w' = set_mTxLoFrequency v t').
Proof.
  intros Hread Hret Hlo Hst Hhi Hdiff Hlen.
  eexists. split; [| split; [reflexivity |]].
  - unfold AdiTrxAd9361Getters.getTxLoFrequencyParams.
    by apply (getRangeParams_reads read _ _ _ t ret).
  - intros iio v lg.
    apply (setter_after_range iio v lo st hi lg _
             (iio_channel_attr_write_longlong TxLoChan "frequency")
             set_mTxLoFrequency mTxLoFrequencyParams);
      [intros w; reflexivity | reflexivity].
Qed.

Lemma device_range_drives_the_setter_witness :
  ∃ t' : AdiTrx,
    AdiTrxAd9361Getters.getTxLoFrequencyParams
      (fun _ _ => (24, "[" +:+ numeral 70000000 +:+ " " +:+ numeral 1 +:+ " "
                       +:+ numeral 6000000000 +:+ "]")) new
    = Extracted ((70000000 <? 6000000000) && (1 <? 6000000000 - 70000000)) t'
    ∧ t' = set_mTxLoFrequencyParams
             {| min := 70000000; step := 1; max := 6000000000 |} new
    ∧ ∀ (iio : Iio) (v : Z) (lg : list IioCall),
        ∃ (b : bool) (w' : World),
          AdiTrxAd9361.setTxLoFrequency iio v {| trx := t'; log := lg |}
          = Returns (b, w')
          ∧ (b = true ↔
             70000000 <= v <= 6000000000
             ∧ iio (iio_channel_attr_write_longlong TxLoChan "frequency" v)
               = true)
          ∧ (b = true → trx w' = set_mTxLoFrequency v t').
Proof.
  refine (device_range_drives_the_setter
            (fun _ _ => (24, "[" +:+ numeral 70000000 +:+ " " +:+ numeral 1
                             +:+ " " +:+ numeral 6000000000 +:+ "]"))
            new 24 70000000 1 6000000000 eq_refl _ _ _ _ _ _);
    vm_compute; try (split; discriminate); try discriminate; reflexivity.
Defined.

End ExtractFacts.

(** ** RadioModTx: the selection and the start of the streaming *)

Section SelectionFacts.
Import Modulation Dataset DatasetParser CsvParser CsvClosedForm HisarModSpec.
Import RadioModTx AdiTrx TxHal TxStop RadioModTxSlots StreamExamples.

Lemma hisar_modulations_series (m : ModulationName) :
  m ∈ hisar_modulations → ∃ idx : nat, (idx < 26)%nat ∧ modOf idx = m.
Proof.
  intros Hm.
  assert (m ∈ seriesNames) as Hs.
  { revert Hm. unfold hisar_modulations.
    rewrite !elem_of_cons.
    intros H. repeat (destruct H as [-> | H];
                      [apply list_elem_of_In; vm_compute; tauto |]).
    by apply elem_of_nil in H. }
  apply list_elem_of_lookup in Hs as [idx Hidx].
  assert (idx < 26)%nat as Hlt
    by (apply lookup_lt_Some in Hidx; by rewrite seriesNames_length in Hidx).
  exists idx. split; [exact Hlt |].
  unfold modOf. rewrite Nat.mod_small by done. by rewrite Hidx.
Qed.

Lemma hisar_snrs_index (s : Z) :
  s ∈ hisar_snrs → ∃ k : nat, (k < 20)%nat ∧ s = -20 + 2 * Z.of_nat k.
Proof.
  unfold hisar_snrs, snrs_upto. rewrite list_elem_of_fmap.
  intros (k & -> & Hk). apply elem_of_seq in Hk. exists k. split; [lia | done].
Qed.

Lemma keyOf_block (idx k : nat) :
  (idx < 26)%nat →
  keyOf (26 * k + idx) = (modOf idx, -20 + 2 * Z.of_nat k).
Proof.
  intros Hidx. unfold keyOf, modOf, snrOf. f_equal.
  - assert ((26 * k + idx) mod 26 = idx mod 26)%nat as -> by lia.
    reflexivity.
  - assert (Z.of_nat (26 * k + idx) / 26 = Z.of_nat k) as -> by lia.
    reflexivity.
Qed.

Lemma stored_combinations (lines : list string) (c : nat)
    (m : ModulationName) (s : Z) :
  m ∈ hisar_modulations → s ∈ hisar_snrs →
  (26 * (Z.to_nat ((s + 20) / 2)) + 26 ≤ c)%nat →
  ∃ b : nat, keyOf b = (m, s)
             ∧ storeUpTo lines c !! (m, s)
               = Some (blockSignal (blockLines lines b)).
Proof.
  intros Hm Hs Hc.
  destruct (hisar_modulations_series m Hm) as (idx & Hidx & <-).
  destruct (hisar_snrs_index s Hs) as (k & Hk & ->).
  exists (26 * k + idx)%nat. split; [by apply keyOf_block |].
  rewrite <- (keyOf_block idx k Hidx).
  apply storeUpTo_lookup.
  assert (Z.to_nat ((-20 + 2 * Z.of_nat k + 20) / 2) = k) as E by lia.
  rewrite E in Hc. lia.
Qed.

(** X19: the combinations that the vectors of an accepted file offer and
    the combinations that its map holds.  Every modulation of the vector
    with every SNR of the vector up to 16 is stored.  With 260 000 lines
    every offered combination is stored; with fewer lines the modulation
    [NAME_AM_USB] and the SNR 18 are both offered and their combination is
    not stored. *)
Theorem offered_combinations_and_the_store (fs : FileSystem)
    (p : DatasetParser) (lines : list string) :
  fs (DatasetParser.mFileName p) = Some lines →
  well_formed lines →
  247000 < Z.of_nat (length lines) <= 260000 →
  ∃ p' : DatasetParser,
    parseDataset fs p = Some p'
    ∧ mStatus p' = true
    ∧ (∀ m s,
         m ∈ DatasetParser.mUniqueModVec p' →
         s ∈ DatasetParser.mUniqueSnrVec p' → s <= 16 →
         is_Some (DatasetParser.mMap p' !! (m, s)))
    ∧ (Z.of_nat (length lines) = 260000 →
       ∀ m s,
         m ∈ DatasetParser.mUniqueModVec p' →
         s ∈ DatasetParser.mUniqueSnrVec p' →
         is_Some (DatasetParser.mMap p' !! (m, s)))
    ∧ (Z.of_nat (length lines) < 260000 →
       NAME_AM_USB ∈ DatasetParser.mUniqueModVec p'
       ∧ 18 ∈ DatasetParser.mUniqueSnrVec p'
       ∧ DatasetParser.mMap p' !! (NAME_AM_USB, 18) = None).
Proof.
  intros Hfs Hwf Hlen.
  destruct (parseDataset_accepted fs p lines Hfs Hwf Hlen)
    as (p' & Hp & Hst & Hmap & Hmods & Hsnrs).
  exists p'. split; [exact Hp |]. split; [exact Hst |].
  rewrite Hmap, Hmods, Hsnrs.
  assert (∀ m s (c : nat),
            m ∈ hisar_modulations → s ∈ hisar_snrs →
            (26 * (Z.to_nat ((s + 20) / 2)) + 26 ≤ c)%nat →
            is_Some (storeUpTo lines c !! (m, s))) as Hstored.
  { intros m s c Hm Hs Hc.
    destruct (stored_combinations lines c m s Hm Hs Hc) as (b & _ & ->).
    by eexists. }
  split; [| split].
  - intros m s Hm Hs Hs16. apply Hstored; [done | done |].
    destruct (hisar_snrs_index s Hs) as (k & Hk & ->). lia.
  - intros Hfull m s Hm Hs. apply Hstored; [done | done |].
    destruct (hisar_snrs_index s Hs) as (k & Hk & ->). lia.
  - intros Hshort. split; [| split].
    + vm_compute. repeat first [apply list_elem_of_here
                               | apply list_elem_of_further].
    + vm_compute. repeat first [apply list_elem_of_here
                               | apply list_elem_of_further].
    + change (NAME_AM_USB, 18) with (keyOf 519).
      apply storeUpTo_lookup_None. intros b Hb E. apply key_inj in E. lia.
Qed.

Lemma offered_combinations_and_the_store_witness :
  ∃ p' : DatasetParser,
    parseDataset zero_fs DatasetParser.new = Some p'
    ∧ mStatus p' = true
    ∧ (∀ m s,
         m ∈ DatasetParser.mUniqueModVec p' →
         s ∈ DatasetParser.mUniqueSnrVec p' → s <= 16 →
         is_Some (DatasetParser.mMap p' !! (m, s)))
    ∧ (Z.of_nat (length zero_file) = 260000 →
       ∀ m s,
         m ∈ DatasetParser.mUniqueModVec p' →
         s ∈ DatasetParser.mUniqueSnrVec p' →
         is_Some (DatasetParser.mMap p' !! (m, s)))
    ∧ (Z.of_nat (length zero_file) < 260000 →
       NAME_AM_USB ∈ DatasetParser.mUniqueModVec p'
       ∧ 18 ∈ DatasetParser.mUniqueSnrVec p'
       ∧ DatasetParser.mMap p' !! (NAME_AM_USB, 18) = None).
Proof.
  refine (offered_combinations_and_the_store zero_fs DatasetParser.new
            zero_file eq_refl (proj1 zero_file_well_formed) _).
  rewrite zero_file_length. lia.
Defined.

(** *** The slot that starts the streaming *)






End SelectionFacts.
